(** * Camera streaming hub of bambuddy (backend/app/api/routes/camera.py)

    A shallow embedding of the shared-producer camera hub: the
    [_SharedStream] records, the [SharedStreamHub] registry with its
    producer tasks, the viewer and grid pollers, the MJPEG byte-stream
    parser and the binary grid header.

    Conventions.
    - Python objects that are shared by reference ([_SharedStream]
      instances, asyncio tasks) live in stores indexed by an identity
      ([loc], [task_id]); [is] is equality of identities.
    - [time.monotonic()] is an input of every operation that reads the
      clock; timestamps are rationals.
    - Python [int] is [Z]; [bytes] is [list byte]. *)

From Stdlib Require Import ZArith QArith Lia Lqa List String Ascii.
From Stdlib.Strings Require Import Byte.
From stdpp Require Import base option list gmap strings pretty.
From Equations Require Import Equations.

Local Open Scope Z_scope.

(** ** Data model *)

Abbreviation bytes := (list byte) (only parsing).
Abbreviation loc := nat (only parsing).
Abbreviation task_id := nat (only parsing).

(** [class _SharedStream] with its [__slots__]. *)
Record SharedStream := mkSharedStream {
  frame : option bytes;
  frame_seq : Z;
  task : option task_id;
  error : option string;
  alive : bool;
  last_accessed : Q;
  params_key : string
}.

(** [_SharedStream.__init__(params_key)]; [now] is the clock reading. *)
Definition new_SharedStream (pk : string) (now : Q) : SharedStream :=
  {| frame := None; frame_seq := 0; task := None; error := None;
     alive := true; last_accessed := now; params_key := pk |}.

Definition set_frame (f : option bytes) (e : SharedStream) : SharedStream :=
  {| frame := f; frame_seq := frame_seq e; task := task e; error := error e;
     alive := alive e; last_accessed := last_accessed e;
     params_key := params_key e |}.

Definition set_frame_seq (n : Z) (e : SharedStream) : SharedStream :=
  {| frame := frame e; frame_seq := n; task := task e; error := error e;
     alive := alive e; last_accessed := last_accessed e;
     params_key := params_key e |}.

Definition set_task (t : option task_id) (e : SharedStream) : SharedStream :=
  {| frame := frame e; frame_seq := frame_seq e; task := t; error := error e;
     alive := alive e; last_accessed := last_accessed e;
     params_key := params_key e |}.

Definition set_error (m : option string) (e : SharedStream) : SharedStream :=
  {| frame := frame e; frame_seq := frame_seq e; task := task e; error := m;
     alive := alive e; last_accessed := last_accessed e;
     params_key := params_key e |}.

Definition set_alive (b : bool) (e : SharedStream) : SharedStream :=
  {| frame := frame e; frame_seq := frame_seq e; task := task e;
     error := error e; alive := b; last_accessed := last_accessed e;
     params_key := params_key e |}.

Definition set_last_accessed (q : Q) (e : SharedStream) : SharedStream :=
  {| frame := frame e; frame_seq := frame_seq e; task := task e;
     error := error e; alive := alive e; last_accessed := q;
     params_key := params_key e |}.

(** Where the coroutine of [_run_producer] is suspended. *)
Inductive pc :=
| Created      (* scheduled by create_task, body not entered yet *)
| Reading      (* inside [async for frame in source], awaiting a frame *)
| Closing      (* inside [finally], awaiting [source.aclose()] *)
| Finished.

Record Task := mkTask {
  t_printer : Z;
  t_entry : loc;
  t_pc : pc;
  t_cancel : bool          (* [Task.cancel()] requested, not delivered yet *)
}.

Definition set_pc (p : pc) (t : Task) : Task :=
  {| t_printer := t_printer t; t_entry := t_entry t; t_pc := p;
     t_cancel := t_cancel t |}.

Definition set_cancel (b : bool) (t : Task) : Task :=
  {| t_printer := t_printer t; t_entry := t_entry t; t_pc := t_pc t;
     t_cancel := b |}.

(** [SharedStreamHub]: the registry [_streams], together with the store of
    stream objects and the store of asyncio tasks it refers to. *)
Record Hub := mkHub {
  objs : list SharedStream;
  _streams : gmap Z loc;
  tasks : list Task
}.

Definition hub_init : Hub := {| objs := []; _streams := ∅; tasks := [] |}.

Definition IDLE_TIMEOUT : Q := 30.

(** What an operation did besides changing the store, in program order. *)
Inductive effect :=
| CreateTask (t : task_id) (printer_id : Z) (l : loc)
| CancelTask (t : task_id)
| MarkDead (l : loc)
| ClearFrame (l : loc)
| WriteFrame (l : loc) (f : bytes)
| IncrSeq (l : loc)
| RecordError (l : loc) (m : string)
| CloseSource (t : task_id)
| RegistryDelete (printer_id : Z) (l : loc)
| RegistryKeep (printer_id : Z).

Global Instance pc_eq_dec : EqDecision pc.
Proof. solve_decision. Defined.


Definition is_create (e : effect) : bool :=
  match e with CreateTask _ _ _ => true | _ => false end.


Definition count_creates (es : list effect) : nat :=
  length (List.filter is_create es).

(** ** Store updates *)

Definition update_obj (l : loc) (f : SharedStream -> SharedStream) (h : Hub) : Hub :=
  {| objs := alter f l (objs h); _streams := _streams h; tasks := tasks h |}.

Definition update_task (t : task_id) (f : Task -> Task) (h : Hub) : Hub :=
  {| objs := objs h; _streams := _streams h; tasks := alter f t (tasks h) |}.

Definition set_streams (m : gmap Z loc) (h : Hub) : Hub :=
  {| objs := objs h; _streams := m; tasks := tasks h |}.

(** [self._streams.get(printer_id)] followed by the attribute read. *)
Definition get_entry (h : Hub) (printer_id : Z) : option (loc * SharedStream) :=
  match _streams h !! printer_id with
  | Some l => match objs h !! l with
              | Some e => Some (l, e)
              | None => None
              end
  | None => None
  end.

(** [Task.cancel()]: a request, without effect on a task that is done. *)
Definition cancel_task (t : task_id) (h : Hub) : Hub :=
  update_task t (fun k => match t_pc k with
                          | Finished => k
                          | _ => set_cancel true k
                          end) h.

(** ** SharedStreamHub.get_or_start / restart *)

(** The common tail of [get_or_start] and [restart]:
    [entry = _SharedStream(params_key); self._streams[printer_id] = entry;
     entry.task = asyncio.create_task(self._run_producer(...))]. *)
Definition start_producer (printer_id : Z) (pk : string) (now : Q) (h : Hub)
  : loc * Hub * list effect :=
  let l := length (objs h) in
  let t := length (tasks h) in
  (l,
   {| objs := objs h ++ [set_task (Some t) (new_SharedStream pk now)];
      _streams := <[printer_id := l]> (_streams h);
      tasks := tasks h ++ [mkTask printer_id l Created false] |},
   [CreateTask t printer_id l]).

Definition get_or_start (printer_id : Z) (pk : string) (now : Q) (h : Hub)
  : loc * Hub * list effect :=
  match get_entry h printer_id with
  | Some (l, entry) =>
      if alive entry
      then (l, update_obj l (set_last_accessed now) h, [])
      else start_producer printer_id pk now h
  | None => start_producer printer_id pk now h
  end.

Definition restart (printer_id : Z) (pk : string) (now : Q) (h : Hub)
  : loc * Hub * list effect :=
  match get_entry h printer_id with
  | Some (l, old) =>
      if alive old then
        if String.eqb (params_key old) pk
        then (l, update_obj l (set_last_accessed now) h, [])
        else
          let h1 := update_obj l (set_alive false) h in
          let '(h2, es) :=
            match task old with
            | Some t => (cancel_task t h1, [CancelTask t])
            | None => (h1, [])
            end in
          let '(l', h3, es') := start_producer printer_id pk now h2 in
          (l', h3, MarkDead l :: es ++ es')
      else start_producer printer_id pk now h
  | None => start_producer printer_id pk now h
  end.

(** ** SharedStreamHub.stop / is_active *)

Definition task_done (t : task_id) (h : Hub) : bool :=
  match tasks h !! t with
  | Some k => bool_decide (t_pc k = Finished)
  | None => true
  end.

(** [finally] step 1, also the two assignments of [stop]:
    [entry.alive = False; entry.frame = None]. *)
Definition mark_dead (l : loc) (h : Hub) : Hub :=
  update_obj l (fun e => set_frame None (set_alive false e)) h.

Definition stop (printer_id : Z) (h : Hub) : bool * Hub * list effect :=
  match get_entry h printer_id with
  | None => (false, h, [])
  | Some (l, entry) =>
      let h1 := set_streams (delete printer_id (_streams h)) h in
      let h2 := mark_dead l h1 in
      match task entry with
      | Some t =>
          if task_done t h2
          then (true, h2, [MarkDead l; ClearFrame l])
          else (true, cancel_task t h2, [MarkDead l; ClearFrame l; CancelTask t])
      | None => (true, h2, [MarkDead l; ClearFrame l])
      end
  end.

Definition is_active (printer_id : Z) (h : Hub) : bool :=
  match get_entry h printer_id with
  | Some (_, entry) => alive entry
  | None => false
  end.

(** ** SharedStreamHub._run_producer *)

(** What the environment of a producer task can make happen at its
    suspension points. *)
Inductive producer_event :=
| StartOk                        (* [starter_fn()] returned the source *)
| StartRaise (m : string)        (* [starter_fn()] raised *)
| Frame (f : bytes) (now : Q)    (* the source yielded [f]; clock at the idle check *)
| Exhausted                      (* the source ended *)
| SourceRaise (m : string)       (* the source raised an Exception *)
| DeliverCancel                  (* CancelledError thrown in at the await *)
| Closed (ok : bool).            (* [aclose()] returned, or raised an Exception *)

(** [now - entry.last_accessed > IDLE_TIMEOUT] *)
Definition idle (now : Q) (e : SharedStream) : bool :=
  negb (Qle_bool (now - last_accessed e) IDLE_TIMEOUT).

(** [finally] step 3:
    [if self._streams.get(printer_id) is entry: del self._streams[printer_id]] *)
Definition deregister (printer_id : Z) (l : loc) (h : Hub) : Hub * list effect :=
  match _streams h !! printer_id with
  | Some l' =>
      if decide (l' = l)
      then (set_streams (delete printer_id (_streams h)) h,
            [RegistryDelete printer_id l])
      else (h, [RegistryKeep printer_id])
  | None => (h, [RegistryKeep printer_id])
  end.

(** Leaving the [try] with a source open: [finally] step 1, then the task
    suspends in [await source.aclose()]. *)
Definition enter_finally (t : task_id) (l : loc) (h : Hub) : Hub * list effect :=
  (update_task t (set_pc Closing) (mark_dead l h), [MarkDead l; ClearFrame l]).

Definition producer_step (t : task_id) (ev : producer_event) (h : Hub)
  : option (Hub * list effect) :=
  match tasks h !! t with
  | None => None
  | Some k =>
      let l := t_entry k in
      let pid := t_printer k in
      (* resuming the task consumes a pending cancellation request *)
      let h := update_task t (set_cancel false) h in
      match t_pc k, ev with
      | Created, StartOk => Some (update_task t (set_pc Reading) h, [])
      | Created, StartRaise m =>
          (* except Exception: entry.error = str(e); finally with source None *)
          let h1 := update_obj l (set_error (Some m)) h in
          let h2 := mark_dead l h1 in
          let '(h3, es) := deregister pid l h2 in
          Some (update_task t (set_pc Finished) h3,
                RecordError l m :: MarkDead l :: ClearFrame l :: es)
      | Created, DeliverCancel =>
          (* cancelled before the first step: the body never runs *)
          if t_cancel k
          then Some (update_task t (set_pc Finished) h, [])
          else None
      | Reading, Frame f now =>
          match objs h !! l with
          | None => None
          | Some e =>
              if negb (alive e) then Some (enter_finally t l h)
              else
                let h1 := update_obj l (set_frame (Some f)) h in
                let h2 := update_obj l (fun e => set_frame_seq (frame_seq e + 1) e) h1 in
                if idle now e then
                  let h3 := update_obj l (set_alive false) h2 in
                  let '(h4, es) := enter_finally t l h3 in
                  Some (h4, WriteFrame l f :: IncrSeq l :: MarkDead l :: es)
                else Some (h2, [WriteFrame l f; IncrSeq l])
          end
      | Reading, Exhausted => Some (enter_finally t l h)
      | Reading, SourceRaise m =>
          let h1 := update_obj l (set_error (Some m)) h in
          let '(h2, es) := enter_finally t l h1 in
          Some (h2, RecordError l m :: es)
      | Reading, DeliverCancel =>
          if t_cancel k then Some (enter_finally t l h) else None
      | Closing, Closed ok =>
          (* a failure of aclose() is swallowed: both outcomes continue *)
          let '(h1, es) := deregister pid l h in
          Some (update_task t (set_pc Finished) h1, CloseSource t :: es)
      | Closing, DeliverCancel =>
          (* CancelledError is not an Exception: it leaves the finally block *)
          if t_cancel k
          then Some (update_task t (set_pc Finished) h, [])
          else None
      | _, _ => None
      end
  end.

(** ** The hub as a labelled transition system *)

(** A viewer or the grid poller touching an entry it holds:
    [if entry.alive: entry.last_accessed = now]. *)
Definition touch (l : loc) (now : Q) (h : Hub) : Hub :=
  match objs h !! l with
  | Some e => if alive e then update_obj l (set_last_accessed now) h else h
  | None => h
  end.

Inductive label :=
| GetOrStart (printer_id : Z) (pk : string) (now : Q)
| Restart (printer_id : Z) (pk : string) (now : Q)
| Stop (printer_id : Z)
| Touch (l : loc) (now : Q)
| Producer (t : task_id) (ev : producer_event).

Definition exec (a : label) (h : Hub) : option (Hub * list effect) :=
  match a with
  | GetOrStart pid pk now => let '(_, h', es) := get_or_start pid pk now h in Some (h', es)
  | Restart pid pk now => let '(_, h', es) := restart pid pk now h in Some (h', es)
  | Stop pid => let '(_, h', es) := stop pid h in Some (h', es)
  | Touch l now => Some (touch l now h, [])
  | Producer t ev => producer_step t ev h
  end.

Fixpoint run (tr : list label) (h : Hub) : option (Hub * list effect) :=
  match tr with
  | [] => Some (h, [])
  | a :: tr' =>
      match exec a h with
      | Some (h1, es1) =>
          match run tr' h1 with
          | Some (h2, es2) => Some (h2, es1 ++ es2)
          | None => None
          end
      | None => None
      end
  end.

Inductive reachable : Hub -> Prop :=
| reach_init : reachable hub_init
| reach_step a h h' es : reachable h -> exec a h = Some (h', es) -> reachable h'.

(** ** Viewer: the generator returned by [make_viewer] *)

Definition crlf : bytes := [x0d; x0a].

Definition encode (s : string) : bytes := list_byte_of_string s.

(** [str(len(frame)).encode()] *)
Definition len_bytes (f : bytes) : bytes := encode (pretty (Z.of_nat (length f))).

(** One part of the multipart response. *)
Definition mjpeg_part (f : bytes) : bytes :=
  encode "--frame" ++ crlf ++
  encode "Content-Type: image/jpeg" ++ crlf ++
  encode "Content-Length: " ++ len_bytes f ++ crlf ++
  crlf ++ f ++ crlf.

(** Python's [a / b] with an integer divisor: [None] is ZeroDivisionError. *)
Definition truediv (a : Q) (b : Z) : option Q :=
  if b =? 0 then None else Some (a / inject_Z b)%Q.

(** [frame_interval = 1.0 / fps if fps > 0 else 0.1] *)
Definition viewer_frame_interval (fps : Z) : option Q :=
  if 0 <? fps then truediv 1 fps else Some (1 # 10)%Q.

Record Viewer := mkViewer {
  v_entry : loc;
  v_frame_interval : Q;
  seen_seq : Z;
  last_yield : Q
}.

(** The first lines of [_viewer]; [None] is an uncaught exception. *)
Definition make_viewer (entry : loc) (fps : Z) : option Viewer :=
  match viewer_frame_interval fps with
  | Some i => Some {| v_entry := entry; v_frame_interval := i;
                      seen_seq := 0; last_yield := 0 |}
  | None => None
  end.

Inductive poll_outcome :=
| ViewerStop                  (* the loop ended *)
| ViewerSleep                 (* no new frame: sleep 0.05 and retry *)
| ViewerSkip                  (* rate-limited away *)
| ViewerYield (chunk : bytes).

(** The pair the viewer reads on a poll: [seq = entry.frame_seq] and then
    [frame = entry.frame]. *)
Definition viewer_snapshot (v : Viewer) (h : Hub) : option (Z * option bytes) :=
  match objs h !! v_entry v with
  | Some e => Some (frame_seq e, frame e)
  | None => None
  end.

(** One iteration of [while entry.alive]; [now] and [now'] are the two
    clock readings of the iteration. *)
Definition viewer_poll (now now' : Q) (v : Viewer) (h : Hub)
  : poll_outcome * Viewer * Hub :=
  match objs h !! v_entry v with
  | None => (ViewerStop, v, h)
  | Some e =>
      if negb (alive e) then (ViewerStop, v, h)
      else
        let h' := update_obj (v_entry v) (set_last_accessed now) h in
        let seq := frame_seq e in
        let frame := frame e in
        if seq <=? seen_seq v then (ViewerSleep, v, h')
        else
          match frame with
          | None => (ViewerStop, v, h')
          | Some f =>
              let v1 := {| v_entry := v_entry v;
                           v_frame_interval := v_frame_interval v;
                           seen_seq := seq; last_yield := last_yield v |} in
              if negb (Qle_bool (v_frame_interval v) (now' - last_yield v))
              then (ViewerSkip, v1, h')
              else (ViewerYield (mjpeg_part f),
                    {| v_entry := v_entry v;
                       v_frame_interval := v_frame_interval v;
                       seen_seq := seq; last_yield := now' |}, h')
          end
  end.

(** ** Binary header of the grid stream *)

Definition byte_of_Z (z : Z) : byte :=
  match Byte.of_N (Z.to_N (z mod 256)) with
  | Some b => b
  | None => x00
  end.

Definition Z_of_byte (b : byte) : Z := Z.of_N (Byte.to_N b).

(** One ["I"] field of [struct.pack("<...")]: four bytes, least significant
    first; [None] is [struct.error] (argument out of range). *)
Definition pack_u32_le (n : Z) : option bytes :=
  if (0 <=? n) && (n <? 2 ^ 32) then
    Some [byte_of_Z (Z.land n 255);
          byte_of_Z (Z.land (Z.shiftr n 8) 255);
          byte_of_Z (Z.land (Z.shiftr n 16) 255);
          byte_of_Z (Z.land (Z.shiftr n 24) 255)]
  else None.

(** [struct.pack("<II", a, b)] *)
Definition struct_pack_II (a b : Z) : option bytes :=
  match pack_u32_le a, pack_u32_le b with
  | Some x, Some y => Some (x ++ y)
  | _, _ => None
  end.

(** Modelled from the spec: the decoder of the grid header is the client's
    (it is not part of the backend sources); it reads the two consecutive
    4-byte little-endian unsigned integers of the header back. *)
Definition unpack_u32_le (bs : bytes) : option Z :=
  match bs with
  | [b0; b1; b2; b3] =>
      Some (Z_of_byte b0 + Z.shiftl (Z_of_byte b1) 8 +
            Z.shiftl (Z_of_byte b2) 16 + Z.shiftl (Z_of_byte b3) 24)
  | _ => None
  end.

(** Modelled from the spec: decoding of an 8-byte header into
    (identity, payload length). *)
Definition struct_unpack_II (bs : bytes) : option (Z * Z) :=
  match unpack_u32_le (take 4 bs), unpack_u32_le (drop 4 bs) with
  | Some a, Some b => Some (a, b)
  | _, _ => None
  end.

(** ** Grid multiplexer: [camera_grid_stream.generate] *)

(** A Python dict with its insertion order. *)
Definition dict_get {V} (k : Z) (d : list (Z * V)) : option V :=
  snd <$> List.find (fun kv => Z.eqb (fst kv) k) d.

Fixpoint dict_set {V} (k : Z) (v : V) (d : list (Z * V)) : list (Z * V) :=
  match d with
  | [] => [(k, v)]
  | (k', v') :: d' =>
      if Z.eqb k' k then (k, v) :: d' else (k', v') :: dict_set k v d'
  end.

Definition dict_pop {V} (k : Z) (d : list (Z * V)) : list (Z * V) :=
  List.filter (fun kv => negb (Z.eqb (fst kv) k)) d.

Definition dict_keys {V} (d : list (Z * V)) : list Z := map fst d.

Record Grid := mkGrid {
  entries : list (Z * loc);
  seen_seqs : gmap Z Z
}.

(** [seen_seqs = dict.fromkeys(entries, 0)] *)
Definition grid_init (es : list (Z * loc)) : Grid :=
  {| entries := es;
     seen_seqs := list_to_map (map (fun k => (k, 0)) (dict_keys es)) |}.

(** The body of [for pid, entry in list(entries.items())]; the output is
    what the iteration yields; [None] is [struct.error]. *)
Definition grid_visit (now : Q) (pid : Z) (l : loc) (g : Grid) (h : Hub)
  : option (Grid * Hub * list bytes) :=
  match objs h !! l with
  | None => Some (g, h, [])
  | Some entry =>
      if negb (alive entry) then
        (* Producer died: remove from rotation *)
        Some ({| entries := dict_pop pid (entries g);
                 seen_seqs := seen_seqs g |}, h, [])
      else
        let h' := update_obj l (set_last_accessed now) h in
        let seq := frame_seq entry in
        if seq <=? default 0 (seen_seqs g !! pid) then Some (g, h', [])
        else
          match frame entry with
          | None => Some (g, h', [])
          | Some f =>
              let g' := {| entries := entries g;
                           seen_seqs := <[pid := seq]> (seen_seqs g) |} in
              match struct_pack_II pid (Z.of_nat (length f)) with
              | Some header => Some (g', h', [header ++ f])
              | None => None
              end
          end
  end.

Fixpoint grid_for (now : Q) (items : list (Z * loc)) (g : Grid) (h : Hub)
  : option (Grid * Hub * list bytes) :=
  match items with
  | [] => Some (g, h, [])
  | (pid, l) :: rest =>
      match grid_visit now pid l g h with
      | Some (g1, h1, out1) =>
          match grid_for now rest g1 h1 with
          | Some (g2, h2, out2) => Some (g2, h2, out1 ++ out2)
          | None => None
          end
      | None => None
      end
  end.

(** One pass of the [while True] loop, over the snapshot
    [list(entries.items())]. *)
Definition grid_cycle (now : Q) (g : Grid) (h : Hub)
  : option (Grid * Hub * list bytes) :=
  grid_for now (entries g) g h.

(** [await asyncio.sleep(frame_interval * 0.5 if not sent_any else 0.01)] *)
Definition grid_sleep (frame_interval : Q) (sent_any : bool) : Q :=
  if negb sent_any then (frame_interval * (1 # 2))%Q else (1 # 100)%Q.

(** ** MJPEG byte-stream parser of [generate_rtsp_mjpeg_stream] *)

Fixpoint starts_with (sub buf : bytes) : bool :=
  match sub, buf with
  | [], _ => true
  | a :: sub', b :: buf' => Byte.eqb a b && starts_with sub' buf'
  | _ :: _, [] => false
  end.

(** Lowest index at which [sub] occurs in [buf]. *)
Fixpoint find_at (sub buf : bytes) : option nat :=
  if starts_with sub buf then Some O
  else match buf with
       | [] => None
       | _ :: buf' => S <$> find_at sub buf'
       end.

(** [buf.find(sub, start)]: lowest index [>= start], or [-1]. *)
Definition py_find (buf sub : bytes) (start : nat) : Z :=
  match find_at sub (drop start buf) with
  | Some i => Z.of_nat (start + i)
  | None => -1
  end.

Definition jpeg_start : bytes := [xff; xd8].
Definition jpeg_end : bytes := [xff; xd9].

(** [del buffer[:n]] *)
Definition del_prefix (n : Z) (buf : bytes) : bytes := drop (Z.to_nat n) buf.

Inductive scan_result :=
| NoStart (buf' : bytes)           (* first [break]: no start marker *)
| NoEnd (buf' : bytes)             (* second [break]: no end marker yet *)
| Found (frame rest : bytes).      (* a complete frame was cut out *)

(** The body of the inner [while True]. *)
Definition scan_once (buffer : bytes) : scan_result :=
  let start_idx := py_find buffer jpeg_start 0 in
  if start_idx =? -1 then
    NoStart (del_prefix (Z.max 0 (Z.of_nat (length buffer) - 1)) buffer)
  else
    let buffer := if 0 <? start_idx then del_prefix start_idx buffer else buffer in
    let end_idx := py_find buffer jpeg_end 2 in
    if end_idx =? -1 then NoEnd buffer
    else Found (take (Z.to_nat (end_idx + 2)) buffer)
               (del_prefix (end_idx + 2) buffer).

Lemma py_find_ge buf sub start :
  py_find buf sub start <> -1 -> Z.of_nat start <= py_find buf sub start.
Proof. unfold py_find. destruct (find_at _ _); lia. Qed.

Lemma scan_once_Found buf f rest :
  scan_once buf = Found f rest -> (length rest < length buf)%nat.
Proof.
  unfold scan_once.
  destruct (Z.eqb_spec (py_find buf jpeg_start 0) (-1)) as [|Hs]; [discriminate|].
  set (b := if 0 <? _ then _ else _).
  destruct (Z.eqb_spec (py_find b jpeg_end 2) (-1)) as [|He]; [discriminate|].
  intros [= <- <-]. pose proof (py_find_ge _ _ 2%nat He) as Hge.
  assert (length b <= length buf)%nat as Hle.
  { subst b. destruct (0 <? _); [unfold del_prefix; rewrite length_drop|]; lia. }
  assert (length b <> 0)%nat as Hne.
  { intros Hb. destruct b; [|discriminate]. apply He. reflexivity. }
  unfold del_prefix. rewrite length_drop. lia.
Qed.

Definition inspect {A} (a : A) : {b | a = b} := exist _ a eq_refl.

(** The inner [while True] loop: frames cut out of the buffer, in order,
    and the buffer that is left. *)
Equations extract (buffer : bytes) : list bytes * bytes
  by wf (length buffer) lt :=
  extract buffer with inspect (scan_once buffer) := {
    | exist _ (NoStart b) _ => ([], b)
    | exist _ (NoEnd b) _ => ([], b)
    | exist _ (Found f rest) H =>
        let '(fs, b) := extract rest in (f :: fs, b) }.
Next Obligation. eapply scan_once_Found; eauto. Qed.

(** What the generator yields for a frame. *)
Definition emit (raw : bool) (f : bytes) : bytes :=
  if raw then f else mjpeg_part f.

(** The outer [while True] loop over the chunks read from ffmpeg's stdout:
    the chunks yielded and the buffer at the end.  An empty read is the end
    of the stream. *)
Fixpoint feed (raw : bool) (chunks : list bytes) (buffer : bytes)
  : list bytes * bytes :=
  match chunks with
  | [] => ([], buffer)
  | chunk :: chunks' =>
      match chunk with
      | [] => ([], buffer)
      | _ :: _ =>
          let '(fs, buffer') := extract (buffer ++ chunk) in
          let '(out, buffer'') := feed raw chunks' buffer' in
          (map (emit raw) fs ++ out, buffer'')
      end
  end.

(** ** Frame rates *)

(** [min(max(fps, 1), hi)] *)
Definition clamp_fps (hi fps : Z) : Z := Z.min (Z.max fps 1) hi.

(** [fps = max(1, min(fps, 30))] of the grid route. *)
Definition grid_fps (fps : Z) : Z := Z.max 1 (Z.min fps 30).

(** [frame_interval = 1.0 / fps] of [generate]. *)
Definition grid_frame_interval (fps : Z) : option Q := truediv 1 fps.

(** [frame_interval = 1.0 / fps if fps > 0 else 0.2] of the chamber source. *)
Definition chamber_frame_interval (fps : Z) : option Q :=
  if 0 <? fps then truediv 1 fps else Some (2 # 10)%Q.

(** ** Request handlers *)

(** [s.split(",")] *)
Fixpoint split_on (sep : ascii) (s : string) : list string :=
  match s with
  | EmptyString => [EmptyString]
  | String c s' =>
      if Ascii.eqb c sep then EmptyString :: split_on sep s'
      else match split_on sep s' with
           | [] => [String c EmptyString]
           | w :: ws => String c w :: ws
           end
  end.

(** The ASCII characters [str.strip()] removes. *)
Definition is_space (c : ascii) : bool :=
  let n := nat_of_ascii c in
  ((9 <=? n) && (n <=? 13) || (28 <=? n) && (n <=? 32))%nat.

Fixpoint lstrip (s : string) : string :=
  match s with
  | String c s' => if is_space c then lstrip s' else s
  | EmptyString => EmptyString
  end.

Fixpoint rstrip (s : string) : string :=
  match s with
  | String c s' =>
      match rstrip s' with
      | EmptyString => if is_space c then EmptyString else String c EmptyString
      | r => String c r
      end
  | EmptyString => EmptyString
  end.

Definition py_strip (s : string) : string := rstrip (lstrip s).

Definition digit_of (c : ascii) : option Z :=
  let n := nat_of_ascii c in
  if ((48 <=? n) && (n <=? 57))%nat then Some (Z.of_nat n - 48) else None.

(** Digits with single underscores between them; [after_digit] tells
    whether an underscore may come next. *)
Fixpoint int_digits (acc : Z) (after_digit : bool) (s : string) : option Z :=
  match s with
  | EmptyString => if after_digit then Some acc else None
  | String c s' =>
      match digit_of c with
      | Some d => int_digits (10 * acc + d) true s'
      | None =>
          if Ascii.eqb c "_"%char && after_digit
          then match s' with
               | EmptyString => None
               | String c' _ =>
                   match digit_of c' with
                   | Some _ => int_digits acc false s'
                   | None => None
                   end
               end
          else None
      end
  end.

(** [int(s)] on a stripped ASCII string; [None] is ValueError. *)
Definition py_int (s : string) : option Z :=
  match s with
  | String "-"%char s' => Z.opp <$> int_digits 0 false s'
  | String "+"%char s' => int_digits 0 false s'
  | _ => int_digits 0 false s
  end.

Definition nonempty (s : string) : bool :=
  match s with EmptyString => false | _ => true end.

(** [[int(x.strip()) for x in ids.split(",") if x.strip()]];
    [None] is ValueError. *)
Definition parse_ids (ids : string) : option (list Z) :=
  mapM py_int (List.filter nonempty (map py_strip (split_on ","%char ids))).

Inductive response (A : Type) :=
| Ok (a : A)
| HTTPException (status_code : Z) (detail : string).
Arguments Ok {A} a.
Arguments HTTPException {A} status_code detail.

(** The columns of [Printer] the camera routes read. *)
Record Printer := mkPrinter {
  ip_address : string;
  access_code : string;
  model : option string;
  external_camera_url : option string;
  external_camera_enabled : bool
}.

(** What the routes take from modules that are not part of these sources:
    the model predicate of [backend.app.services.camera] and Python's
    formatting of a float. *)
Record Env := mkEnv {
  is_chamber_image_model : option string -> bool;
  str_float : Q -> string
}.

(** The module-level state the routes share. *)
Record World := mkWorld {
  _hub : Hub;
  _stream_start_times : gmap Z Q
}.

Definition truthy (s : option string) : bool :=
  match s with Some s => nonempty s | None => false end.

(** [f"{fps_clamped}-{quality}-{scale}"] *)
Definition make_params_key (E : Env) (fps_clamped quality : Z) (scale : Q) : string :=
  pretty fps_clamped +:+ "-" +:+ pretty quality +:+ "-" +:+ str_float E scale.

(** [_ensure_producer]; [printer] is the row already fetched, if any, and
    [db] the table of printers.  All clock reads of one call see [now]. *)
Definition _ensure_producer (E : Env) (db : gmap Z Printer) (printer_id : Z)
    (fps quality : Z) (scale : Q) (printer : option Printer)
    (force_quality : bool) (now : Q) (w : World)
  : option loc * World * list effect :=
  let printer := match printer with
                 | Some p => Some p
                 | None => db !! printer_id
                 end in
  match printer with
  | None => (None, w, [])
  | Some p =>
      if external_camera_enabled p && truthy (external_camera_url p)
      then (None, w, [])
      else
        let fps_clamped :=
          if is_chamber_image_model E (model p)
          then clamp_fps 5 fps else clamp_fps 30 fps in
        let pk := make_params_key E fps_clamped quality scale in
        let times := <[printer_id := now]> (_stream_start_times w) in
        let '(l, h', es) :=
          if force_quality
          then restart printer_id pk now (_hub w)
          else get_or_start printer_id pk now (_hub w) in
        (Some l, {| _hub := h'; _stream_start_times := times |}, es)
  end.

(** The loop [for pid in printer_ids] of [camera_grid_stream]. *)
Fixpoint ensure_all (E : Env) (db : gmap Z Printer) (printer_ids : list Z)
    (fps quality : Z) (scale : Q) (force : bool) (now : Q)
    (entries : list (Z * loc)) (w : World)
  : list (Z * loc) * World * list effect :=
  match printer_ids with
  | [] => (entries, w, [])
  | pid :: pids =>
      let '(entry, w1, es1) :=
        _ensure_producer E db pid fps quality scale None force now w in
      let entries1 := match entry with
                      | Some l => dict_set pid l entries
                      | None => entries
                      end in
      let '(entries2, w2, es2) :=
        ensure_all E db pids fps quality scale force now entries1 w1 in
      (entries2, w2, es1 ++ es2)
  end.

(** What [camera_grid_stream] hands to [StreamingResponse]. *)
Record GridStream := mkGridStream {
  gs_grid : Grid;
  gs_frame_interval : Q
}.

(** [camera_grid_stream] up to the creation of the response; the outer
    [None] is an uncaught exception. *)
Definition camera_grid_stream (E : Env) (db : gmap Z Printer) (ids : string)
    (fps quality : Z) (scale : Q) (force : bool) (now : Q) (w : World)
  : option (response GridStream) * World * list effect :=
  match parse_ids ids with
  | None => (Some (HTTPException 400 "ids must be comma-separated integers"), w, [])
  | Some printer_ids =>
      match printer_ids with
      | [] => (Some (HTTPException 400 "No printer IDs provided"), w, [])
      | _ :: _ =>
          if (20 <? length printer_ids)%nat
          then (Some (HTTPException 400 "Maximum 20 printers per grid stream"), w, [])
          else
            let '(entries, w', es) :=
              ensure_all E db printer_ids fps quality scale force now [] w in
            match entries with
            | [] => (Some (HTTPException 404 "No valid printers found"), w', es)
            | _ :: _ =>
                let fps := grid_fps fps in
                (match grid_frame_interval fps with
                 | Some i => Some (Ok {| gs_grid := grid_init entries;
                                         gs_frame_interval := i |})
                 | None => None
                 end, w', es)
            end
      end
  end.

(** What [camera_stream] streams from. *)
Inductive CameraStream :=
| ExternalStream (fps : Z) (frame_interval : Q)
| HubStream (v : Viewer).

(** [camera_stream] up to the creation of the response; the outer [None]
    is an uncaught exception. *)
Definition camera_stream (E : Env) (db : gmap Z Printer) (printer_id : Z)
    (fps quality : Z) (scale : Q) (now : Q) (w : World)
  : option (response CameraStream) * World * list effect :=
  match db !! printer_id with
  | None => (Some (HTTPException 404 "Printer not found"), w, [])
  | Some printer =>
      if external_camera_enabled printer && truthy (external_camera_url printer)
      then
        let fps := clamp_fps 15 fps in
        (match truediv 1 fps with
         | Some i => Some (Ok (ExternalStream fps i))
         | None => None
         end,
         {| _hub := _hub w;
            _stream_start_times := <[printer_id := now]> (_stream_start_times w) |},
         [])
      else
        let fps :=
          if is_chamber_image_model E (model printer)
          then clamp_fps 5 fps else clamp_fps 30 fps in
        let '(entry, w', es) :=
          _ensure_producer E db printer_id fps quality scale (Some printer)
                           false now w in
        match entry with
        | None => (Some (HTTPException 503 "Failed to start camera stream"), w', es)
        | Some l =>
            (match make_viewer l fps with
             | Some v => Some (Ok (HubStream v))
             | None => None
             end, w', es)
        end
  end.

(** ** Observations on effects *)

Definition is_producer_label (a : label) : bool :=
  match a with Producer _ _ => true | _ => false end.

Definition is_stop (a : label) : bool :=
  match a with Stop _ => true | _ => false end.

(** [WriteFrame] on stream [l]: one published frame. *)
Definition is_publish (l : loc) (x : effect) : bool :=
  match x with WriteFrame l' _ => Nat.eqb l' l | _ => false end.

Definition published (l : loc) (es : list effect) : nat :=
  length (List.filter (is_publish l) es).

(** The publish order: every [WriteFrame] is directly followed by the
    [IncrSeq] of the same stream, and no [IncrSeq] occurs elsewhere.
    [pending] is the stream whose frame was written and whose counter is
    not incremented yet. *)
Fixpoint order_ok (pending : option loc) (es : list effect) : bool :=
  match es with
  | [] => match pending with Some _ => false | None => true end
  | x :: rest =>
      match pending, x with
      | Some l, IncrSeq l' => Nat.eqb l l' && order_ok None rest
      | Some _, _ => false
      | None, WriteFrame l _ => order_ok (Some l) rest
      | None, IncrSeq _ => false
      | None, _ => order_ok None rest
      end
  end.



(** ** Scenarios *)


(** A hub on which one producer was started for printer 1. *)
Definition hub_one : Hub := (get_or_start 1 "5-15-0.5" 0 hub_init).1.2.

(** The same hub once the producer has opened its source and published
    one frame. *)
Definition hub_published : Hub :=
  match run [Producer 0%nat StartOk;
             Producer 0%nat (Frame [xff; xd8; xff; xd9] 1)] hub_one with
  | Some (h, _) => h
  | None => hub_one
  end.


(** A chunk of the grid stream that carries a frame of printer [pid]. *)
Definition chunk_for (pid : Z) (chunk : bytes) : Prop :=
  exists f header,
    struct_pack_II pid (Z.of_nat (length f)) = Some header /\
    chunk = header ++ f.

(** One client connection of the grid stream: poll cycles at the given
    clock readings, the rest of the system running its own steps while
    the generator sleeps; the generator ends when its rotation is empty
    or the schedule (the connection) ends.  The output is what the
    connection carried. *)
Fixpoint grid_run (sched : list (Q * list label)) (g : Grid) (h : Hub)
  : option (Grid * Hub * list bytes) :=
  match sched with
  | [] => Some (g, h, [])
  | (now, tr) :: rest =>
      match grid_cycle now g h with
      | Some (g1, h1, out1) =>
          match entries g1 with
          | [] => Some (g1, h1, out1)
          | _ :: _ =>
              match run tr h1 with
              | Some (h2, _) =>
                  match grid_run rest g1 h2 with
                  | Some (g3, h3, out3) => Some (g3, h3, out1 ++ out3)
                  | None => None
                  end
              | None => None
              end
          end
      | None => None
      end
  end.

(** [hub_published] after a client forced new parameters: the stream of
    printer 1 was replaced, and the new producer has published a frame. *)
Definition hub_replaced : Hub :=
  match run [Restart 1 "30-5-1.0" 2; Producer 1%nat StartOk;
             Producer 1%nat (Frame [xff; xd8; x00; xff; xd9] 3)]
            hub_published with
  | Some (h, _) => h
  | None => hub_published
  end.

(** The grid state of a client that was sent the first frame of the old
    stream of printer 1. *)
Definition grid_seen : Grid :=
  {| entries := [(1, 0%nat)]; seen_seqs := {[ 1 := 1 ]} |}.

(** An environment in which the A1 and P1 models use the chamber-image
    protocol, and a table with one printer. *)
Definition env_example : Env :=
  {| is_chamber_image_model := fun m =>
       match m with
       | Some s => String.eqb s "A1" || String.eqb s "P1S"
       | None => false
       end;
     str_float := fun _ => "0.5"%string |}.

Definition db_example : gmap Z Printer :=
  {[ 1 := {| ip_address := "192.168.1.10"; access_code := "12345678";
             model := Some "X1C"%string; external_camera_url := None;
             external_camera_enabled := false |} ]}.

Definition world_one : World :=
  {| _hub := hub_one; _stream_start_times := {[ 1 := 0%Q ]} |}.

(** [hub_published] after [stop] for printer 1: the stream is dead, the
    cancellation of its producer is pending. *)
Definition hub_stopped : Hub := (stop 1 hub_published).1.2.

(** What follows the [stop]: the old producer still receives a frame, a
    client opens the camera again, and the new producer publishes. *)
Definition after_stop : list label :=
  [Producer 0%nat (Frame [xff; xd8; x01; xff; xd9] 4);
   GetOrStart 1 "5-15-0.5" 5;
   Producer 1%nat StartOk;
   Producer 1%nat (Frame [xff; xd8; x02; xff; xd9] 6)].

Definition hub_reopened : Hub :=
  match run after_stop hub_stopped with
  | Some (h, _) => h
  | None => hub_stopped
  end.

(** ** A viewer connection *)

(** What a viewer sent with one yield: the sequence number it had read,
    the clock reading of the yield, and the chunk. *)
Record Yielded := mkYielded {
  y_seq : Z;
  y_time : Q;
  y_chunk : bytes
}.

(** One client connection served by [_viewer]: one iteration of
    [while entry.alive] per entry of the schedule, with the two clock
    readings of the iteration; the rest of the system runs its own steps
    between two iterations.  The flag tells whether the loop has ended. *)
Fixpoint viewer_run (sched : list (Q * Q * list label)) (v : Viewer) (h : Hub)
  : option (list Yielded * Viewer * Hub * bool) :=
  match sched with
  | [] => Some ([], v, h, false)
  | (now, now', tr) :: rest =>
      let '(out, v1, h1) := viewer_poll now now' v h in
      match out with
      | ViewerStop => Some ([], v1, h1, true)
      | _ =>
          match run tr h1 with
          | Some (h2, _) =>
              match viewer_run rest v1 h2 with
              | Some (ys, v3, h3, ended) =>
                  Some (match out with
                        | ViewerYield c => [mkYielded (seen_seq v1) now' c]
                        | _ => []
                        end ++ ys, v3, h3, ended)
              | None => None
              end
          | None => None
          end
      end
  end.



(** A viewer of stream 0 at 5 frames per second. *)
Definition viewer_five : Viewer :=
  {| v_entry := 0%nat; v_frame_interval := 1 # 5; seen_seq := 0;
     last_yield := 0 |}.


(** ** What the MJPEG parser cuts out and what it keeps *)

(** A complete JPEG as the parser sees it: [f] starts with the start
    marker, and [f.find(jpeg_end, 2)] is the index of its last two
    bytes. *)
Definition complete_jpeg (f : bytes) : bool :=
  starts_with jpeg_start f &&
  (py_find f jpeg_end 2 =? Z.of_nat (length f) - 2).

(** What the inner loop can leave in the buffer: at most one byte, or the
    beginning of a frame (the start marker at index 0 and no end marker
    from index 2 on). *)
Definition leftover (b : bytes) : bool :=
  (length b <=? 1)%nat ||
  (starts_with jpeg_start b && (py_find b jpeg_end 2 =? -1)).

(** ** Which printers the hub serves *)





(** ** The [ids] parameter of the grid route *)



Fixpoint all_chars (P : ascii -> bool) (s : string) : bool :=
  match s with
  | EmptyString => true
  | String c s' => P c && all_chars P s'
  end.

(** ** What the grid still has to send *)

(** Nothing to send for the rotation entry [(pid, l)]: if its stream is
    alive, it holds no frame or none newer than the last one sent. *)
Definition caught_up (g : Grid) (h : Hub) (pid : Z) (l : loc) : Prop :=
  forall e, objs h !! l = Some e -> alive e = true ->
            frame e = None \/ frame_seq e <= default 0 (seen_seqs g !! pid).

(** ** Module-level tables of camera.py *)

(** The tables the stream generators, the cleanup task and the stop
    route maintain, next to [world] with [_hub] and
    [_stream_start_times].  [_active_streams] maps a stream id to its
    ffmpeg process, [_active_chamber_streams] to its connection; both are
    dicts in insertion order. *)
Record Tables := mkTables {
  world : World;
  _last_frames : gmap Z bytes;
  _last_frame_times : gmap Z Q;
  _active_streams : list (string * nat);
  _active_chamber_streams : list (string * nat)
}.

Definition set_world (w : World) (s : Tables) : Tables :=
  {| world := w; _last_frames := _last_frames s;
     _last_frame_times := _last_frame_times s;
     _active_streams := _active_streams s;
     _active_chamber_streams := _active_chamber_streams s |}.

Definition set_last_frames (m : gmap Z bytes) (s : Tables) : Tables :=
  {| world := world s; _last_frames := m;
     _last_frame_times := _last_frame_times s;
     _active_streams := _active_streams s;
     _active_chamber_streams := _active_chamber_streams s |}.

Definition set_last_frame_times (m : gmap Z Q) (s : Tables) : Tables :=
  {| world := world s; _last_frames := _last_frames s;
     _last_frame_times := m;
     _active_streams := _active_streams s;
     _active_chamber_streams := _active_chamber_streams s |}.

Definition set_active_streams (d : list (string * nat)) (s : Tables) : Tables :=
  {| world := world s; _last_frames := _last_frames s;
     _last_frame_times := _last_frame_times s;
     _active_streams := d;
     _active_chamber_streams := _active_chamber_streams s |}.

Definition set_active_chamber_streams (d : list (string * nat)) (s : Tables)
  : Tables :=
  {| world := world s; _last_frames := _last_frames s;
     _last_frame_times := _last_frame_times s;
     _active_streams := _active_streams s;
     _active_chamber_streams := d |}.

Definition set_stream_start_times (m : gmap Z Q) (w : World) : World :=
  {| _hub := _hub w; _stream_start_times := m |}.

Definition tables_init : Tables :=
  {| world := {| _hub := hub_init; _stream_start_times := ∅ |};
     _last_frames := ∅; _last_frame_times := ∅;
     _active_streams := []; _active_chamber_streams := [] |}.

(** ** Frame buffers: cleanup and lookup *)




(** The three [pop(pid, None)] for one printer. *)
Definition pop_buffers (pid : Z) (s : Tables) : Tables :=
  let s1 := set_last_frames (delete pid (_last_frames s)) s in
  let s2 := set_last_frame_times (delete pid (_last_frame_times s1)) s1 in
  set_world
    (set_stream_start_times
       (delete pid (_stream_start_times (world s2))) (world s2)) s2.


(** [get_buffered_frame(printer_id)] *)
Definition get_buffered_frame (printer_id : Z) (s : Tables) : option bytes :=
  _last_frames s !! printer_id.

(** ** The periodic cleanup task *)

(** The global [_cleanup_task] and the tasks created for
    [_periodic_cleanup_loop], each with whether its cancellation was
    requested. *)
Record CleanupTasks := mkCleanupTasks {
  _cleanup_task : option nat;
  cleanup_loops : list bool
}.

Definition cleanup_init : CleanupTasks :=
  {| _cleanup_task := None; cleanup_loops := [] |}.

Definition start_frame_buffer_cleanup (c : CleanupTasks) : CleanupTasks :=
  match _cleanup_task c with
  | None => {| _cleanup_task := Some (length (cleanup_loops c));
               cleanup_loops := cleanup_loops c ++ [false] |}
  | Some _ => c
  end.

Definition stop_frame_buffer_cleanup (c : CleanupTasks) : CleanupTasks :=
  match _cleanup_task c with
  | Some t => {| _cleanup_task := None;
                 cleanup_loops := <[t := true]> (cleanup_loops c) |}
  | None => c
  end.

Inductive cleanup_call := StartCleanup | StopCleanup.

Definition cleanup_step (c : CleanupTasks) (a : cleanup_call) : CleanupTasks :=
  match a with
  | StartCleanup => start_frame_buffer_cleanup c
  | StopCleanup => stop_frame_buffer_cleanup c
  end.


(** ** Tables of active streams *)

(** A dict keyed by stream id, in insertion order: [d[k] = v],
    [k in d] and [del d[k]] / [d.pop(k, None)]. *)
Fixpoint sdict_set {V} (k : string) (v : V) (d : list (string * V))
  : list (string * V) :=
  match d with
  | [] => [(k, v)]
  | (k', v') :: d' =>
      if String.eqb k' k then (k, v) :: d' else (k', v') :: sdict_set k v d'
  end.

Definition sdict_get {V} (k : string) (d : list (string * V)) : option V :=
  snd <$> List.find (fun kv => String.eqb (fst kv) k) d.

Definition sdict_mem {V} (k : string) (d : list (string * V)) : bool :=
  existsb (fun kv => String.eqb (fst kv) k) d.

Definition sdict_del {V} (k : string) (d : list (string * V))
  : list (string * V) :=
  List.filter (fun kv => negb (String.eqb (fst kv) k)) d.

(** Calls made on a process or on the writer of a connection. *)
Inductive os_effect :=
| Terminate (process : nat)
| Kill (process : nat)
| CloseWriter (connection : nat).

(** ** Chamber image source: [generate_chamber_mjpeg_stream] *)

(** The part yielded when no connection could be opened, and when ffmpeg
    exits at once. *)
Definition connection_failed_part : bytes :=
  encode "--frame" ++ crlf ++
  encode "Content-Type: text/plain" ++ crlf ++ crlf ++
  encode "Error: Camera connection failed. Check printer is on and camera is enabled."
  ++ crlf.

(** What one pass of the loop gets.  With a frame come the two clock
    readings taken after it: the one stored in [_last_frame_times] and
    [current_time]. *)
Inductive chamber_read :=
| ChFrame (frame : bytes) (t_buffer current_time : Q)
| ChTimeout        (* [read_next_chamber_frame] returned [None] *)
| ChClosed         (* it raised [ChamberConnectionClosed] *)
| ChRaise.         (* cancellation, [GeneratorExit] or another exception,
                      at the read or at the [yield] before it *)

(** [if printer_id is not None: _last_frames[printer_id] = frame;
     _last_frame_times[printer_id] = time.monotonic()] *)
Definition store_frame (printer_id : option Z) (frame : bytes) (t : Q)
    (s : Tables) : Tables :=
  match printer_id with
  | Some pid =>
      set_last_frame_times (<[pid := t]> (_last_frame_times s))
        (set_last_frames (<[pid := frame]> (_last_frames s)) s)
  | None => s
  end.

(** The [while True] loop: the chunks yielded, the tables, and whether the
    loop was left ([false]: the generator waits for the next read). *)
Fixpoint chamber_loop (raw : bool) (printer_id : option Z) (frame_interval : Q)
    (reads : list chamber_read) (last_frame_time : Q)
    (consecutive_timeouts : Z) (s : Tables) : list bytes * Tables * bool :=
  match reads with
  | [] => ([], s, false)
  | ChClosed :: _ => ([], s, true)
  | ChRaise :: _ => ([], s, true)
  | ChTimeout :: reads' =>
      let consecutive_timeouts := consecutive_timeouts + 1 in
      if 3 <=? consecutive_timeouts then ([], s, true)
      else chamber_loop raw printer_id frame_interval reads' last_frame_time
             consecutive_timeouts s
  | ChFrame frame t_buffer current_time :: reads' =>
      let s := store_frame printer_id frame t_buffer s in
      if negb (Qle_bool frame_interval (current_time - last_frame_time))
      then chamber_loop raw printer_id frame_interval reads' last_frame_time 0 s
      else
        let '(out, s', ended) :=
          chamber_loop raw printer_id frame_interval reads' current_time 0 s in
        (emit raw frame :: out, s', ended)
  end.

(** The table updates of the [finally] block of a generator, for the
    table [get]/[set] of active streams it registered in. *)
Definition finally_tables (active : Tables -> list (string * nat))
    (set_active : list (string * nat) -> Tables -> Tables)
    (stream_id : option string) (printer_id : option Z) (s : Tables) : Tables :=
  let s := match stream_id with
           | Some sid =>
               if nonempty sid && sdict_mem sid (active s)
               then set_active (sdict_del sid (active s)) s
               else s
           | None => s
           end in
  match printer_id with
  | Some pid => pop_buffers pid s
  | None => s
  end.

(** [if stream_id: table[stream_id] = handle] *)
Definition register (active : Tables -> list (string * nat))
    (set_active : list (string * nat) -> Tables -> Tables)
    (stream_id : option string) (handle : nat) (s : Tables) : Tables :=
  match stream_id with
  | Some sid =>
      if nonempty sid then set_active (sdict_set sid handle (active s)) s else s
  | None => s
  end.

(** [generate_chamber_mjpeg_stream]; [connection] is what
    [generate_chamber_image_stream] returned.  The result: the chunks
    yielded, the tables, whether the generator has finished, and the calls
    made on the connection. *)
Definition generate_chamber_mjpeg_stream (connection : option nat) (fps : Z)
    (stream_id : option string) (printer_id : option Z) (raw : bool)
    (reads : list chamber_read) (s : Tables)
  : list bytes * Tables * bool * list os_effect :=
  match connection with
  | None => ([connection_failed_part], s, true, [])
  | Some conn =>
      let s := register _active_chamber_streams set_active_chamber_streams
                 stream_id conn s in
      match chamber_frame_interval fps with
      | None =>
          ([], finally_tables _active_chamber_streams
                 set_active_chamber_streams stream_id printer_id s,
           true, [CloseWriter conn])
      | Some frame_interval =>
          let '(out, s', ended) :=
            chamber_loop raw printer_id frame_interval reads 0 0 s in
          if ended
          then (out, finally_tables _active_chamber_streams
                       set_active_chamber_streams stream_id printer_id s',
                true, [CloseWriter conn])
          else (out, s', false, [])
      end
  end.

(** The frames among the reads, in order. *)
Fixpoint frames_read (reads : list chamber_read) : list bytes :=
  match reads with
  | [] => []
  | ChFrame f _ _ :: reads' => f :: frames_read reads'
  | _ :: reads' => frames_read reads'
  end.

(** Reads in which no connection error or exception occurs and at most two
    timeouts come in a row. *)
Inductive steady : list chamber_read -> Prop :=
| steady_nil : steady []
| steady_frame f t1 t2 rs : steady rs -> steady (ChFrame f t1 t2 :: rs)
| steady_one f t1 t2 rs :
    steady rs -> steady (ChTimeout :: ChFrame f t1 t2 :: rs)
| steady_two f t1 t2 rs :
    steady rs -> steady (ChTimeout :: ChTimeout :: ChFrame f t1 t2 :: rs).

Definition is_timeout (r : chamber_read) : bool :=
  match r with ChTimeout => true | _ => false end.

Definition is_frame (r : chamber_read) : bool :=
  match r with ChFrame _ _ _ => true | _ => false end.

(** A chamber stream of printer 1 with two short stalls. *)
Definition chamber_reads : list chamber_read :=
  [ChFrame [xff; xd8; xff; xd9] 100 100; ChTimeout; ChTimeout;
   ChFrame [xff; xd8; x00; xff; xd9] 161 161; ChTimeout].

Definition tables_chamber : Tables :=
  {| world := {| _hub := hub_init;
                 _stream_start_times := {[ 1 := 99%Q; 2 := 50%Q ]} |};
     _last_frames := {[ 2 := [xff; xd8; x01; xff; xd9] ]};
     _last_frame_times := {[ 2 := 60%Q ]};
     _active_streams := [("2-0a1b2c3d"%string, 7%nat)];
     _active_chamber_streams := [] |}.

(** ** RTSP source: [generate_rtsp_mjpeg_stream] *)

Definition ffmpeg_missing_part : bytes :=
  encode "--frame" ++ crlf ++
  encode "Content-Type: text/plain" ++ crlf ++ crlf ++
  encode "Error: ffmpeg not installed" ++ crlf.

(** How starting ffmpeg went, up to the check after the first half
    second. *)
Inductive rtsp_start :=
| SpawnNotFound                 (* [create_subprocess_exec] raised
                                   [FileNotFoundError] *)
| SpawnRaise                    (* it raised something else *)
| SleepRaise (process : nat)    (* cancelled or closed during the sleep *)
| ExitedEarly (process : nat)   (* [process.returncode is not None] *)
| Started (process : nat).

(** What one pass of the outer loop gets from [process.stdout.read].  An
    empty chunk is the end of the stream.  [closed_at = Some k]: the
    generator is closed or cancelled while it is suspended at the [yield]
    of the [k]-th frame cut out after this read. *)
Inductive rtsp_read :=
| RChunk (chunk : bytes) (closed_at : option nat)
| RTimeout
| RRaise.

(** The frames of one read that are reached, and whether the generator
    was closed at the last of them. *)
Definition cut_frames (closed_at : option nat) (fs : list bytes)
  : list bytes * bool :=
  match closed_at with
  | Some k => if (k <? length fs)%nat then (take (S k) fs, true) else (fs, false)
  | None => (fs, false)
  end.

(** The buffer writes for the frames cut out after one read; [clock n] is
    the clock reading taken for the [n]-th frame of the stream. *)
Fixpoint store_frames (printer_id : option Z) (clock : nat -> Q) (n : nat)
    (fs : list bytes) (s : Tables) : Tables :=
  match fs with
  | [] => s
  | f :: fs' =>
      store_frames printer_id clock (S n) fs'
        (store_frame printer_id f (clock n) s)
  end.

(** The outer [while True] loop: the chunks yielded, the tables, and
    whether the loop was left.  [buffer] is the local byte buffer and [n]
    the number of frames cut out so far. *)
Fixpoint rtsp_loop (raw : bool) (printer_id : option Z) (clock : nat -> Q)
    (reads : list rtsp_read) (buffer : bytes) (n : nat) (s : Tables)
  : list bytes * Tables * bool :=
  match reads with
  | [] => ([], s, false)
  | RTimeout :: _ => ([], s, true)
  | RRaise :: _ => ([], s, true)
  | RChunk chunk closed_at :: reads' =>
      match chunk with
      | [] => ([], s, true)
      | _ :: _ =>
          let '(fs, buffer') := extract (buffer ++ chunk) in
          let '(fs, closed) := cut_frames closed_at fs in
          let s := store_frames printer_id clock n fs s in
          if closed then (map (emit raw) fs, s, true)
          else
            let '(out, s', ended) :=
              rtsp_loop raw printer_id clock reads' buffer'
                (n + length fs) s in
            (map (emit raw) fs ++ out, s', ended)
      end
  end.

(** What [process.terminate()] and the wait that follows come to. *)
Inductive terminate_outcome :=
| Exits              (* the process ends within two seconds *)
| WaitTimeout        (* it does not: [process.kill()] *)
| TerminateRaises.   (* [ProcessLookupError] or another [OSError] *)

(** The last part of the [finally] block; [running] is
    [process.returncode is None]. *)
Definition finally_process (process : option nat) (running : bool)
    (t : terminate_outcome) : list os_effect :=
  match process with
  | Some p =>
      if running
      then Terminate p :: match t with WaitTimeout => [Kill p] | _ => [] end
      else []
  | None => []
  end.

(** [generate_rtsp_mjpeg_stream]; [ffmpeg] is what [get_ffmpeg_path]
    returned and [start] what starting the command came to.  The result:
    the chunks yielded, the tables, whether the generator has finished,
    and the calls made on the process. *)
Definition generate_rtsp_mjpeg_stream (ffmpeg : option string)
    (start : rtsp_start) (stream_id : option string) (printer_id : option Z)
    (raw : bool) (clock : nat -> Q) (reads : list rtsp_read)
    (running : bool) (t : terminate_outcome) (s : Tables)
  : list bytes * Tables * bool * list os_effect :=
  let finally_ := finally_tables _active_streams set_active_streams
                    stream_id printer_id in
  let register_ := register _active_streams set_active_streams stream_id in
  if negb (truthy ffmpeg) then ([ffmpeg_missing_part], s, true, [])
  else
    match start with
    | SpawnNotFound => ([ffmpeg_missing_part], finally_ s, true, [])
    | SpawnRaise => ([], finally_ s, true, [])
    | SleepRaise p =>
        ([], finally_ (register_ p s), true, finally_process (Some p) running t)
    | ExitedEarly p =>
        ([connection_failed_part], finally_ (register_ p s), true, [])
    | Started p =>
        let '(out, s', ended) :=
          rtsp_loop raw printer_id clock reads [] 0 (register_ p s) in
        if ended
        then (out, finally_ s', true, finally_process (Some p) running t)
        else (out, s', false, [])
    end.

(** Two frames in three reads, for printer 1. *)
Definition rtsp_reads : list rtsp_read :=
  [RChunk [x00; xff; xd8; x01] None;
   RChunk [xff; xd9; xff; xd8; x02; xff] None;
   RChunk [xd9; xff] None].

(** ** The stop route: [stop_camera_stream] *)

(** [s.startswith(p)] *)
Fixpoint startswith (s p : string) {struct p} : bool :=
  match p, s with
  | EmptyString, _ => true
  | String a p', String b s' => Ascii.eqb a b && startswith s' p'
  | String _ _, EmptyString => false
  end.

(** [f"{printer_id}-"] *)
Definition stream_prefix (printer_id : Z) : string :=
  pretty printer_id +:+ "-".

(** [f"{printer_id}-{uuid.uuid4().hex[:8]}"] of [_ensure_producer];
    [hex] stands for the hexadecimal digits. *)
Definition make_stream_id (printer_id : Z) (hex : string) : string :=
  pretty printer_id +:+ "-" +:+ hex.

(** The processes and writers as the route finds them: the return code of
    a process, and whether [terminate()] or [close()] raises [OSError]. *)
Record OS := mkOS {
  returncode : nat -> option Z;
  terminate_raises : nat -> bool;
  close_raises : nat -> bool
}.

Definition set_hub (h : Hub) (w : World) : World :=
  {| _hub := h; _stream_start_times := _stream_start_times w |}.

(** The loop over [_active_streams]: [to_remove], the number of processes
    terminated, and the calls [process.terminate()] made. *)
Fixpoint stop_processes (os : OS) (prefix : string)
    (items : list (string * nat)) : list string * Z * list os_effect :=
  match items with
  | [] => ([], 0, [])
  | (stream_id, process) :: items' =>
      let '(to_remove, stopped, es) := stop_processes os prefix items' in
      if startswith stream_id prefix then
        match returncode os process with
        | None =>
            (stream_id :: to_remove,
             (if terminate_raises os process then 0 else 1) + stopped,
             Terminate process :: es)
        | Some _ => (stream_id :: to_remove, stopped, es)
        end
      else (to_remove, stopped, es)
  end.

(** The loop over [_active_chamber_streams]. *)
Fixpoint stop_connections (os : OS) (prefix : string)
    (items : list (string * nat)) : list string * Z * list os_effect :=
  match items with
  | [] => ([], 0, [])
  | (stream_id, conn) :: items' =>
      let '(to_remove, stopped, es) := stop_connections os prefix items' in
      if startswith stream_id prefix then
        (stream_id :: to_remove,
         (if close_raises os conn then 0 else 1) + stopped,
         CloseWriter conn :: es)
      else (to_remove, stopped, es)
  end.

(** [for stream_id in to_remove: d.pop(stream_id, None)] *)
Definition pop_all {V} (to_remove : list string) (d : list (string * V))
  : list (string * V) :=
  foldl (fun d k => sdict_del k d) d to_remove.

(** [stop_camera_stream(printer_id)]: the number in the answer
    [{"stopped": n}], the tables afterwards, the calls made on processes
    and writers, and what the hub did. *)
Definition stop_camera_stream (os : OS) (printer_id : Z) (s : Tables)
  : Z * Tables * list os_effect * list effect :=
  let prefix := stream_prefix printer_id in
  let '(to_remove, n1, es1) := stop_processes os prefix (_active_streams s) in
  let s := set_active_streams (pop_all to_remove (_active_streams s)) s in
  let '(to_remove_chamber, n2, es2) :=
    stop_connections os prefix (_active_chamber_streams s) in
  let s := set_active_chamber_streams
             (pop_all to_remove_chamber (_active_chamber_streams s)) s in
  let '(b, h, hes) := stop printer_id (_hub (world s)) in
  let s := set_world (set_hub h (world s)) s in
  (n1 + n2 + (if b then 1 else 0), s, es1 ++ es2, hes).

(** The entries of a table that belong to a printer, by their stream id. *)
Definition of_printer (printer_id : Z) (d : list (string * nat))
  : list (string * nat) :=
  List.filter (fun kv => startswith (fst kv) (stream_prefix printer_id)) d.

Definition not_of_printer (printer_id : Z) (d : list (string * nat))
  : list (string * nat) :=
  List.filter
    (fun kv => negb (startswith (fst kv) (stream_prefix printer_id))) d.

(** The number of calls that did not raise. *)
Definition succeeded (os : OS) (es : list os_effect) : Z :=
  Z.of_nat (length (List.filter
    (fun e => match e with
              | Terminate p => negb (terminate_raises os p)
              | Kill _ => true
              | CloseWriter c => negb (close_raises os c)
              end) es)).

Definition is_digit (c : ascii) : bool :=
  match digit_of c with Some _ => true | None => false end.

(** Every stream id of the table was made for some printer. *)
Definition made_ids (d : list (string * nat)) : Prop :=
  forall sid proc, In (sid, proc) d ->
    exists q hex, sid = make_stream_id q hex.

(** Printer 1 streams over RTSP through the hub, printers 2 and 12 have
    a process and a connection of their own. *)
Definition tables_streaming : Tables :=
  {| world := {| _hub := hub_published;
                 _stream_start_times := {[ 1 := 0%Q; 12 := 3%Q ]} |};
     _last_frames := {[ 1 := [xff; xd8; xff; xd9] ]};
     _last_frame_times := {[ 1 := 1%Q ]};
     _active_streams :=
       [(make_stream_id 1 "00c0ffee", 4%nat);
        (make_stream_id 12 "0a1b2c3d", 5%nat)];
     _active_chamber_streams := [(make_stream_id 2 "deadbeef", 6%nat)] |}.

Definition os_running : OS :=
  {| returncode := fun _ => None;
     terminate_raises := fun _ => false;
     close_raises := fun _ => false |}.

(** * Properties *)

(** ** Stores: lookups after updates *)

Arguments update_obj : simpl never.
Arguments update_task : simpl never.
Arguments set_streams : simpl never.
Arguments start_producer : simpl never.
Arguments cancel_task : simpl never.
Arguments mark_dead : simpl never.
Arguments deregister : simpl never.
Arguments enter_finally : simpl never.

Lemma objs_update_obj l f h l' :
  objs (update_obj l f h) !! l' =
  if decide (l = l') then f <$> objs h !! l' else objs h !! l'.
Proof.
  unfold update_obj; simpl. case_decide; subst.
  - apply list_lookup_alter_eq.
  - by apply list_lookup_alter_ne.
Qed.

Lemma tasks_update_task t g h t' :
  tasks (update_task t g h) !! t' =
  if decide (t = t') then g <$> tasks h !! t' else tasks h !! t'.
Proof.
  unfold update_task; simpl. case_decide; subst.
  - apply list_lookup_alter_eq.
  - by apply list_lookup_alter_ne.
Qed.

Lemma objs_update_obj_eq l f h e :
  objs h !! l = Some e -> objs (update_obj l f h) !! l = Some (f e).
Proof. intros H. rewrite objs_update_obj, decide_True, H by done. done. Qed.

Lemma tasks_update_task_eq t g h k :
  tasks h !! t = Some k -> tasks (update_task t g h) !! t = Some (g k).
Proof. intros H. rewrite tasks_update_task, decide_True, H by done. done. Qed.

Lemma get_entry_Some h pid l e :
  get_entry h pid = Some (l, e) <->
  _streams h !! pid = Some l /\ objs h !! l = Some e.
Proof.
  unfold get_entry. split.
  - destruct (_streams h !! pid) as [l'|]; [|done].
    destruct (objs h !! l') as [e'|] eqn:E; [|done].
    intros [= <- <-]. done.
  - intros [-> ->]. done.
Qed.

(** ** How a stream object can change over time *)

(** [frame_seq] does not decrease, a dead stream stays dead, and
    [params_key] and [task] are fixed. *)
Definition evolves (e e' : SharedStream) : Prop :=
  frame_seq e <= frame_seq e' /\
  (alive e' = true -> alive e = true) /\
  params_key e' = params_key e /\
  task e' = task e.

Definition extends (h h' : Hub) : Prop :=
  forall l e, objs h !! l = Some e ->
              exists e', objs h' !! l = Some e' /\ evolves e e'.

Lemma evolves_refl e : evolves e e.
Proof. unfold evolves. repeat split; auto; lia. Qed.

Lemma evolves_trans e1 e2 e3 : evolves e1 e2 -> evolves e2 e3 -> evolves e1 e3.
Proof.
  unfold evolves. intros (?&?&?&?) (?&?&?&?).
  repeat split; [lia | auto | congruence | congruence].
Qed.

Lemma extends_refl h : extends h h.
Proof. intros l e H. exists e. split; [done | apply evolves_refl]. Qed.

Lemma extends_trans h1 h2 h3 : extends h1 h2 -> extends h2 h3 -> extends h1 h3.
Proof.
  intros H12 H23 l e H.
  destruct (H12 l e H) as (e2 & H2 & E2).
  destruct (H23 l e2 H2) as (e3 & H3 & E3).
  exists e3. split; [done | eapply evolves_trans; eauto].
Qed.

Lemma extends_update_obj h0 h l f :
  (forall e, evolves e (f e)) -> extends h0 h -> extends h0 (update_obj l f h).
Proof.
  intros Hf H0. eapply extends_trans; [exact H0|].
  intros l' e He. destruct (decide (l = l')) as [->|Hne].
  - exists (f e). split; [by apply objs_update_obj_eq | apply Hf].
  - exists e. split; [|apply evolves_refl].
    rewrite objs_update_obj. by rewrite decide_False.
Qed.

Lemma extends_update_task h0 h t g :
  extends h0 h -> extends h0 (update_task t g h).
Proof. intros H0 l e He. exact (H0 l e He). Qed.

Lemma extends_set_streams h0 h m :
  extends h0 h -> extends h0 (set_streams m h).
Proof. intros H0 l e He. exact (H0 l e He). Qed.

Lemma extends_start_producer h0 h pid pk now l h' es :
  start_producer pid pk now h = (l, h', es) ->
  extends h0 h -> extends h0 h'.
Proof.
  intros [= <- <- <-] H0 l0 e He. destruct (H0 l0 e He) as (e' & He' & Hev).
  exists e'. split; [|done]. simpl. by apply lookup_app_l_Some.
Qed.

Lemma evolves_set_last_accessed q e : evolves e (set_last_accessed q e).
Proof. unfold evolves; simpl. repeat split; auto; lia. Qed.

Lemma evolves_set_alive_false e : evolves e (set_alive false e).
Proof. unfold evolves; simpl. repeat split; auto; [lia | discriminate]. Qed.

Lemma evolves_set_frame f e : evolves e (set_frame f e).
Proof. unfold evolves; simpl. repeat split; auto; lia. Qed.

Lemma evolves_set_error m e : evolves e (set_error m e).
Proof. unfold evolves; simpl. repeat split; auto; lia. Qed.

Lemma evolves_incr_seq e : evolves e (set_frame_seq (frame_seq e + 1) e).
Proof. unfold evolves; simpl. repeat split; auto; lia. Qed.

Lemma evolves_mark_dead e : evolves e (set_frame None (set_alive false e)).
Proof. unfold evolves; simpl. repeat split; auto; [lia | discriminate]. Qed.

Create HintDb hub discriminated.

#[export] Hint Resolve extends_refl extends_update_obj extends_update_task
  extends_set_streams evolves_set_last_accessed evolves_set_alive_false
  evolves_set_frame evolves_set_error evolves_incr_seq evolves_mark_dead : hub.

Lemma extends_mark_dead h0 h l : extends h0 h -> extends h0 (mark_dead l h).
Proof. unfold mark_dead. auto with hub. Qed.

Lemma extends_cancel_task h0 h t : extends h0 h -> extends h0 (cancel_task t h).
Proof. unfold cancel_task. auto with hub. Qed.

Lemma extends_deregister h0 h pid l :
  extends h0 h -> extends h0 (deregister pid l h).1.
Proof.
  unfold deregister. intros H.
  destruct (_streams h !! pid); [case_decide|]; simpl; auto with hub.
Qed.

Lemma extends_enter_finally h0 h t l :
  extends h0 h -> extends h0 (enter_finally t l h).1.
Proof. unfold enter_finally. simpl. auto using extends_mark_dead with hub. Qed.

#[export] Hint Resolve extends_mark_dead extends_cancel_task
  extends_deregister extends_enter_finally : hub.

Lemma get_or_start_extends pid pk now h :
  extends h (get_or_start pid pk now h).1.2.
Proof.
  unfold get_or_start.
  destruct (get_entry h pid) as [[l e]|]; [destruct (alive e)|];
    simpl; auto with hub.
  all: destruct (start_producer pid pk now h) as [[l' h'] es'] eqn:E;
    eapply extends_start_producer; eauto with hub.
Qed.

Lemma restart_extends pid pk now h : extends h (restart pid pk now h).1.2.
Proof.
  unfold restart.
  destruct (get_entry h pid) as [[l e]|]; [destruct (alive e)|].
  - destruct (String.eqb _ _); [simpl; auto with hub|].
    destruct (task e) as [t|].
    + destruct (start_producer _ _ _ (cancel_task _ _)) as [[l' h'] es'] eqn:E.
      simpl. eapply extends_start_producer; eauto with hub.
    + destruct (start_producer _ _ _ (update_obj _ _ _)) as [[l' h'] es'] eqn:E.
      simpl. eapply extends_start_producer; eauto with hub.
  - destruct (start_producer pid pk now h) as [[l' h'] es'] eqn:E;
      eapply extends_start_producer; eauto with hub.
  - destruct (start_producer pid pk now h) as [[l' h'] es'] eqn:E;
      eapply extends_start_producer; eauto with hub.
Qed.

Lemma stop_extends pid h : extends h (stop pid h).1.2.
Proof.
  unfold stop.
  destruct (get_entry h pid) as [[l e]|]; [|simpl; auto with hub].
  destruct (task e); [destruct (task_done _ _)|]; simpl; auto 6 with hub.
Qed.

Lemma touch_extends l now h : extends h (touch l now h).
Proof.
  unfold touch. destruct (objs h !! l) as [e|]; [destruct (alive e)|];
    auto with hub.
Qed.

Lemma producer_step_extends t ev h h' es :
  producer_step t ev h = Some (h', es) -> extends h h'.
Proof.
  unfold producer_step. destruct (tasks h !! t) as [k|]; [|done].
  set (h0 := update_task t (set_cancel false) h).
  assert (extends h h0) as H0 by (subst h0; auto with hub).
  destruct (t_pc k), ev; try done.
  - intros [= <- <-]. auto with hub.
  - pose proof (extends_deregister h
      (mark_dead (t_entry k) (update_obj (t_entry k) (set_error (Some m)) h0))
      (t_printer k) (t_entry k)) as Hd.
    destruct (deregister _ _ _) as [h3 es3]. intros [= <- <-].
    apply extends_update_task, Hd. auto with hub.
  - destruct (t_cancel k); [|done]. intros [= <- <-]. auto with hub.
  - destruct (objs h0 !! t_entry k) as [e|]; [|done].
    destruct (alive e); simpl.
    + destruct (idle now e); intros [= <- <-]; auto 8 with hub.
    + intros [= <- <-]. auto with hub.
  - intros [= <- <-]. auto with hub.
  - intros [= <- <-]. auto 6 with hub.
  - destruct (t_cancel k); [|done]. intros [= <- <-]. auto with hub.
  - destruct (t_cancel k); [|done]. intros [= <- <-]. auto with hub.
  - pose proof (extends_deregister h h0 (t_printer k) (t_entry k) H0) as Hd.
    destruct (deregister _ _ _) as [h3 es3]. intros [= <- <-].
    auto with hub.
Qed.

Lemma exec_extends a h h' es : exec a h = Some (h', es) -> extends h h'.
Proof.
  destruct a as [pid pk now|pid pk now|pid|l now|t ev]; simpl.
  - pose proof (get_or_start_extends pid pk now h).
    destruct (get_or_start _ _ _ _) as [[? ?] ?]. by intros [= <- <-].
  - pose proof (restart_extends pid pk now h).
    destruct (restart _ _ _ _) as [[? ?] ?]. by intros [= <- <-].
  - pose proof (stop_extends pid h).
    destruct (stop _ _) as [[? ?] ?]. by intros [= <- <-].
  - intros [= <- <-]. apply touch_extends.
  - apply producer_step_extends.
Qed.

Lemma run_extends tr : forall h h' es, run tr h = Some (h', es) -> extends h h'.
Proof.
  induction tr as [|a tr IH]; simpl; intros h h' es.
  - intros [= <- <-]. apply extends_refl.
  - destruct (exec a h) as [[h1 es1]|] eqn:E1; [|done].
    destruct (run tr h1) as [[h2 es2]|] eqn:E2; [|done].
    intros [= <- <-]. eapply extends_trans; [eapply exec_extends|]; eauto.
Qed.

(** ** Well-formed hubs *)

(** What a task record and the stream it publishes into agree on: a live
    stream has a producer that has not left its loop and is not being
    cancelled; a stream holds a frame only while its producer reads. *)
Definition consistent (e : SharedStream) (k : Task) : Prop :=
  (alive e = true ->
   (t_pc k = Created \/ t_pc k = Reading) /\ t_cancel k = false) /\
  (t_pc k <> Reading -> frame e = None).

Record hub_wf (h : Hub) : Prop := mk_hub_wf {
  wf_len : length (objs h) = length (tasks h);
  wf_task : forall l e, objs h !! l = Some e -> task e = Some l;
  wf_entry : forall t k, tasks h !! t = Some k -> t_entry k = t;
  wf_reg : forall pid l, _streams h !! pid = Some l ->
                         exists k, tasks h !! l = Some k /\ t_printer k = pid;
  wf_cons : forall l e k, objs h !! l = Some e -> tasks h !! l = Some k ->
                          consistent e k;
  wf_live : forall l e k, objs h !! l = Some e -> tasks h !! l = Some k ->
                          alive e = true -> _streams h !! t_printer k = Some l
}.

Lemma wf_obj_of_task h t k :
  hub_wf h -> tasks h !! t = Some k -> exists e, objs h !! t = Some e.
Proof.
  intros W H. apply lookup_lt_Some in H. rewrite <- (wf_len h W) in H.
  by apply lookup_lt_is_Some_2 in H.
Qed.

Lemma wf_task_of_obj h l e :
  hub_wf h -> objs h !! l = Some e -> exists k, tasks h !! l = Some k.
Proof.
  intros W H. apply lookup_lt_Some in H. rewrite (wf_len h W) in H.
  by apply lookup_lt_is_Some_2 in H.
Qed.

Lemma hub_init_wf : hub_wf hub_init.
Proof. split; simpl; try done. Qed.

Lemma wf_update_obj l f h :
  hub_wf h ->
  (forall e k, objs h !! l = Some e -> tasks h !! l = Some k ->
               consistent e k ->
               task (f e) = task e /\ (alive (f e) = true -> alive e = true) /\
               consistent (f e) k) ->
  hub_wf (update_obj l f h).
Proof.
  intros W Hf.
  assert (forall l' e', objs (update_obj l f h) !! l' = Some e' ->
            exists e, objs h !! l' = Some e /\
              (l' <> l /\ e' = e \/ l' = l /\ e' = f e)) as Hinv.
  { intros l' e'. rewrite objs_update_obj. case_decide; subst.
    - destruct (objs h !! l') as [e|]; [|done]. intros [= <-]. eauto.
    - intros ->. eauto. }
  split.
  - unfold update_obj; simpl. rewrite length_alter. apply W.
  - intros l' e' H. destruct (Hinv _ _ H) as (e & He & [[? ->]|[-> ->]]).
    + eapply wf_task; eauto.
    + destruct (wf_task_of_obj h l e W He) as [k Hk].
      destruct (Hf e k He Hk (wf_cons h W _ _ _ He Hk)) as (-> & _).
      eapply wf_task; eauto.
  - intros t k H. exact (wf_entry h W t k H).
  - intros pid l' H. exact (wf_reg h W pid l' H).
  - intros l' e' k H Hk. destruct (Hinv _ _ H) as (e & He & [[? ->]|[-> ->]]).
    + eapply wf_cons; eauto.
    + apply (Hf e k He Hk (wf_cons h W _ _ _ He Hk)).
  - intros l' e' k H Hk Ha.
    destruct (Hinv _ _ H) as (e & He & [[? ->]|[-> ->]]).
    + eapply (wf_live h W); eauto.
    + eapply (wf_live h W); eauto.
      by apply (Hf e k He Hk (wf_cons h W _ _ _ He Hk)).
Qed.

Lemma wf_update_task t g h :
  hub_wf h ->
  (forall e k, objs h !! t = Some e -> tasks h !! t = Some k ->
               consistent e k ->
               t_entry (g k) = t_entry k /\ t_printer (g k) = t_printer k /\
               consistent e (g k)) ->
  hub_wf (update_task t g h).
Proof.
  intros W Hg.
  assert (forall t' k', tasks (update_task t g h) !! t' = Some k' ->
            exists k, tasks h !! t' = Some k /\
              (t' <> t /\ k' = k \/ t' = t /\ k' = g k)) as Hinv.
  { intros t' k'. rewrite tasks_update_task. case_decide; subst.
    - destruct (tasks h !! t') as [k|]; [|done]. intros [= <-]. eauto.
    - intros ->. eauto. }
  assert (forall k, tasks h !! t = Some k ->
            t_entry (g k) = t_entry k /\ t_printer (g k) = t_printer k) as Hg'.
  { intros k Hk. destruct (wf_obj_of_task h t k W Hk) as [e He].
    destruct (Hg e k He Hk (wf_cons h W _ _ _ He Hk)) as (?&?&?). done. }
  split.
  - unfold update_task; simpl. rewrite length_alter. apply W.
  - intros l e H. exact (wf_task h W l e H).
  - intros t' k' H. destruct (Hinv _ _ H) as (k & Hk & [[? ->]|[-> ->]]).
    + eapply wf_entry; eauto.
    + destruct (Hg' k Hk) as [-> _]. eapply wf_entry; eauto.
  - intros pid l H. destruct (wf_reg h W pid l H) as (k & Hk & Hp).
    destruct (decide (t = l)) as [->|Hne].
    + exists (g k). split; [by apply tasks_update_task_eq|].
      destruct (Hg' k Hk) as [_ ->]. done.
    + exists k. split; [|done].
      rewrite tasks_update_task. by rewrite decide_False.
  - intros l e k' H Hk'. destruct (Hinv _ _ Hk') as (k & Hk & [[? ->]|[-> ->]]).
    + eapply wf_cons; eauto.
    + apply (Hg e k H Hk (wf_cons h W _ _ _ H Hk)).
  - intros l e k' H Hk' Ha.
    destruct (Hinv _ _ Hk') as (k & Hk & [[? ->]|[-> ->]]).
    + eapply (wf_live h W); eauto.
    + destruct (Hg' k Hk) as [_ ->]. eapply (wf_live h W); eauto.
Qed.

Lemma wf_delete pid h :
  hub_wf h ->
  (forall l e, _streams h !! pid = Some l -> objs h !! l = Some e ->
               alive e = false) ->
  hub_wf (set_streams (delete pid (_streams h)) h).
Proof.
  intros W Hd. split; try apply W.
  - intros pid' l. unfold set_streams; simpl.
    rewrite lookup_delete. case_decide; [done|]. apply W.
  - intros l e k He Hk Ha. unfold set_streams; simpl.
    pose proof (wf_live h W l e k He Hk Ha) as Hb.
    rewrite lookup_delete. case_decide; [|done]. subst.
    rewrite (Hd l e Hb He) in Ha. done.
Qed.

Lemma wf_start_producer pid pk now h l h' es :
  hub_wf h ->
  (forall l e, _streams h !! pid = Some l -> objs h !! l = Some e ->
               alive e = false) ->
  start_producer pid pk now h = (l, h', es) ->
  hub_wf h'.
Proof.
  intros W Hd [= <- <- <-]. pose proof (wf_len h W) as Hlen. split; simpl.
  - rewrite !length_app. simpl. lia.
  - intros l e. rewrite lookup_app_Some. intros [H|[Hge H]].
    + eapply wf_task; eauto.
    + apply list_lookup_singleton_Some in H as [H <-]. simpl.
      f_equal. lia.
  - intros t k. rewrite lookup_app_Some. intros [H|[Hge H]].
    + eapply wf_entry; eauto.
    + apply list_lookup_singleton_Some in H as [H <-]. simpl. lia.
  - intros pid' l. rewrite lookup_insert. case_decide; subst.
    + intros [= <-]. eexists.
      split; [rewrite Hlen; by apply list_lookup_middle | reflexivity].
    + intros Hb. destruct (wf_reg h W pid' l Hb) as (k & Hk & Hp).
      exists k. split; [|done]. by apply lookup_app_l_Some.
  - intros l e k. rewrite !lookup_app_Some.
    intros [H|[Hge H]] [Hk|[Hgek Hk]].
    + eapply wf_cons; eauto.
    + apply lookup_lt_Some in H. lia.
    + apply lookup_lt_Some in Hk. lia.
    + apply list_lookup_singleton_Some in H as [H <-].
      apply list_lookup_singleton_Some in Hk as [Hk' <-].
      split; simpl; [auto | done].
  - intros l e k. rewrite !lookup_app_Some.
    intros [H|[Hge H]] [Hk|[Hgek Hk]] Ha.
    + pose proof (wf_live h W l e k H Hk Ha) as Hb.
      rewrite lookup_insert. case_decide; [|done]. subst.
      rewrite (Hd l e Hb H) in Ha. done.
    + apply lookup_lt_Some in H. lia.
    + apply lookup_lt_Some in Hk. lia.
    + apply list_lookup_singleton_Some in H as [H <-].
      apply list_lookup_singleton_Some in Hk as [Hk' <-]. simpl.
      rewrite lookup_insert_eq. f_equal. lia.
Qed.

Lemma objs_update_task t g h : objs (update_task t g h) = objs h.
Proof. reflexivity. Qed.

Lemma objs_set_streams m h : objs (set_streams m h) = objs h.
Proof. reflexivity. Qed.

Lemma objs_cancel_task t h : objs (cancel_task t h) = objs h.
Proof. reflexivity. Qed.

Lemma tasks_update_obj l f h : tasks (update_obj l f h) = tasks h.
Proof. reflexivity. Qed.


Lemma tasks_mark_dead l h : tasks (mark_dead l h) = tasks h.
Proof. reflexivity. Qed.

Lemma streams_update_obj l f h : _streams (update_obj l f h) = _streams h.
Proof. reflexivity. Qed.


Lemma streams_mark_dead l h : _streams (mark_dead l h) = _streams h.
Proof. reflexivity. Qed.

Lemma streams_cancel_task t h : _streams (cancel_task t h) = _streams h.
Proof. reflexivity. Qed.

Lemma objs_deregister pid l h : objs (deregister pid l h).1 = objs h.
Proof.
  unfold deregister. destruct (_streams h !! pid); [case_decide|]; done.
Qed.


Lemma mark_dead_lookup l h e :
  objs (mark_dead l h) !! l = Some e -> alive e = false /\ frame e = None.
Proof.
  unfold mark_dead. rewrite objs_update_obj, decide_True by done.
  destruct (objs h !! l); [|done]. by intros [= <-].
Qed.

Lemma set_alive_false_lookup l h e :
  objs (update_obj l (set_alive false) h) !! l = Some e -> alive e = false.
Proof.
  rewrite objs_update_obj, decide_True by done.
  destruct (objs h !! l); [|done]. by intros [= <-].
Qed.

Ltac consistency :=
  unfold consistent; intros; simpl in *;
  try match goal with H : t_pc _ = _ |- _ => rewrite H in * end;
  intuition (try congruence).

Lemma wf_touch_obj l now h :
  hub_wf h -> hub_wf (update_obj l (set_last_accessed now) h).
Proof. intros W. apply wf_update_obj; [done|]. consistency. Qed.

Lemma wf_set_error l m h : hub_wf h -> hub_wf (update_obj l (set_error m) h).
Proof. intros W. apply wf_update_obj; [done|]. consistency. Qed.

Lemma wf_set_alive_false l h :
  hub_wf h -> hub_wf (update_obj l (set_alive false) h).
Proof. intros W. apply wf_update_obj; [done|]. consistency. Qed.

Lemma wf_mark_dead l h : hub_wf h -> hub_wf (mark_dead l h).
Proof. intros W. apply wf_update_obj; [done|]. consistency. Qed.

Lemma wf_incr_seq l h :
  hub_wf h ->
  hub_wf (update_obj l (fun e => set_frame_seq (frame_seq e + 1) e) h).
Proof. intros W. apply wf_update_obj; [done|]. consistency. Qed.

Lemma wf_write_frame l f h :
  hub_wf h ->
  (forall k, tasks h !! l = Some k -> t_pc k = Reading) ->
  hub_wf (update_obj l (set_frame (Some f)) h).
Proof.
  intros W Hr. apply wf_update_obj; [done|].
  intros e k He Hk Hc. specialize (Hr k Hk). revert Hc. consistency.
Qed.

Lemma wf_clear_cancel t h :
  hub_wf h -> hub_wf (update_task t (set_cancel false) h).
Proof.
  intros W. apply wf_update_task; [done|]. consistency.
Qed.

Lemma wf_cancel_task t h :
  hub_wf h ->
  (forall e, objs h !! t = Some e -> alive e = false) ->
  hub_wf (cancel_task t h).
Proof.
  intros W Hd. apply wf_update_task; [done|].
  intros e k He Hk Hc. specialize (Hd e He).
  destruct (t_pc k) eqn:Hpc; revert Hc; consistency.
Qed.

Lemma wf_set_pc_reading t h :
  hub_wf h -> hub_wf (update_task t (set_pc Reading) h).
Proof.
  intros W. apply wf_update_task; [done|]. consistency.
Qed.

Lemma wf_set_pc_dead p t h :
  hub_wf h ->
  (forall e, objs h !! t = Some e -> alive e = false /\ frame e = None) ->
  hub_wf (update_task t (set_pc p) h).
Proof.
  intros W Hd. apply wf_update_task; [done|].
  intros e k He Hk Hc. destruct (Hd e He). consistency.
Qed.

Lemma wf_deregister pid l h :
  hub_wf h ->
  (forall e, objs h !! l = Some e -> alive e = false) ->
  hub_wf (deregister pid l h).1.
Proof.
  intros W Hd. unfold deregister.
  destruct (_streams h !! pid) as [l'|] eqn:E; [case_decide|]; simpl; try done.
  subst. apply wf_delete; [done|]. intros l0 e H He.
  rewrite E in H. injection H as <-. by apply Hd.
Qed.

Lemma wf_enter_finally t h :
  hub_wf h -> hub_wf (enter_finally t t h).1.
Proof.
  intros W. unfold enter_finally. simpl.
  apply wf_set_pc_dead; [by apply wf_mark_dead|].
  intros e. apply mark_dead_lookup.
Qed.

(** ** Every operation keeps the hub well-formed *)

Lemma start_producer_wf pid pk now h :
  hub_wf h ->
  (forall l e, get_entry h pid = Some (l, e) -> alive e = false) ->
  hub_wf (start_producer pid pk now h).1.2.
Proof.
  intros W Hd.
  destruct (start_producer pid pk now h) as [[l' h'] es'] eqn:E. simpl.
  eapply wf_start_producer; [exact W| |exact E].
  intros l e Hb He. apply (Hd l e). by apply get_entry_Some.
Qed.

Lemma get_or_start_wf pid pk now h :
  hub_wf h -> hub_wf (get_or_start pid pk now h).1.2.
Proof.
  intros W. unfold get_or_start.
  destruct (get_entry h pid) as [[l e]|] eqn:G; [destruct (alive e) eqn:A|].
  - simpl. by apply wf_touch_obj.
  - apply start_producer_wf; [done|]. rewrite G. by intros ? ? [= <- <-].
  - apply start_producer_wf; [done|]. by rewrite G.
Qed.

Lemma restart_wf pid pk now h :
  hub_wf h -> hub_wf (restart pid pk now h).1.2.
Proof.
  intros W. unfold restart.
  destruct (get_entry h pid) as [[l e]|] eqn:G; [destruct (alive e) eqn:A|].
  - destruct (String.eqb _ _); [simpl; by apply wf_touch_obj|].
    apply get_entry_Some in G as [Gb Ge].
    pose proof (wf_set_alive_false l h W) as W1.
    assert (forall l0 e0,
      get_entry (update_obj l (set_alive false) h) pid = Some (l0, e0) ->
      alive e0 = false) as Hd.
    { intros l0 e0 G0. apply get_entry_Some in G0 as [Gb0 Ge0].
      rewrite streams_update_obj, Gb in Gb0. injection Gb0 as <-.
      by apply set_alive_false_lookup in Ge0. }
    destruct (task e) as [t|] eqn:T.
    + rewrite (wf_task h W l e Ge) in T. injection T as <-.
      pose proof (start_producer_wf pid pk now
        (cancel_task l (update_obj l (set_alive false) h))) as Hs.
      destruct (start_producer _ _ _ _) as [[l' h'] es']. simpl in *.
      apply Hs.
      * apply wf_cancel_task; [done|]. intros e0. apply set_alive_false_lookup.
      * intros l0 e0 G0. apply (Hd l0 e0). exact G0.
    + pose proof (start_producer_wf pid pk now
        (update_obj l (set_alive false) h) W1 Hd) as Hs.
      destruct (start_producer _ _ _ _) as [[l' h'] es']. simpl in *. done.
  - apply start_producer_wf; [done|]. rewrite G. by intros ? ? [= <- <-].
  - apply start_producer_wf; [done|]. by rewrite G.
Qed.

Lemma stop_wf pid h : hub_wf h -> hub_wf (stop pid h).1.2.
Proof.
  intros W. unfold stop.
  destruct (get_entry h pid) as [[l e]|] eqn:G; [|done].
  apply get_entry_Some in G as [Gb Ge].
  assert (hub_wf (mark_dead l (set_streams (delete pid (_streams h)) h))) as W2.
  { change (hub_wf (set_streams (delete pid (_streams (mark_dead l h)))
                                (mark_dead l h))).
    apply wf_delete; [by apply wf_mark_dead|].
    intros l0 e0. rewrite streams_mark_dead, Gb. intros [= <-] H0.
    by apply mark_dead_lookup in H0 as [? ?]. }
  destruct (task e) as [t|] eqn:T; [|done].
  destruct (task_done _ _); [done|]. simpl.
  rewrite (wf_task h W l e Ge) in T. injection T as <-.
  apply wf_cancel_task; [done|]. intros e0 H0.
  by apply mark_dead_lookup in H0 as [? ?].
Qed.

Lemma touch_wf l now h : hub_wf h -> hub_wf (touch l now h).
Proof.
  intros W. unfold touch.
  destruct (objs h !! l) as [e|]; [destruct (alive e)|]; try done.
  by apply wf_touch_obj.
Qed.

Lemma producer_step_wf t ev h h' es :
  hub_wf h -> producer_step t ev h = Some (h', es) -> hub_wf h'.
Proof.
  intros W. unfold producer_step.
  destruct (tasks h !! t) as [k|] eqn:Hk; [|done].
  rewrite (wf_entry h W t k Hk).
  destruct (wf_obj_of_task h t k W Hk) as [e He].
  pose proof (wf_cons h W t e k He Hk) as [Hc1 Hc2].
  pose proof (wf_clear_cancel t h W) as W0.
  set (h0 := update_task t (set_cancel false) h) in *.
  assert (tasks h0 !! t = Some (set_cancel false k)) as Hk0
    by (by apply tasks_update_task_eq).
  assert (objs h0 !! t = Some e) as He0 by exact He.
  assert (t_cancel k = true -> alive e = false) as Hcancel.
  { intros Hcn. destruct (alive e); [|done].
    destruct Hc1 as [_ Hf]; [done|]. congruence. }
  destruct (t_pc k) eqn:Hpc, ev; try done.
  - (* Created, StartOk *)
    intros [= <- <-]. by apply wf_set_pc_reading.
  - (* Created, StartRaise *)
    set (h2 := mark_dead t (update_obj t (set_error (Some m)) h0)).
    assert (hub_wf h2) as W2 by (by apply wf_mark_dead, wf_set_error).
    pose proof (wf_deregister (t_printer k) t h2 W2) as Wd.
    pose proof (objs_deregister (t_printer k) t h2) as Ho.
    destruct (deregister _ _ _) as [h3 es3]. cbn [fst snd] in *. intros [= <- <-].
    apply wf_set_pc_dead.
    + apply Wd. intros e0 H0. by apply mark_dead_lookup in H0 as [? ?].
    + intros e0. rewrite Ho. apply mark_dead_lookup.
  - (* Created, DeliverCancel *)
    destruct (t_cancel k) eqn:Hcn; [|done]. intros [= <- <-].
    apply wf_set_pc_dead; [done|]. intros e0. rewrite He0.
    intros [= <-]. split; [by apply Hcancel|]. apply Hc2. congruence.
  - (* Reading, Frame *)
    rewrite He0.
    destruct (alive e) eqn:A; simpl.
    + assert (hub_wf (update_obj t
                (fun e => set_frame_seq (frame_seq e + 1) e)
                (update_obj t (set_frame (Some f)) h0))) as W2.
      { apply wf_incr_seq, wf_write_frame; [done|].
        intros k'. rewrite Hk0. by intros [= <-]. }
      destruct (idle now e); intros [= <- <-]; [|done].
      by apply wf_enter_finally, wf_set_alive_false.
    + intros [= <- <-]. by apply wf_enter_finally.
  - (* Reading, Exhausted *)
    intros [= <- <-]. by apply wf_enter_finally.
  - (* Reading, SourceRaise *)
    intros [= <- <-]. by apply wf_enter_finally, wf_set_error.
  - (* Reading, DeliverCancel *)
    destruct (t_cancel k); [|done]. intros [= <- <-]. by apply wf_enter_finally.
  - (* Closing, DeliverCancel *)
    destruct (t_cancel k) eqn:Hcn; [|done]. intros [= <- <-].
    apply wf_set_pc_dead; [done|]. intros e0. rewrite He0.
    intros [= <-]. split; [by apply Hcancel|]. apply Hc2. congruence.
  - (* Closing, Closed *)
    assert (alive e = false) as A.
    { destruct (alive e); [|done]. destruct Hc1 as [[?|?] _]; congruence. }
    assert (frame e = None) as F by (apply Hc2; congruence).
    pose proof (wf_deregister (t_printer k) t h0 W0) as Wd.
    pose proof (objs_deregister (t_printer k) t h0) as Ho.
    destruct (deregister _ _ _) as [h3 es3]. cbn [fst snd] in *. intros [= <- <-].
    apply wf_set_pc_dead.
    + apply Wd. intros e0. rewrite He0. by intros [= <-].
    + intros e0. rewrite Ho, He0. by intros [= <-].
Qed.

Lemma exec_wf a h h' es : hub_wf h -> exec a h = Some (h', es) -> hub_wf h'.
Proof.
  intros W. destruct a as [pid pk now|pid pk now|pid|l now|t ev]; simpl.
  - pose proof (get_or_start_wf pid pk now h W).
    destruct (get_or_start _ _ _ _) as [[? ?] ?]. by intros [= <- <-].
  - pose proof (restart_wf pid pk now h W).
    destruct (restart _ _ _ _) as [[? ?] ?]. by intros [= <- <-].
  - pose proof (stop_wf pid h W).
    destruct (stop _ _) as [[? ?] ?]. by intros [= <- <-].
  - intros [= <- <-]. by apply touch_wf.
  - by apply producer_step_wf.
Qed.

Lemma run_wf tr : forall h h' es,
  hub_wf h -> run tr h = Some (h', es) -> hub_wf h'.
Proof.
  induction tr as [|a tr IH]; simpl; intros h h' es W.
  - by intros [= <- <-].
  - destruct (exec a h) as [[h1 es1]|] eqn:E1; [|done].
    destruct (run tr h1) as [[h2 es2]|] eqn:E2; [|done].
    intros [= <- <-]. eapply IH; [|exact E2]. eapply exec_wf; eauto.
Qed.

Lemma reachable_wf h : reachable h -> hub_wf h.
Proof.
  induction 1 as [|a h h' es _ IH E]; [apply hub_init_wf|].
  eapply exec_wf; eauto.
Qed.

Lemma reachable_run tr : forall h h' es,
  reachable h -> run tr h = Some (h', es) -> reachable h'.
Proof.
  induction tr as [|a tr IH]; simpl; intros h h' es R.
  - by intros [= <- <-].
  - destruct (exec a h) as [[h1 es1]|] eqn:E1; [|done].
    destruct (run tr h1) as [[h2 es2]|] eqn:E2; [|done].
    intros [= <- <-]. eapply IH; [|exact E2]. eapply reach_step; eauto.
Qed.

(** ** get_or_start *)

Lemma is_active_true h pid :
  is_active pid h = true <->
  exists l e, get_entry h pid = Some (l, e) /\ alive e = true.
Proof.
  unfold is_active. destruct (get_entry h pid) as [[l e]|].
  - split; [eauto|]. by intros (? & ? & [= <- <-] & ?).
  - split; [done|]. by intros (? & ? & ? & ?).
Qed.

Lemma get_or_start_reuse h pid pk now l e :
  get_entry h pid = Some (l, e) -> alive e = true ->
  get_or_start pid pk now h = (l, update_obj l (set_last_accessed now) h, []).
Proof. intros G A. unfold get_or_start. by rewrite G, A. Qed.

Lemma get_or_start_fresh h pid pk now :
  is_active pid h = false ->
  get_or_start pid pk now h = start_producer pid pk now h.
Proof.
  unfold is_active, get_or_start.
  destruct (get_entry h pid) as [[l e]|]; [|done]. by intros ->.
Qed.

Lemma get_entry_touch h pid l e now :
  get_entry h pid = Some (l, e) ->
  get_entry (update_obj l (set_last_accessed now) h) pid =
  Some (l, set_last_accessed now e).
Proof.
  intros [Gb Ge]%get_entry_Some. apply get_entry_Some.
  split; [done | by apply objs_update_obj_eq].
Qed.

Lemma get_entry_start_producer h pid pk now :
  get_entry (start_producer pid pk now h).1.2 pid =
  Some (length (objs h),
        set_task (Some (length (tasks h))) (new_SharedStream pk now)).
Proof.
  apply get_entry_Some. unfold start_producer; simpl. split.
  - apply lookup_insert_eq.
  - by apply list_lookup_middle.
Qed.






Lemma hub_one_reachable : reachable hub_one.
Proof.
  eapply (reach_step (GetOrStart 1 "5-15-0.5" 0) hub_init); [constructor|].
  reflexivity.
Defined.


(** ** restart *)


Lemma live_task_running h l e :
  hub_wf h -> objs h !! l = Some e -> alive e = true ->
  task e = Some l /\
  exists k, tasks h !! l = Some k /\ t_entry k = l /\ t_cancel k = false /\
            (t_pc k = Created \/ t_pc k = Reading).
Proof.
  intros W He A. split; [by eapply wf_task|].
  destruct (wf_task_of_obj h l e W He) as [k Hk]. exists k.
  destruct (wf_cons h W l e k He Hk) as [Hc _].
  destruct (Hc A) as [? ?]. repeat split; auto. by eapply wf_entry.
Qed.




(** ** Who writes [frame] and [frame_seq] *)

Section Related.
Variable R : SharedStream -> SharedStream -> Prop.
Hypothesis R_refl : forall e, R e e.
Hypothesis R_trans : forall e1 e2 e3, R e1 e2 -> R e2 e3 -> R e1 e3.

(** Every stream object of [h] is still there in [h'], related by [R]. *)
Definition related (h h' : Hub) : Prop :=
  forall l e, objs h !! l = Some e ->
              exists e', objs h' !! l = Some e' /\ R e e'.

Lemma related_refl h : related h h.
Proof. intros l e H. eauto. Qed.

Lemma related_trans h1 h2 h3 :
  related h1 h2 -> related h2 h3 -> related h1 h3.
Proof.
  intros H12 H23 l e H.
  destruct (H12 l e H) as (e2 & H2 & E2).
  destruct (H23 l e2 H2) as (e3 & H3 & E3). eauto.
Qed.

Lemma related_update_obj h0 h l f :
  (forall e, R e (f e)) -> related h0 h -> related h0 (update_obj l f h).
Proof.
  intros Hf H0. eapply related_trans; [exact H0|].
  intros l' e He. destruct (decide (l = l')) as [->|Hne].
  - exists (f e). split; [by apply objs_update_obj_eq | apply Hf].
  - exists e. split; [|apply R_refl].
    rewrite objs_update_obj. by rewrite decide_False.
Qed.

Lemma related_same_objs h0 h h' :
  objs h' = objs h -> related h0 h -> related h0 h'.
Proof. intros E H0 l e He. rewrite E. by apply H0. Qed.

Lemma related_start_producer h0 h pid pk now l h' es :
  start_producer pid pk now h = (l, h', es) ->
  related h0 h -> related h0 h'.
Proof.
  intros [= <- <- <-] H0 l0 e He. destruct (H0 l0 e He) as (e' & He' & Hr).
  exists e'. split; [|done]. simpl. by apply lookup_app_l_Some.
Qed.

Hypothesis R_touch : forall q e, R e (set_last_accessed q e).

Lemma related_touch l now h : related h (touch l now h).
Proof.
  unfold touch. destruct (objs h !! l) as [e|]; [destruct (alive e)|];
    auto using related_refl, related_update_obj.
Qed.

Lemma related_get_or_start pid pk now h :
  related h (get_or_start pid pk now h).1.2.
Proof.
  unfold get_or_start.
  destruct (get_entry h pid) as [[l e]|]; [destruct (alive e)|]; simpl.
  - auto using related_refl, related_update_obj.
  - destruct (start_producer pid pk now h) as [[l' h'] es'] eqn:E.
    eapply related_start_producer; eauto using related_refl.
  - destruct (start_producer pid pk now h) as [[l' h'] es'] eqn:E.
    eapply related_start_producer; eauto using related_refl.
Qed.

Hypothesis R_dead : forall e, R e (set_alive false e).

Lemma related_restart pid pk now h : related h (restart pid pk now h).1.2.
Proof.
  unfold restart.
  destruct (get_entry h pid) as [[l e]|]; [destruct (alive e)|].
  - destruct (String.eqb _ _);
      [simpl; auto using related_refl, related_update_obj|].
    assert (related h (update_obj l (set_alive false) h)) as H1
      by auto using related_refl, related_update_obj.
    destruct (task e) as [t|].
    + destruct (start_producer _ _ _ (cancel_task _ _))
        as [[l' h'] es'] eqn:E. simpl.
      eapply related_start_producer; [exact E|].
      eapply related_same_objs; [apply objs_cancel_task | exact H1].
    + destruct (start_producer _ _ _ (update_obj _ _ _))
        as [[l' h'] es'] eqn:E. simpl.
      eapply related_start_producer; eauto.
  - destruct (start_producer pid pk now h) as [[l' h'] es'] eqn:E.
    eapply related_start_producer; eauto using related_refl.
  - destruct (start_producer pid pk now h) as [[l' h'] es'] eqn:E.
    eapply related_start_producer; eauto using related_refl.
Qed.

Hypothesis R_clear : forall e, R e (set_frame None e).

Lemma related_mark_dead h0 h l : related h0 h -> related h0 (mark_dead l h).
Proof.
  intros H0. unfold mark_dead. apply related_update_obj; [|done].
  intros e. eapply R_trans; [apply R_dead | apply R_clear].
Qed.

Lemma related_stop pid h : related h (stop pid h).1.2.
Proof.
  unfold stop.
  destruct (get_entry h pid) as [[l e]|]; [|simpl; apply related_refl].
  assert (related h (mark_dead l (set_streams (delete pid (_streams h)) h)))
    as H2.
  { apply related_mark_dead. eapply related_same_objs; [|apply related_refl].
    apply objs_set_streams. }
  destruct (task e); [destruct (task_done _ _)|]; simpl; exact H2.
Qed.

Lemma related_enter_finally h0 h t l :
  related h0 h -> related h0 (enter_finally t l h).1.
Proof.
  intros H0. unfold enter_finally. simpl.
  eapply related_same_objs; [apply objs_update_task|].
  by apply related_mark_dead.
Qed.
End Related.

(** Neither [frame] nor [frame_seq] was written. *)
Definition unwritten (e e' : SharedStream) : Prop :=
  frame_seq e' = frame_seq e /\ frame e' = frame e.

(** [frame_seq] was not written; [frame] was left alone or cleared. *)
Definition cleared (e e' : SharedStream) : Prop :=
  frame_seq e' = frame_seq e /\ (frame e' = frame e \/ frame e' = None).

Definition same_seq (e e' : SharedStream) : Prop :=
  frame_seq e' = frame_seq e.

Lemma cleared_trans e1 e2 e3 : cleared e1 e2 -> cleared e2 e3 -> cleared e1 e3.
Proof.
  unfold cleared. intros [H1 F1] [H2 F2]. split; [congruence|].
  destruct F2 as [F2|F2]; [|by right].
  destruct F1 as [F1|F1]; [left|right]; congruence.
Qed.

Definition silent (x : effect) : bool :=
  match x with WriteFrame _ _ | IncrSeq _ => false | _ => true end.

Lemma silent_published l es : forallb silent es = true -> published l es = 0%nat.
Proof.
  unfold published. induction es as [|x es IH]; [done|]. simpl.
  intros [Hx Hes]%andb_true_iff. destruct x; simpl in *; try done; auto.
Qed.

Lemma silent_order_ok es : forallb silent es = true -> order_ok None es = true.
Proof.
  induction es as [|x es IH]; [done|]. simpl.
  intros [Hx Hes]%andb_true_iff. destruct x; simpl in *; try done; auto.
Qed.

Lemma order_ok_app es1 : forall p es2,
  order_ok p es1 = true -> order_ok None es2 = true ->
  order_ok p (es1 ++ es2) = true.
Proof.
  induction es1 as [|x es1 IH]; intros p es2; simpl.
  - destruct p; [done|]. auto.
  - destruct p, x; try done; auto.
    intros [? ?]%andb_true_iff ?. apply andb_true_iff. auto.
Qed.

Lemma published_app l es1 es2 :
  published l (es1 ++ es2) = (published l es1 + published l es2)%nat.
Proof. unfold published. by rewrite List.filter_app, length_app. Qed.

Lemma start_producer_silent pid pk now h :
  forallb silent (start_producer pid pk now h).2 = true.
Proof. reflexivity. Qed.

Lemma deregister_silent pid l h : forallb silent (deregister pid l h).2 = true.
Proof.
  unfold deregister. destruct (_streams h !! pid); [case_decide|]; done.
Qed.

Lemma api_silent a h h' es :
  exec a h = Some (h', es) -> is_producer_label a = false ->
  forallb silent es = true.
Proof.
  destruct a as [pid pk now|pid pk now|pid|l now|t ev]; simpl; try done.
  - unfold get_or_start.
    destruct (get_entry h pid) as [[l e]|]; [destruct (alive e)|];
      by intros [= <- <-] _.
  - unfold restart.
    destruct (get_entry h pid) as [[l e]|]; [destruct (alive e)|];
      [destruct (String.eqb _ _); [|destruct (task e)]| |];
      by intros [= <- <-] _.
  - unfold stop.
    destruct (get_entry h pid) as [[l e]|];
      [destruct (task e); [destruct (task_done _ _)|]|];
      by intros [= <- <-] _.
  - by intros [= <- <-] _.
Qed.

Lemma unwritten_refl e : unwritten e e.
Proof. by split. Qed.

Lemma unwritten_trans e1 e2 e3 :
  unwritten e1 e2 -> unwritten e2 e3 -> unwritten e1 e3.
Proof. unfold unwritten. intros [? ?] [? ?]. split; congruence. Qed.

Lemma unwritten_touch q e : unwritten e (set_last_accessed q e).
Proof. by split. Qed.

Lemma unwritten_dead e : unwritten e (set_alive false e).
Proof. by split. Qed.

Lemma api_unwritten a h h' es :
  exec a h = Some (h', es) ->
  is_producer_label a = false -> is_stop a = false ->
  related unwritten h h'.
Proof.
  destruct a as [pid pk now|pid pk now|pid|l now|t ev]; simpl;
    try (by intros _ ? ?).
  - pose proof (related_get_or_start unwritten unwritten_refl
                  unwritten_trans unwritten_touch pid pk now h) as H.
    destruct (get_or_start _ _ _ _) as [[? ?] ?]. intros [= <- <-] _ _. exact H.
  - pose proof (related_restart unwritten unwritten_refl unwritten_trans
                  unwritten_touch unwritten_dead pid pk now h) as H.
    destruct (restart _ _ _ _) as [[? ?] ?]. intros [= <- <-] _ _. exact H.
  - intros [= <- <-] _ _.
    apply related_touch;
      [exact unwritten_refl | exact unwritten_trans | exact unwritten_touch].
Qed.

Lemma stop_cleared pid h : related cleared h (stop pid h).1.2.
Proof.
  apply related_stop; try (unfold cleared; simpl; by auto).
  apply cleared_trans.
Qed.

(** No operation of the hub or of a poller writes [frame_seq]; the only
    one that writes [frame] is [stop], which clears it. *)
Lemma api_writes a h h' es l e e' :
  exec a h = Some (h', es) -> is_producer_label a = false ->
  objs h !! l = Some e -> objs h' !! l = Some e' ->
  frame_seq e' = frame_seq e /\
  (frame e' = frame e \/ is_stop a = true /\ frame e' = None).
Proof.
  intros E Hp He He'. destruct (is_stop a) eqn:S.
  - destruct a; try done. simpl in E.
    pose proof (stop_cleared printer_id h l e He) as (e2 & He2 & Hc).
    destruct (stop _ _) as [[? ?] ?]. injection E as <- <-. simpl in He2.
    assert (e2 = e') as -> by congruence.
    destruct Hc as [? [?|?]]; auto.
  - destruct (api_unwritten a h h' es E Hp S l e He) as (e2 & He2 & [? ?]).
    assert (e2 = e') as -> by congruence. auto.
Qed.

Lemma same_seq_refl e : same_seq e e.
Proof. done. Qed.

Lemma same_seq_trans e1 e2 e3 : same_seq e1 e2 -> same_seq e2 e3 -> same_seq e1 e3.
Proof. unfold same_seq. congruence. Qed.

Lemma seq_update_obj h0 h l f :
  (forall e, same_seq e (f e)) ->
  related same_seq h0 h -> related same_seq h0 (update_obj l f h).
Proof. apply related_update_obj; [exact same_seq_refl | exact same_seq_trans]. Qed.

Lemma seq_update_task h0 h t g :
  related same_seq h0 h -> related same_seq h0 (update_task t g h).
Proof. apply related_same_objs, objs_update_task. Qed.

Lemma seq_deregister h0 h pid l :
  related same_seq h0 h -> related same_seq h0 (deregister pid l h).1.
Proof. apply related_same_objs, objs_deregister. Qed.

Lemma seq_mark_dead h0 h l :
  related same_seq h0 h -> related same_seq h0 (mark_dead l h).
Proof.
  apply related_mark_dead;
    first [exact same_seq_refl | exact same_seq_trans | done].
Qed.

Lemma seq_enter_finally h0 h t l :
  related same_seq h0 h -> related same_seq h0 (enter_finally t l h).1.
Proof.
  apply related_enter_finally;
    first [exact same_seq_refl | exact same_seq_trans | done].
Qed.

Lemma seq_refl h : related same_seq h h.
Proof. apply related_refl, same_seq_refl. Qed.

Lemma seq_set_error m e : same_seq e (set_error m e).
Proof. done. Qed.

Lemma seq_set_alive b e : same_seq e (set_alive b e).
Proof. done. Qed.

Create HintDb seq discriminated.

#[export] Hint Resolve seq_update_obj seq_update_task seq_deregister
  seq_mark_dead seq_enter_finally seq_refl seq_set_error seq_set_alive : seq.

(** A step that publishes nothing on [l] leaves its counter alone. *)
Lemma silent_step h h' es l e :
  related same_seq h h' -> forallb silent es = true ->
  objs h !! l = Some e ->
  exists e', objs h' !! l = Some e' /\
             frame_seq e' = frame_seq e + Z.of_nat (published l es) /\
             order_ok None es = true.
Proof.
  intros Hr Hs He. destruct (Hr l e He) as (e' & He' & Hq).
  exists e'. rewrite (silent_published l es Hs), (silent_order_ok es Hs).
  unfold same_seq in Hq. repeat split; [done | simpl; lia].
Qed.

Lemma objs_update_obj_ne l f h l' :
  l <> l' -> objs (update_obj l f h) !! l' = objs h !! l'.
Proof. intros Hne. rewrite objs_update_obj. by rewrite decide_False. Qed.

(** The two assignments [entry.frame = frame; entry.frame_seq += 1]. *)
Lemma publish_lookup h le f l e :
  objs h !! l = Some e ->
  exists e2,
    objs (update_obj le (fun e => set_frame_seq (frame_seq e + 1) e)
            (update_obj le (set_frame (Some f)) h)) !! l = Some e2 /\
    frame_seq e2 = frame_seq e + (if Nat.eqb le l then 1 else 0).
Proof.
  intros He. destruct (Nat.eqb_spec le l) as [->|Hne].
  - eexists. split.
    + apply objs_update_obj_eq, objs_update_obj_eq, He.
    + reflexivity.
  - exists e. split; [|lia]. by rewrite !objs_update_obj_ne.
Qed.

Lemma producer_step_seq t ev h h' es l e :
  producer_step t ev h = Some (h', es) -> objs h !! l = Some e ->
  exists e', objs h' !! l = Some e' /\
             frame_seq e' = frame_seq e + Z.of_nat (published l es) /\
             order_ok None es = true.
Proof.
  unfold producer_step. destruct (tasks h !! t) as [k|]; [|done].
  assert (related same_seq h (update_task t (set_cancel false) h)) as R0
    by auto with seq.
  assert (objs (update_task t (set_cancel false) h) !! l = objs h !! l) as O0
    by done.
  destruct (t_pc k), ev; try done.
  - intros [= <- <-] He. eapply silent_step; [|reflexivity|exact He]; auto 6 with seq.
  - pose proof (deregister_silent (t_printer k) (t_entry k)
      (mark_dead (t_entry k) (update_obj (t_entry k) (set_error (Some m))
         (update_task t (set_cancel false) h)))) as Hs.
    pose proof (seq_deregister h
      (mark_dead (t_entry k) (update_obj (t_entry k) (set_error (Some m))
         (update_task t (set_cancel false) h))) (t_printer k) (t_entry k)) as Hd.
    destruct (deregister _ _ _) as [h3 es3]. cbn [fst snd] in *.
    intros [= <- <-] He.
    eapply silent_step;
      [apply seq_update_task, Hd; auto with seq | exact Hs | exact He].
  - destruct (t_cancel k); [|done].
    intros [= <- <-] He. eapply silent_step; [|reflexivity|exact He]; auto 6 with seq.
  - destruct (objs (update_task t (set_cancel false) h) !! t_entry k)
      as [e0|]; [|done].
    destruct (alive e0); simpl.
    + destruct (idle now e0).
      * intros [= <- <-] He.
        destruct (publish_lookup (update_task t (set_cancel false) h)
                    (t_entry k) f l e He) as (e2 & He2 & Hq).
        destruct (seq_enter_finally _
          (update_obj (t_entry k) (set_alive false) _) t (t_entry k)
          (seq_update_obj _ _ (t_entry k) (set_alive false)
             (seq_set_alive false) (seq_refl _)) l e2 He2)
          as (e' & He' & Hq').
        exists e'. split; [exact He'|]. unfold same_seq in Hq'.
        unfold published. simpl. rewrite Nat.eqb_refl. simpl.
        split; [|done]. destruct (Nat.eqb (t_entry k) l); simpl; lia.
      * intros [= <- <-] He.
        destruct (publish_lookup (update_task t (set_cancel false) h)
                    (t_entry k) f l e He) as (e2 & He2 & Hq).
        exists e2. split; [exact He2|].
        unfold published. simpl. rewrite Nat.eqb_refl. simpl.
        split; [|done]. destruct (Nat.eqb (t_entry k) l); simpl; lia.
    + intros [= <- <-] He. eapply silent_step; [|reflexivity|exact He]; auto 6 with seq.
  - intros [= <- <-] He. eapply silent_step; [|reflexivity|exact He]; auto 6 with seq.
  - intros [= <- <-] He. eapply silent_step; [|reflexivity|exact He]; auto 6 with seq.
  - destruct (t_cancel k); [|done].
    intros [= <- <-] He. eapply silent_step; [|reflexivity|exact He]; auto 6 with seq.
  - destruct (t_cancel k); [|done].
    intros [= <- <-] He. eapply silent_step; [|reflexivity|exact He]; auto 6 with seq.
  - pose proof (deregister_silent (t_printer k) (t_entry k)
      (update_task t (set_cancel false) h)) as Hs.
    pose proof (seq_deregister h (update_task t (set_cancel false) h)
      (t_printer k) (t_entry k) R0) as Hd.
    destruct (deregister _ _ _) as [h3 es3]. cbn [fst snd] in *.
    intros [= <- <-] He.
    eapply silent_step; [apply seq_update_task, Hd | exact Hs | exact He].
Qed.

Lemma exec_seq a h h' es l e :
  exec a h = Some (h', es) -> objs h !! l = Some e ->
  exists e', objs h' !! l = Some e' /\
             frame_seq e' = frame_seq e + Z.of_nat (published l es) /\
             order_ok None es = true.
Proof.
  intros E He. destruct (is_producer_label a) eqn:P.
  - destruct a; try done. simpl in E. eapply producer_step_seq; eauto.
  - pose proof (api_silent a h h' es E P) as Hs.
    destruct (exec_extends a h h' es E l e He) as (e' & He' & _).
    destruct (api_writes a h h' es l e e' E P He He') as [Hq _].
    exists e'. rewrite (silent_published l es Hs), (silent_order_ok es Hs).
    split; [exact He'|]. split; [|reflexivity].
    rewrite Hq. simpl. lia.
Qed.

Lemma run_seq tr : forall h h' es l e,
  run tr h = Some (h', es) -> objs h !! l = Some e ->
  exists e', objs h' !! l = Some e' /\
             frame_seq e' = frame_seq e + Z.of_nat (published l es) /\
             order_ok None es = true.
Proof.
  induction tr as [|a tr IH]; simpl; intros h h' es l e.
  - intros [= <- <-] He. exists e. split; [exact He|].
    split; [unfold published; simpl; lia | reflexivity].
  - destruct (exec a h) as [[h1 es1]|] eqn:E1; [|done].
    destruct (run tr h1) as [[h2 es2]|] eqn:E2; [|done].
    intros [= <- <-] He.
    destruct (exec_seq a h h1 es1 l e E1 He) as (e1 & He1 & Hq1 & Ho1).
    destruct (IH h1 h2 es2 l e1 E2 He1) as (e2 & He2 & Hq2 & Ho2).
    exists e2. rewrite published_app. split; [done|].
    split; [lia | by apply order_ok_app].
Qed.

Ltac objs_other :=
  unfold enter_finally, mark_dead; cbn [fst snd];
  repeat first
    [ rewrite objs_update_task
    | rewrite objs_set_streams
    | rewrite objs_update_obj_ne by assumption ];
  try reflexivity.

(** A producer writes to no stream but its own. *)
Lemma producer_step_other t ev h h' es k l :
  tasks h !! t = Some k -> producer_step t ev h = Some (h', es) ->
  l <> t_entry k -> objs h' !! l = objs h !! l.
Proof.
  intros Hk E Hne. unfold producer_step in E. rewrite Hk in E.
  assert (t_entry k <> l) as Hne' by congruence.
  destruct (t_pc k), ev; try done.
  - injection E as <- <-. objs_other.
  - pose proof (objs_deregister (t_printer k) (t_entry k)
      (mark_dead (t_entry k) (update_obj (t_entry k) (set_error (Some m))
         (update_task t (set_cancel false) h)))) as Ho.
    destruct (deregister _ _ _) as [h3 es3]. cbn [fst snd] in Ho.
    injection E as <- <-. rewrite objs_update_task, Ho. objs_other.
  - destruct (t_cancel k); [|done]. injection E as <- <-. objs_other.
  - destruct (objs (update_task t (set_cancel false) h) !! t_entry k)
      as [e0|]; [|done].
    destruct (alive e0); simpl in E; [destruct (idle now e0)|];
      injection E as <- <-; objs_other.
  - injection E as <- <-. objs_other.
  - injection E as <- <-. objs_other.
  - destruct (t_cancel k); [|done]. injection E as <- <-. objs_other.
  - destruct (t_cancel k); [|done]. injection E as <- <-. objs_other.
  - pose proof (objs_deregister (t_printer k) (t_entry k)
      (update_task t (set_cancel false) h)) as Ho.
    destruct (deregister _ _ _) as [h3 es3]. cbn [fst snd] in Ho.
    injection E as <- <-. rewrite objs_update_task, Ho. objs_other.
Qed.

(** Publishing one frame: [entry.frame = frame] and then
    [entry.frame_seq += 1]. *)
Lemma producer_publishes t k e f now h :
  tasks h !! t = Some k -> t_pc k = Reading ->
  objs h !! t_entry k = Some e -> alive e = true -> idle now e = false ->
  exists h',
    producer_step t (Frame f now) h =
      Some (h', [WriteFrame (t_entry k) f; IncrSeq (t_entry k)]) /\
    objs h' !! t_entry k =
      Some (set_frame_seq (frame_seq e + 1) (set_frame (Some f) e)).
Proof.
  intros Hk Hpc He A I. unfold producer_step. rewrite Hk, Hpc.
  rewrite objs_update_task, He, A, I. simpl.
  eexists. split; [reflexivity|].
  apply (objs_update_obj_eq (t_entry k)
           (fun e => set_frame_seq (frame_seq e + 1) e) _
           (set_frame (Some f) e)).
  by apply objs_update_obj_eq.
Qed.

(** ** Viewer *)

Lemma viewer_poll_entry now now' v h :
  v_entry (viewer_poll now now' v h).1.2 = v_entry v.
Proof.
  unfold viewer_poll. destruct (objs h !! v_entry v) as [e|]; [|done].
  destruct (negb (alive e)); [done|].
  destruct (frame_seq e <=? seen_seq v); [done|].
  destruct (frame e); [|done].
  by destruct (negb (Qle_bool _ _)).
Qed.

Lemma viewer_poll_seen now now' v h :
  seen_seq v <= seen_seq (viewer_poll now now' v h).1.2.
Proof.
  unfold viewer_poll. destruct (objs h !! v_entry v) as [e|]; [|simpl; lia].
  destruct (negb (alive e)); [simpl; lia|].
  destruct (Z.leb_spec (frame_seq e) (seen_seq v)); [simpl; lia|].
  destruct (frame e); [|simpl; lia].
  destruct (negb (Qle_bool _ _)); simpl; lia.
Qed.

Lemma viewer_poll_hub now now' v h :
  related same_seq h (viewer_poll now now' v h).2.
Proof.
  unfold viewer_poll. destruct (objs h !! v_entry v) as [e|]; [|apply seq_refl].
  destruct (negb (alive e)); [apply seq_refl|].
  assert (related same_seq h
            (update_obj (v_entry v) (set_last_accessed now) h)) as H
    by (apply seq_update_obj; [done | apply seq_refl]).
  destruct (frame_seq e <=? seen_seq v); [done|].
  destruct (frame e); [|done].
  by destruct (negb (Qle_bool _ _)).
Qed.

Lemma viewer_monotone v h now now' tr h2 es s1 f1 :
  viewer_snapshot v h = Some (s1, f1) ->
  run tr (viewer_poll now now' v h).2 = Some (h2, es) ->
  exists s2 f2,
    viewer_snapshot (viewer_poll now now' v h).1.2 h2 = Some (s2, f2) /\
    s1 <= s2.
Proof.
  unfold viewer_snapshot at 1.
  destruct (objs h !! v_entry v) as [e|] eqn:He; [|done].
  intros [= <- <-] R.
  destruct (viewer_poll_hub now now' v h _ e He) as (e1 & He1 & Hq1).
  destruct (run_seq tr _ h2 es _ e1 R He1) as (e2 & He2 & Hq2 & _).
  unfold viewer_snapshot. rewrite viewer_poll_entry, He2.
  eexists _, _. split; [reflexivity|]. unfold same_seq in Hq1. lia.
Qed.

Lemma hub_published_run :
  run [Producer 0%nat StartOk;
       Producer 0%nat (Frame [xff; xd8; xff; xd9] 1)] hub_one =
  Some (hub_published, [WriteFrame 0%nat [xff; xd8; xff; xd9]; IncrSeq 0%nat]).
Proof. reflexivity. Qed.

Lemma hub_published_reachable : reachable hub_published.
Proof.
  eapply reachable_run; [exact hub_one_reachable | exact hub_published_run].
Defined.

(** C1, as stated, fails: the producer is not the only writer of [frame].
    [stop], an operation of the hub and no producer step, clears the
    frame the producer of printer 1 has published. *)
Lemma producer_not_sole_writer_of_frame :
  ~ (forall a h h' es l e e',
       reachable h -> exec a h = Some (h', es) ->
       objs h !! l = Some e -> objs h' !! l = Some e' ->
       frame e' <> frame e -> is_producer_label a = true).
Proof.
  intros H.
  specialize (H (Stop 1) hub_published (stop 1 hub_published).1.2
                (stop 1 hub_published).2 0%nat).
  specialize (H _ _ hub_published_reachable eq_refl eq_refl eq_refl).
  simpl in H. discriminate H. discriminate.
Qed.

(** C1, amended.  [frame_seq] of a stream is written by nothing but the
    publish step of its own producer, which stores the frame and then
    increments [frame_seq], once per published frame: over any run the
    counter grows by exactly the number of frames published on the
    stream, so it never decreases.  No other operation stores a frame;
    the only other write to [frame] is [stop] clearing it.  A viewer that
    reads [frame_seq] and then [frame] on each poll never sees
    [frame_seq] decrease from one poll to a later one. *)
Theorem frame_seq_monotone :
  (forall tr h h' es l e,
     run tr h = Some (h', es) -> objs h !! l = Some e ->
     exists e', objs h' !! l = Some e' /\
                frame_seq e' = frame_seq e + Z.of_nat (published l es) /\
                frame_seq e <= frame_seq e' /\
                order_ok None es = true) /\
  (forall t k e f now h,
     tasks h !! t = Some k -> t_pc k = Reading ->
     objs h !! t_entry k = Some e -> alive e = true -> idle now e = false ->
     exists h',
       producer_step t (Frame f now) h =
         Some (h', [WriteFrame (t_entry k) f; IncrSeq (t_entry k)]) /\
       objs h' !! t_entry k =
         Some (set_frame_seq (frame_seq e + 1) (set_frame (Some f) e))) /\
  (forall a h h' es l e e',
     exec a h = Some (h', es) -> is_producer_label a = false ->
     objs h !! l = Some e -> objs h' !! l = Some e' ->
     frame_seq e' = frame_seq e /\
     (frame e' = frame e \/ is_stop a = true /\ frame e' = None)) /\
  (forall t ev h h' es k l,
     tasks h !! t = Some k -> producer_step t ev h = Some (h', es) ->
     l <> t_entry k -> objs h' !! l = objs h !! l) /\
  (forall v h now now' tr h2 es s1 f1,
     viewer_snapshot v h = Some (s1, f1) ->
     run tr (viewer_poll now now' v h).2 = Some (h2, es) ->
     exists s2 f2,
       viewer_snapshot (viewer_poll now now' v h).1.2 h2 = Some (s2, f2) /\
       s1 <= s2).
Proof.
  split.
  { intros tr h h' es l e R He.
    destruct (run_seq tr h h' es l e R He) as (e' & He' & Hq & Ho).
    exists e'. repeat split; [done | done | lia | done]. }
  split; [exact producer_publishes|].
  split; [exact api_writes|].
  split; [exact producer_step_other | exact viewer_monotone].
Qed.

Lemma frame_seq_monotone_witness :
  (exists e', objs hub_published !! 0%nat = Some e' /\ frame_seq e' = 1) /\
  (exists h', producer_step 0%nat (Frame [xff; xd8; xff; xd9] 2) hub_published =
                Some (h', [WriteFrame 0%nat [xff; xd8; xff; xd9];
                           IncrSeq 0%nat])) /\
  (forall e', objs (stop 1 hub_published).1.2 !! 0%nat = Some e' ->
              frame_seq e' = 1) /\
  (exists s2 f2,
     viewer_snapshot
       (viewer_poll 0 0 (mkViewer 0%nat (1 # 10) 0 0) hub_one).1.2
       hub_published = Some (s2, f2) /\ 0 <= s2).
Proof.
  destruct frame_seq_monotone as (H1 & H2 & H3 & _ & H5).
  split; [|split; [|split]].
  - destruct (H1 _ hub_one hub_published _ 0%nat _ hub_published_run eq_refl)
      as (e' & He' & Hq & _).
    exists e'. split; [exact He' | exact Hq].
  - destruct (H2 0%nat _ _ [xff; xd8; xff; xd9] 2%Q hub_published
                 eq_refl eq_refl eq_refl eq_refl eq_refl) as (h' & E & _).
    exists h'. exact E.
  - intros e' He'.
    destruct (H3 (Stop 1) hub_published (stop 1 hub_published).1.2
                 (stop 1 hub_published).2 0%nat _ e' eq_refl eq_refl
                 eq_refl He') as [Hq _].
    exact Hq.
  - apply (H5 (mkViewer 0%nat (1 # 10) 0 0) hub_one 0%Q 0%Q
              [Producer 0%nat StartOk;
               Producer 0%nat (Frame [xff; xd8; xff; xd9] 1)]
              hub_published
              [WriteFrame 0%nat [xff; xd8; xff; xd9]; IncrSeq 0%nat]
              0 None); reflexivity.
Defined.

(** ** Producer exit and cleanup *)







(** ** A task is moved by its own events only *)
















(** ** Idle timeout *)




(** ** Binary header *)

Lemma Z_of_byte_of_Z z : Z_of_byte (byte_of_Z z) = z mod 256.
Proof.
  unfold Z_of_byte, byte_of_Z.
  assert (0 <= z mod 256 < 256) as Hr by (apply Z.mod_pos_bound; lia).
  destruct (Byte.of_N (Z.to_N (z mod 256))) as [b|] eqn:E.
  - apply Byte.to_of_N in E. rewrite E. lia.
  - apply Byte.of_N_None_iff in E. lia.
Qed.

Lemma Z_of_byte_range b : 0 <= Z_of_byte b < 256.
Proof. unfold Z_of_byte. pose proof (Byte.to_N_bounded b). lia. Qed.

Lemma pack_u32_le_Some n :
  0 <= n < 2 ^ 32 ->
  pack_u32_le n =
    Some [byte_of_Z (Z.land n 255);
          byte_of_Z (Z.land (Z.shiftr n 8) 255);
          byte_of_Z (Z.land (Z.shiftr n 16) 255);
          byte_of_Z (Z.land (Z.shiftr n 24) 255)].
Proof.
  intros [H0 H1]. unfold pack_u32_le.
  destruct (Z.leb_spec 0 n); [|lia]. destruct (Z.ltb_spec n (2 ^ 32)); [|lia].
  reflexivity.
Qed.

Lemma pack_u32_le_None n : ~ (0 <= n < 2 ^ 32) -> pack_u32_le n = None.
Proof.
  intros H. unfold pack_u32_le.
  destruct (Z.leb_spec 0 n); [|done]. destruct (Z.ltb_spec n (2 ^ 32)); [|done].
  lia.
Qed.

Lemma unpack_pack_u32 n bs :
  pack_u32_le n = Some bs -> length bs = 4%nat /\ unpack_u32_le bs = Some n.
Proof.
  destruct (decide (0 <= n < 2 ^ 32)) as [Hr|Hr].
  - rewrite (pack_u32_le_Some n Hr). intros [= <-]. split; [done|].
    unfold unpack_u32_le. f_equal. rewrite !Z_of_byte_of_Z.
    change 255 with (Z.ones 8).
    rewrite !Z.land_ones, !Z.shiftr_div_pow2, !Z.shiftl_mul_pow2 by lia.
    change (2 ^ 8) with 256. change (2 ^ 16) with 65536.
    change (2 ^ 24) with 16777216. change (2 ^ 32) with 4294967296 in Hr.
    rewrite !Z.mod_mod by lia.
    Z.to_euclidean_division_equations. lia.
  - by rewrite (pack_u32_le_None n Hr).
Qed.

(** C9. The header [struct.pack("<II", pid, len(frame))] is the identity
    followed by the payload length, each as four bytes, least significant
    first; packing succeeds exactly for pairs of values in
    [0, 2^32 - 1], gives 8 bytes, and reading the two little-endian
    words back returns the pair; so for (7, 1234), (0, 0) and
    (2^32 - 1, 2^32 - 1).  The grid stream sends this header, then the
    frame, for a camera whose sequence number advanced. *)
Theorem header_roundtrip :
  (forall a b,
     0 <= a <= 2 ^ 32 - 1 -> 0 <= b <= 2 ^ 32 - 1 ->
     exists x y,
       pack_u32_le a = Some x /\ pack_u32_le b = Some y /\
       struct_pack_II a b = Some (x ++ y) /\
       length x = 4%nat /\ length y = 4%nat /\
       struct_unpack_II (x ++ y) = Some (a, b)) /\
  (forall a b hdr,
     struct_pack_II a b = Some hdr ->
     0 <= a <= 2 ^ 32 - 1 /\ 0 <= b <= 2 ^ 32 - 1 /\ length hdr = 8%nat) /\
  struct_pack_II 7 1234 =
    Some [x07; x00; x00; x00; xd2; x04; x00; x00] /\
  (struct_pack_II 7 1234 ≫= struct_unpack_II) = Some (7, 1234) /\
  (struct_pack_II 0 0 ≫= struct_unpack_II) = Some (0, 0) /\
  (struct_pack_II (2 ^ 32 - 1) (2 ^ 32 - 1) ≫= struct_unpack_II) =
    Some (2 ^ 32 - 1, 2 ^ 32 - 1) /\
  (forall now pid l g h entry f header,
     objs h !! l = Some entry -> alive entry = true ->
     default 0 (seen_seqs g !! pid) < frame_seq entry ->
     frame entry = Some f ->
     struct_pack_II pid (Z.of_nat (length f)) = Some header ->
     exists g' h',
       grid_visit now pid l g h = Some (g', h', [header ++ f]) /\
       struct_unpack_II (take 8 (header ++ f)) =
         Some (pid, Z.of_nat (length f))).
Proof.
  assert (forall a b hdr,
            struct_pack_II a b = Some hdr ->
            exists x y, pack_u32_le a = Some x /\ pack_u32_le b = Some y /\
                        hdr = x ++ y /\ length x = 4%nat /\ length y = 4%nat /\
                        struct_unpack_II hdr = Some (a, b)) as Hinv.
  { intros a b hdr. unfold struct_pack_II.
    destruct (pack_u32_le a) as [x|] eqn:Ea; [|done].
    destruct (pack_u32_le b) as [y|] eqn:Eb; [|done].
    intros [= <-].
    destruct (unpack_pack_u32 a x Ea) as [Lx Ux].
    destruct (unpack_pack_u32 b y Eb) as [Ly Uy].
    exists x, y. repeat split; try done.
    unfold struct_unpack_II.
    rewrite take_app_length' by done. rewrite drop_app_length' by done.
    by rewrite Ux, Uy. }
  split.
  { intros a b Ha Hb.
    assert (0 <= a < 2 ^ 32) as Ha' by lia.
    assert (0 <= b < 2 ^ 32) as Hb' by lia.
    assert (struct_pack_II a b =
            Some ([byte_of_Z (Z.land a 255);
                   byte_of_Z (Z.land (Z.shiftr a 8) 255);
                   byte_of_Z (Z.land (Z.shiftr a 16) 255);
                   byte_of_Z (Z.land (Z.shiftr a 24) 255)] ++
                  [byte_of_Z (Z.land b 255);
                   byte_of_Z (Z.land (Z.shiftr b 8) 255);
                   byte_of_Z (Z.land (Z.shiftr b 16) 255);
                   byte_of_Z (Z.land (Z.shiftr b 24) 255)])) as E.
    { unfold struct_pack_II.
      by rewrite (pack_u32_le_Some a Ha'), (pack_u32_le_Some b Hb'). }
    destruct (Hinv a b _ E) as (x & y & Ea & Eb & Hxy & Lx & Ly & U).
    exists x, y. rewrite E, Hxy in *. done. }
  split.
  { intros a b hdr E.
    destruct (Hinv a b hdr E) as (x & y & Ea & Eb & -> & Lx & Ly & _).
    rewrite length_app, Lx, Ly.
    destruct (decide (0 <= a < 2 ^ 32)) as [?|Hr];
      [|by rewrite (pack_u32_le_None a Hr) in Ea].
    destruct (decide (0 <= b < 2 ^ 32)) as [?|Hr];
      [|by rewrite (pack_u32_le_None b Hr) in Eb].
    repeat split; lia. }
  split; [reflexivity|]. split; [reflexivity|]. split; [reflexivity|].
  split; [reflexivity|].
  intros now pid l g h entry f header He A Hseq Hf Hp.
  unfold grid_visit. rewrite He, A. simpl.
  destruct (Z.leb_spec (frame_seq entry) (default 0 (seen_seqs g !! pid)));
    [lia|].
  rewrite Hf, Hp. eexists _, _. split; [reflexivity|].
  destruct (Hinv _ _ _ Hp) as (x & y & _ & _ & -> & Lx & Ly & U).
  rewrite take_app_length' by (rewrite length_app; lia). exact U.
Qed.

Lemma header_roundtrip_witness :
  (exists x y, struct_pack_II 7 1234 = Some (x ++ y) /\
               struct_unpack_II (x ++ y) = Some (7, 1234)) /\
  (exists x y, struct_pack_II (2 ^ 32 - 1) 0 = Some (x ++ y) /\
               struct_unpack_II (x ++ y) = Some (2 ^ 32 - 1, 0)).
Proof.
  destruct header_roundtrip as (H & _). split.
  - destruct (H 7 1234) as (x & y & _ & _ & E & _ & _ & U); [lia | lia |].
    exists x, y. split; [exact E | exact U].
  - destruct (H (2 ^ 32 - 1) 0) as (x & y & _ & _ & E & _ & _ & U);
      [lia | lia |].
    exists x, y. split; [exact E | exact U].
Defined.

(** ** Frame rates and division *)

Lemma truediv_nonzero a b : b <> 0 -> truediv a b = Some (a / inject_Z b)%Q.
Proof. intros H. unfold truediv. by destruct (Z.eqb_spec b 0). Qed.

Lemma clamp_fps_range hi fps : 1 <= hi -> 1 <= clamp_fps hi fps <= hi.
Proof. unfold clamp_fps. lia. Qed.

Lemma grid_fps_range fps : 1 <= grid_fps fps <= 30.
Proof. unfold grid_fps. lia. Qed.

Lemma viewer_frame_interval_Some fps :
  viewer_frame_interval fps =
  Some (if 0 <? fps then (1 / inject_Z fps)%Q else (1 # 10)%Q).
Proof.
  unfold viewer_frame_interval. destruct (Z.ltb_spec 0 fps); [|done].
  apply truediv_nonzero. lia.
Qed.

Lemma camera_stream_no_exception E db pid fps quality scale now w :
  (camera_stream E db pid fps quality scale now w).1.1 <> None.
Proof.
  unfold camera_stream. destruct (db !! pid) as [printer|]; [|done].
  destruct (external_camera_enabled printer && truthy _).
  - simpl. rewrite truediv_nonzero; [done|].
    pose proof (clamp_fps_range 15 fps). lia.
  - destruct (_ensure_producer _ _ _ _ _ _ _ _ _ _) as [[[l|] w'] es];
      [|done].
    simpl. unfold make_viewer. by rewrite viewer_frame_interval_Some.
Qed.

Lemma camera_grid_stream_no_exception E db ids fps quality scale force now w :
  (camera_grid_stream E db ids fps quality scale force now w).1.1 <> None.
Proof.
  unfold camera_grid_stream. destruct (parse_ids ids) as [[|pid pids]|];
    [done| |done].
  destruct (20 <? length (pid :: pids))%nat; [done|].
  destruct (ensure_all _ _ _ _ _ _ _ _ _ _) as [[[|en ens] w'] es]; [done|].
  simpl. unfold grid_frame_interval. rewrite truediv_nonzero; [done|].
  pose proof (grid_fps_range fps). lia.
Qed.

(** C10. No integer [fps] reaches a division by zero: the viewer takes a
    0.1 s interval instead of [1.0 / fps] when [fps <= 0]; the
    single-camera route clamps [fps] to [1, 5] or [1, 30] (and to [1, 15]
    for an external camera) before any interval is computed from it; the
    grid route clamps [fps] to [1, 30] before it computes its interval;
    neither route ends in an uncaught exception. *)
Theorem no_division_by_zero :
  forall fps : Z,
    truediv 1 0 = None /\
    viewer_frame_interval fps =
      Some (if 0 <? fps then (1 / inject_Z fps)%Q else (1 # 10)%Q) /\
    (forall entry,
       make_viewer entry fps =
         Some {| v_entry := entry;
                 v_frame_interval :=
                   if 0 <? fps then (1 / inject_Z fps)%Q else (1 # 10)%Q;
                 seen_seq := 0; last_yield := 0 |}) /\
    1 <= clamp_fps 5 fps <= 5 /\
    1 <= clamp_fps 30 fps <= 30 /\
    1 <= clamp_fps 15 fps <= 15 /\
    1 <= grid_fps fps <= 30 /\
    grid_frame_interval (grid_fps fps) =
      Some (1 / inject_Z (grid_fps fps))%Q /\
    (forall E db pid quality scale now w,
       (camera_stream E db pid fps quality scale now w).1.1 <> None) /\
    (forall E db ids quality scale force now w,
       (camera_grid_stream E db ids fps quality scale force now w).1.1
         <> None).
Proof.
  intros fps. split; [reflexivity|].
  split; [apply viewer_frame_interval_Some|].
  split; [intros entry; unfold make_viewer;
          by rewrite viewer_frame_interval_Some|].
  split; [apply clamp_fps_range; lia|].
  split; [apply clamp_fps_range; lia|].
  split; [apply clamp_fps_range; lia|].
  split; [apply grid_fps_range|].
  split.
  { unfold grid_frame_interval. apply truediv_nonzero.
    pose proof (grid_fps_range fps). lia. }
  split; [intros; apply camera_stream_no_exception|].
  intros; apply camera_grid_stream_no_exception.
Qed.

(** ** Grid route: capacity *)

(** C8. A grid request whose [ids] parse to more than 20 printer ids is
    answered with the error "Maximum 20 printers per grid stream" (status
    400) and nothing else happens: the hub and the other shared state are
    as before and no task was created.  With at most 20 ids the request
    is not refused for its size. *)
Theorem grid_capacity_rejected :
  (forall E db ids fps quality scale force now w printer_ids,
     parse_ids ids = Some printer_ids ->
     (20 < length printer_ids)%nat ->
     camera_grid_stream E db ids fps quality scale force now w =
       (Some (HTTPException 400 "Maximum 20 printers per grid stream"),
        w, [])) /\
  (forall E db ids fps quality scale force now w printer_ids,
     parse_ids ids = Some printer_ids ->
     (length printer_ids <= 20)%nat ->
     (camera_grid_stream E db ids fps quality scale force now w).1.1 <>
       Some (HTTPException 400 "Maximum 20 printers per grid stream")).
Proof.
  split.
  - intros E db ids fps quality scale force now w pids Hp Hlen.
    unfold camera_grid_stream. rewrite Hp.
    destruct pids as [|pid pids]; [simpl in Hlen; lia|].
    destruct (Nat.ltb_spec 20 (length (pid :: pids))); [done | lia].
  - intros E db ids fps quality scale force now w pids Hp Hlen.
    unfold camera_grid_stream. rewrite Hp.
    destruct pids as [|pid pids]; [done|].
    destruct (Nat.ltb_spec 20 (length (pid :: pids))); [lia|].
    destruct (ensure_all _ _ _ _ _ _ _ _ _ _) as [[[|en ens] w'] es]; [done|].
    simpl. by destruct (grid_frame_interval _).
Qed.

Lemma grid_capacity_rejected_witness :
  camera_grid_stream env_example db_example
      "1,2,3,4,5,6,7,8,9,10,11,12,13,14,15,16,17,18,19,20,21"
      5 15 (1 # 2) false 3 world_one =
    (Some (HTTPException 400 "Maximum 20 printers per grid stream"),
     world_one, []) /\
  (camera_grid_stream env_example db_example "1, 2" 5 15 (1 # 2) false 3
      world_one).1.1 <>
    Some (HTTPException 400 "Maximum 20 printers per grid stream").
Proof.
  destruct grid_capacity_rejected as [H1 H2]. split.
  - eapply H1; [reflexivity | simpl; lia].
  - eapply H2; [reflexivity | simpl; lia].
Defined.

(** ** Grid multiplexer *)

Lemma hub_replaced_state :
  is_active 1 hub_replaced = true /\
  get_entry hub_replaced 1 =
    Some (1%nat,
          {| frame := Some [xff; xd8; x00; xff; xd9]; frame_seq := 1;
             task := Some 1%nat; error := None; alive := true;
             last_accessed := 2; params_key := "30-5-1.0" |}) /\
  (alive <$> objs hub_replaced !! 0%nat) = Some false.
Proof. repeat split. Qed.

(** C7, as stated, fails: on finding the old stream of printer 1 dead the
    multiplexer leaves the last-seen sequence number of printer 1 at 1. *)
Lemma grid_seen_seq_not_reset :
  ~ (forall now pid l g h e g' h' out,
       objs h !! l = Some e -> alive e = false ->
       grid_visit now pid l g h = Some (g', h', out) ->
       seen_seqs g' !! pid = Some 0).
Proof.
  intros H.
  specialize (H 5%Q 1 0%nat grid_seen hub_replaced _ _ _ _
                eq_refl eq_refl eq_refl).
  vm_compute in H. discriminate H.
Qed.

Lemma grid_visit_dead now pid l g h e :
  objs h !! l = Some e -> alive e = false ->
  grid_visit now pid l g h =
    Some ({| entries := dict_pop pid (entries g); seen_seqs := seen_seqs g |},
          h, []).
Proof. intros He A. unfold grid_visit. by rewrite He, A. Qed.

Lemma dict_pop_absent {V} pid (d : list (Z * V)) l : ~ In (pid, l) (dict_pop pid d).
Proof.
  unfold dict_pop. rewrite List.filter_In. simpl. intros [_ H].
  by rewrite Z.eqb_refl in H.
Qed.

Lemma dict_pop_In {V} pid (d : list (Z * V)) kv :
  In kv (dict_pop pid d) -> In kv d.
Proof. unfold dict_pop. rewrite List.filter_In. tauto. Qed.

Lemma dict_pop_other {V} pid (d : list (Z * V)) p l :
  p <> pid -> In (p, l) d -> In (p, l) (dict_pop pid d).
Proof.
  intros Hne Hin. unfold dict_pop. rewrite List.filter_In. split; [done|].
  simpl. apply negb_true_iff, Z.eqb_neq. done.
Qed.

(** What one visit can do: keep the rotation or drop [pid] from it; emit
    nothing or one chunk for [pid]; write nothing but [last_accessed];
    change the last-seen number of no other printer. *)
Lemma grid_visit_spec now pid l g h g1 h1 out1 :
  grid_visit now pid l g h = Some (g1, h1, out1) ->
  (entries g1 = entries g \/ entries g1 = dict_pop pid (entries g)) /\
  (out1 = [] \/ exists chunk, out1 = [chunk] /\ chunk_for pid chunk) /\
  (forall p, p <> pid -> seen_seqs g1 !! p = seen_seqs g !! p) /\
  related (fun e e' => alive e' = alive e) h h1.
Proof.
  assert (related (fun e e' => alive e' = alive e) h h) as Hrefl
    by (intros ? ? ?; eauto).
  assert (related (fun e e' => alive e' = alive e) h
            (update_obj l (set_last_accessed now) h)) as Htouch.
  { apply related_update_obj; [done|congruence|done|exact Hrefl]. }
  unfold grid_visit. destruct (objs h !! l) as [e|].
  - destruct (alive e); simpl.
    + destruct (frame_seq e <=? default 0 (seen_seqs g !! pid)).
      * intros [= <- <- <-]. auto.
      * destruct (frame e) as [f|]; [|intros [= <- <- <-]; auto].
        destruct (struct_pack_II pid (Z.of_nat (length f))) as [hd|] eqn:P;
          [|done].
        intros [= <- <- <-]. simpl. split; [auto|]. split.
        -- right. exists (hd ++ f). split; [done|]. by exists f, hd.
        -- split; [|done]. intros p Hp. by rewrite lookup_insert_ne.
    + intros [= <- <- <-]. auto.
  - intros [= <- <- <-]. auto.
Qed.

Definition foreign (pid : Z) (chunk : list byte) : Prop :=
  exists pid', pid' <> pid /\ chunk_for pid' chunk.

(** A printer that is not in the items of a pass gets nothing from it. *)
Lemma grid_for_absent now pid items : forall g h g' h' out,
  (forall l, ~ In (pid, l) items) ->
  grid_for now items g h = Some (g', h', out) ->
  (forall kv, In kv (entries g') -> In kv (entries g)) /\
  seen_seqs g' !! pid = seen_seqs g !! pid /\
  Forall (foreign pid) out.
Proof.
  induction items as [|[p l] items IH]; simpl; intros g h g' h' out Hab.
  - intros [= <- <- <-]. auto.
  - destruct (grid_visit now p l g h) as [[[g1 h1] out1]|] eqn:V; [|done].
    destruct (grid_for now items g1 h1) as [[[g2 h2] out2]|] eqn:F; [|done].
    intros [= <- <- <-].
    assert (p <> pid) as Hne by (intros ->; apply (Hab l); by left).
    destruct (grid_visit_spec now p l g h g1 h1 out1 V)
      as (Hent & Hout & Hseen & _).
    destruct (IH g1 h1 g2 h2 out2) as (Hsub & Hs2 & Hf2);
      [intros l0 H0; apply (Hab l0); by right | done |].
    split; [|split].
    + intros kv Hkv. apply Hsub in Hkv.
      destruct Hent as [Hx|Hx]; rewrite Hx in Hkv;
        [done | by eapply dict_pop_In].
    + rewrite Hs2. apply Hseen. congruence.
    + apply Forall_app. split; [|done].
      destruct Hout as [-> | (chunk & -> & Hc)]; [constructor|].
      constructor; [|constructor]. by exists p.
Qed.

(** Nothing is sent for a printer that is not in the rotation, on any
    schedule of the connection: the rotation never takes a printer in. *)
Lemma grid_run_absent pid sched : forall g h g' h' out,
  (forall l, ~ In (pid, l) (entries g)) ->
  grid_run sched g h = Some (g', h', out) ->
  (forall l, ~ In (pid, l) (entries g')) /\
  seen_seqs g' !! pid = seen_seqs g !! pid /\
  Forall (foreign pid) out.
Proof.
  induction sched as [|[now tr] sched IH]; simpl; intros g h g' h' out Hab.
  - intros [= <- <- <-]. auto.
  - destruct (grid_cycle now g h) as [[[g1 h1] out1]|] eqn:C; [|done].
    destruct (grid_for_absent now pid (entries g) g h g1 h1 out1 Hab C)
      as (Hsub & Hs1 & Hf1).
    assert (forall l, ~ In (pid, l) (entries g1)) as Hab1
      by (intros l Hl; apply (Hab l); by apply Hsub).
    destruct (entries g1) as [|en ens] eqn:En.
    + intros [= <- <- <-]. rewrite En. auto.
    + destruct (run tr h1) as [[h2 es2]|]; [|done].
      destruct (grid_run sched g1 h2) as [[[g3 h3] out3]|] eqn:G; [|done].
      intros [= <- <- <-].
      destruct (IH g1 h2 g3 h3 out3) as (Hab3 & Hs3 & Hf3);
        [by rewrite En | done |].
      split; [done|]. split; [congruence|]. apply Forall_app. auto.
Qed.

(** A pass over a snapshot that holds printer [pid] with a dead stream. *)
Lemma grid_for_dead now pid l items : forall g h e g' h' out,
  NoDup (map fst items) -> In (pid, l) items ->
  objs h !! l = Some e -> alive e = false ->
  grid_for now items g h = Some (g', h', out) ->
  (forall l0, ~ In (pid, l0) (entries g')) /\
  seen_seqs g' !! pid = seen_seqs g !! pid /\
  Forall (foreign pid) out.
Proof.
  induction items as [|[p l0] items IH]; simpl; intros g h e g' h' out Hnd Hin He A;
    [done|].
  apply NoDup_cons in Hnd as [Hp Hnd].
  destruct (grid_visit now p l0 g h) as [[[g1 h1] out1]|] eqn:V; [|done].
  destruct (grid_for now items g1 h1) as [[[g2 h2] out2]|] eqn:F; [|done].
  intros [= <- <- <-]. destruct Hin as [[= -> ->]|Hin].
  - rewrite (grid_visit_dead now pid l g h e He A) in V.
    injection V as <- <- <-.
    assert (forall l1, ~ In (pid, l1) items) as Hab.
    { intros l1 H1. apply Hp. apply list_elem_of_In.
      apply (in_map fst) in H1. exact H1. }
    destruct (grid_for_absent now pid items _ _ _ _ _ Hab F)
      as (Hsub & Hs & Hf).
    split; [|by split].
    intros l1 H1. apply Hsub in H1. simpl in H1. by eapply dict_pop_absent.
  - assert (p <> pid) as Hne.
    { intros ->. apply Hp. apply list_elem_of_In.
      apply (in_map fst) in Hin. exact Hin. }
    destruct (grid_visit_spec now p l0 g h g1 h1 out1 V)
      as (_ & Hout & Hseen & Hrel).
    destruct (Hrel l e He) as (e1 & He1 & Ha1).
    destruct (IH g1 h1 e1 g2 h2 out2 Hnd Hin He1) as (Hab & Hs & Hf);
      [congruence | done |].
    split; [done|]. split; [rewrite Hs; apply Hseen; congruence|].
    apply Forall_app. split; [|done].
    destruct Hout as [-> | (chunk & -> & Hc)]; [constructor|].
    constructor; [|constructor]. by exists p.
Qed.

Lemma grid_init_zero es pid l :
  In (pid, l) es -> seen_seqs (grid_init es) !! pid = Some 0.
Proof.
  unfold grid_init, dict_keys. simpl.
  induction es as [|[p l0] es IH]; [done|]. simpl.
  destruct (decide (p = pid)) as [->|Hne].
  - intros _. apply lookup_insert_eq.
  - intros [[= ? ?]|Hin]; [done|]. rewrite lookup_insert_ne by done. auto.
Qed.

(** C7, amended.  When the grid multiplexer finds the stream of a camera
    dead it drops the camera from its rotation, emits nothing for it and
    leaves its last-seen sequence number as it is; the rotation never
    takes a camera in, so for the rest of the connection, whatever the
    hub does meanwhile (a replacement producer publishing frames
    included), nothing is sent for that camera.  Last-seen sequence
    numbers are 0 at the start of a connection only. *)
Theorem grid_drops_dead_camera :
  (forall now pid l g h e,
     objs h !! l = Some e -> alive e = false ->
     grid_visit now pid l g h =
       Some ({| entries := dict_pop pid (entries g);
                seen_seqs := seen_seqs g |}, h, [])) /\
  (forall now g h g' h' out pid l e,
     NoDup (dict_keys (entries g)) -> In (pid, l) (entries g) ->
     objs h !! l = Some e -> alive e = false ->
     grid_cycle now g h = Some (g', h', out) ->
     (forall l0, ~ In (pid, l0) (entries g')) /\
     seen_seqs g' !! pid = seen_seqs g !! pid /\
     Forall (foreign pid) out) /\
  (forall pid sched g h g' h' out,
     (forall l, ~ In (pid, l) (entries g)) ->
     grid_run sched g h = Some (g', h', out) ->
     (forall l, ~ In (pid, l) (entries g')) /\
     seen_seqs g' !! pid = seen_seqs g !! pid /\
     Forall (foreign pid) out) /\
  (forall es pid l,
     In (pid, l) es -> seen_seqs (grid_init es) !! pid = Some 0).
Proof.
  split; [exact grid_visit_dead|].
  split.
  { intros now g h g' h' out pid l e Hnd Hin He A C.
    eapply (grid_for_dead now pid l (entries g)); eauto. }
  split; [exact grid_run_absent | exact grid_init_zero].
Qed.

Lemma grid_drops_dead_camera_witness :
  grid_visit 5 1 0%nat grid_seen hub_replaced =
    Some ({| entries := []; seen_seqs := {[ 1 := 1 ]} |}, hub_replaced, []) /\
  is_active 1 hub_replaced = true /\
  ((forall l0, ~ In (1, l0) (@nil (Z * nat))) /\
   seen_seqs {| entries := []; seen_seqs := {[ 1 := 1 ]} |} !! 1 =
     seen_seqs grid_seen !! 1 /\
   Forall (foreign 1) []) /\
  (forall g' h' out,
     grid_run [(6%Q, [Producer 1%nat (Frame [xff; xd8; x01; xff; xd9] 6)]);
               (7%Q, [])]
              {| entries := []; seen_seqs := {[ 1 := 1 ]} |} hub_replaced =
       Some (g', h', out) ->
     Forall (foreign 1) out) /\
  seen_seqs (grid_init [(1, 1%nat)]) !! 1 = Some 0.
Proof.
  destruct grid_drops_dead_camera as (H1 & H2 & H3 & H4).
  split; [|split; [|split; [|split]]].
  - exact (H1 5%Q 1 0%nat grid_seen hub_replaced _ eq_refl eq_refl).
  - reflexivity.
  - apply (H2 5%Q grid_seen hub_replaced
              {| entries := []; seen_seqs := {[ 1 := 1 ]} |} hub_replaced []
              1 0%nat _ (NoDup_singleton 1) (or_introl eq_refl)
              eq_refl eq_refl eq_refl).
  - intros g' h' out R.
    apply (H3 1 _ {| entries := []; seen_seqs := {[ 1 := 1 ]} |}
              hub_replaced g' h' out (fun l H => H) R).
  - apply (H4 [(1, 1%nat)] 1 1%nat). by left.
Defined.

(** ** MJPEG parser: searching *)

Lemma starts_with_length sub buf :
  starts_with sub buf = true -> (length sub <= length buf)%nat.
Proof.
  revert buf. induction sub as [|a sub IH]; intros [|b buf]; simpl;
    try done; try lia.
  intros [_ H]%andb_true_iff. apply IH in H. lia.
Qed.

Lemma starts_with_app sub buf c :
  (length sub <= length buf)%nat ->
  starts_with sub (buf ++ c) = starts_with sub buf.
Proof.
  revert buf. induction sub as [|a sub IH]; intros [|b buf]; simpl;
    try done; try lia.
  intros H. rewrite IH by lia. done.
Qed.

Lemma find_at_bound sub buf i :
  find_at sub buf = Some i -> (i + length sub <= length buf)%nat.
Proof.
  revert i. induction buf as [|b buf IH]; intros i; simpl.
  - destruct (starts_with sub []) eqn:S; [|done].
    intros [= <-]. apply starts_with_length in S. simpl in *. lia.
  - destruct (starts_with sub (b :: buf)) eqn:S.
    + intros [= <-]. apply starts_with_length in S. simpl in *. lia.
    + destruct (find_at sub buf) as [j|]; [|done]. intros [= <-].
      specialize (IH j eq_refl). lia.
Qed.

Lemma find_at_starts sub buf i :
  find_at sub buf = Some i -> starts_with sub (drop i buf) = true.
Proof.
  revert i. induction buf as [|b buf IH]; intros i; simpl.
  - destruct (starts_with sub []) eqn:S; [|done]. by intros [= <-].
  - destruct (starts_with sub (b :: buf)) eqn:S; [by intros [= <-]|].
    destruct (find_at sub buf) as [j|]; [|done]. intros [= <-].
    simpl. by apply IH.
Qed.

(** The first occurrence stays the first one when bytes are appended. *)
Lemma find_at_Some_app sub buf c i :
  find_at sub buf = Some i -> find_at sub (buf ++ c) = Some i.
Proof.
  revert i. induction buf as [|b buf IH]; intros i; simpl.
  - destruct (starts_with sub []) eqn:S; [|done]. intros [= <-].
    destruct sub; [|done]. by destruct c.
  - destruct (starts_with sub (b :: buf)) eqn:S.
    + intros [= <-].
      change (b :: buf ++ c) with ((b :: buf) ++ c).
      rewrite starts_with_app, S; [done|]. by apply starts_with_length.
    + destruct (find_at sub buf) as [j|] eqn:F; [|done]. intros [= <-].
      pose proof (find_at_bound sub buf j F).
      change (b :: buf ++ c) with ((b :: buf) ++ c).
      rewrite starts_with_app, S by (simpl; lia).
      by rewrite (IH j eq_refl).
Qed.

Lemma find_at_starts_zero sub buf :
  starts_with sub buf = true -> find_at sub buf = Some 0%nat.
Proof. intros S. destruct buf; simpl; by rewrite S. Qed.

(** Without an occurrence of a two-byte marker, only the last byte of the
    buffer matters for what is appended. *)
Lemma find_at_None_app a b buf c :
  find_at [a; b] buf = None ->
  find_at [a; b] (buf ++ c) =
  (fun j => (length buf - 1 + j)%nat) <$>
    find_at [a; b] (drop (length buf - 1) buf ++ c).
Proof.
  induction buf as [|x buf IH]; intros Hn.
  - change (drop (length (@nil byte) - 1) [] ++ c) with c.
    change ([] ++ c) with c. by destruct (find_at [a; b] c).
  - destruct buf as [|y buf].
    + change (drop (length [x] - 1) [x]) with [x].
      by destruct (find_at [a; b] ([x] ++ c)).
    + assert (starts_with [a; b] (x :: y :: buf) = false) as Hs.
      { simpl in Hn. simpl. destruct (Byte.eqb a x && _); [done|done]. }
      assert (find_at [a; b] (y :: buf) = None) as Hn'.
      { simpl in Hn. revert Hn. simpl.
        destruct (Byte.eqb a x && _); [done|].
        destruct (Byte.eqb a y && _); [done|].
        by destruct (find_at [a; b] buf). }
      specialize (IH Hn').
      change ((x :: y :: buf) ++ c) with (x :: ((y :: buf) ++ c)).
      assert (find_at [a; b] (x :: (y :: buf) ++ c) =
              S <$> find_at [a; b] ((y :: buf) ++ c)) as ->.
      { simpl. simpl in Hs. by rewrite Hs. }
      rewrite IH.
      replace (length (x :: y :: buf) - 1)%nat
        with (S (length (y :: buf) - 1)) by (simpl; lia).
      simpl drop. rewrite <- option_fmap_compose.
      apply option_fmap_ext. intros j. simpl. lia.
Qed.

(** ** MJPEG parser: one scan, and the loop *)

Lemma scan_once_eq buf :
  scan_once buf =
  match find_at jpeg_start buf with
  | None => NoStart (drop (length buf - 1) buf)
  | Some i =>
      match find_at jpeg_end (drop 2 (drop i buf)) with
      | None => NoEnd (drop i buf)
      | Some j => Found (take (j + 4) (drop i buf)) (drop (j + 4) (drop i buf))
      end
  end.
Proof.
  unfold scan_once, py_find, del_prefix. rewrite drop_0.
  destruct (find_at jpeg_start buf) as [i|].
  - destruct (Z.eqb_spec (Z.of_nat (0 + i)) (-1)); [lia|].
    assert ((if 0 <? Z.of_nat (0 + i)
             then drop (Z.to_nat (Z.of_nat (0 + i))) buf else buf) =
            drop i buf) as ->.
    { destruct (Z.ltb_spec 0 (Z.of_nat (0 + i))).
      - f_equal. lia.
      - assert (i = 0%nat) as -> by lia. by rewrite drop_0. }
    destruct (find_at jpeg_end (drop 2 (drop i buf))) as [j|].
    + destruct (Z.eqb_spec (Z.of_nat (2 + j)) (-1)); [lia|].
      replace (Z.to_nat (Z.of_nat (2 + j) + 2)) with (j + 4)%nat by lia.
      done.
    + done.
  - simpl. f_equal. f_equal. lia.
Qed.

Lemma extract_eq buf :
  extract buf =
  match scan_once buf with
  | NoStart b | NoEnd b => ([], b)
  | Found f rest => let '(fs, b) := extract rest in (f :: fs, b)
  end.
Proof.
  funelim (extract buf);
    match goal with H : scan_once _ = _ |- _ => rewrite H end; reflexivity.
Qed.

Lemma jpeg_start_prefix i buf :
  find_at jpeg_start buf = Some i ->
  exists rest, drop i buf = jpeg_start ++ rest.
Proof.
  intros F. apply find_at_starts in F. unfold jpeg_start in *.
  destruct (drop i buf) as [|x [|y rest]]; simpl in F; try done.
  - by rewrite andb_false_r in F.
  - apply andb_true_iff in F as [Hx Hy]. rewrite andb_true_r in Hy.
    apply Byte.byte_dec_bl in Hx, Hy. subst. by exists rest.
Qed.

(** Appending bytes to the buffer commutes with the scan loop: what was
    cut out stays cut out, and the loop goes on from what was left. *)
Lemma extract_app c : forall n buf,
  (length buf <= n)%nat ->
  extract (buf ++ c) =
  (let '(fs2, b2) := extract ((extract buf).2 ++ c) in
   ((extract buf).1 ++ fs2, b2)).
Proof.
  induction n as [|n IH]; intros buf Hlen.
  - destruct buf; [|simpl in Hlen; lia]. simpl.
    rewrite (extract_eq []). simpl. by destruct (extract c).
  - rewrite (extract_eq buf), (extract_eq (buf ++ c)).
    rewrite (scan_once_eq buf), (scan_once_eq (buf ++ c)).
    destruct (find_at jpeg_start buf) as [i|] eqn:Fs.
    + pose proof (find_at_bound _ _ _ Fs) as Hi. simpl in Hi.
      destruct (jpeg_start_prefix i buf Fs) as [rest Hb].
      rewrite (find_at_Some_app _ _ c _ Fs).
      rewrite drop_app_le by lia. rewrite Hb.
      change (drop 2 (jpeg_start ++ rest)) with rest.
      change (drop 2 ((jpeg_start ++ rest) ++ c)) with (rest ++ c).
      destruct (find_at jpeg_end rest) as [j|] eqn:Fe.
      * pose proof (find_at_bound _ _ _ Fe) as Hj. simpl in Hj.
        rewrite (find_at_Some_app _ _ c _ Fe).
        assert (length (jpeg_start ++ rest) = S (S (length rest))) as Hl
          by done.
        rewrite take_app_le, drop_app_le by lia.
        assert (length (drop (j + 4) (jpeg_start ++ rest)) <= n)%nat as Hn.
        { rewrite length_drop, Hl.
          assert (length (drop i buf) = length buf - i)%nat
            by apply length_drop.
          rewrite Hb, Hl in *. lia. }
        rewrite (IH _ Hn).
        destruct (extract (drop (j + 4) (jpeg_start ++ rest))) as [fs1 b1].
        simpl. by destruct (extract (b1 ++ c)).
      * cbn [fst snd].
        transitivity (extract ((jpeg_start ++ rest) ++ c));
          [|by destruct (extract _)].
        rewrite (extract_eq ((jpeg_start ++ rest) ++ c)).
        rewrite (scan_once_eq ((jpeg_start ++ rest) ++ c)).
        assert (find_at jpeg_start ((jpeg_start ++ rest) ++ c) = Some 0%nat)
          as -> by done.
        rewrite drop_0. done.
    + cbn [fst snd].
      transitivity (extract (drop (length buf - 1) buf ++ c));
        [|by destruct (extract _)].
      rewrite (extract_eq (drop (length buf - 1) buf ++ c)).
      rewrite (scan_once_eq (drop (length buf - 1) buf ++ c)).
      pose proof (find_at_None_app xff xd8 buf c Fs) as Happ.
      change [xff; xd8] with jpeg_start in Happ. rewrite Happ.
      assert (buf ++ c = take (length buf - 1) buf ++
                         (drop (length buf - 1) buf ++ c)) as Hsplit
        by (by rewrite app_assoc, take_drop).
      destruct (find_at jpeg_start (drop (length buf - 1) buf ++ c))
        as [j|]; cbn [fmap option_fmap option_map].
      * assert (drop (length buf - 1 + j) (buf ++ c) =
                drop j (drop (length buf - 1) buf ++ c)) as ->.
        { rewrite Hsplit at 1. rewrite drop_app_ge by (rewrite length_take; lia).
          f_equal. rewrite length_take. lia. }
        done.
      * assert (drop (length (buf ++ c) - 1) (buf ++ c) =
                drop (length (drop (length buf - 1) buf ++ c) - 1)
                     (drop (length buf - 1) buf ++ c)) as ->; [|done].
        rewrite Hsplit at 2.
        rewrite drop_app_ge by (rewrite length_take, length_app; lia).
        f_equal. repeat rewrite ?length_app, ?length_take, ?length_drop. lia.
Qed.

(** ** MJPEG parser: chunked input *)

Lemma feed_spec raw cs : forall c b,
  Forall (fun c => c <> []) (c :: cs) ->
  feed raw (c :: cs) b =
  (let '(fs, b') := extract (b ++ concat (c :: cs)) in
   (map (emit raw) fs, b')).
Proof.
  induction cs as [|c2 cs IH]; intros c b Hne.
  - apply Forall_cons in Hne as [Hc _]. destruct c as [|x c]; [done|].
    simpl. rewrite app_nil_r. destruct (extract (b ++ x :: c)) as [fs b'].
    by rewrite app_nil_r.
  - apply Forall_cons in Hne as [Hc Hne]. destruct c as [|x c]; [done|].
    change (feed raw ((x :: c) :: c2 :: cs) b) with
      (let '(fs, buffer') := extract (b ++ x :: c) in
       let '(out, buffer'') := feed raw (c2 :: cs) buffer' in
       (map (emit raw) fs ++ out, buffer'')).
    change (concat ((x :: c) :: c2 :: cs))
      with ((x :: c) ++ concat (c2 :: cs)).
    rewrite app_assoc.
    rewrite (extract_app (concat (c2 :: cs)) _ (b ++ x :: c) (le_n _)).
    destruct (extract (b ++ x :: c)) as [fs1 b1]. cbn [fst snd].
    rewrite (IH c2 b1 Hne).
    destruct (extract (b1 ++ concat (c2 :: cs))) as [fs2 b2].
    by rewrite map_app.
Qed.

Lemma last_byte_cases (g : list byte) :
  (g = [] /\ drop (length g - 1) g = []) \/
  (exists x, drop (length g - 1) g = [x] /\ (1 <= length g)%nat).
Proof.
  pose proof (length_drop g (length g - 1)) as Hl.
  destruct (drop (length g - 1) g) as [|x [|y r]] eqn:D; simpl in Hl.
  - left. split; [|done]. destruct g; [done | simpl in Hl; lia].
  - right. exists x. split; [done | lia].
  - lia.
Qed.

Lemma find_start_after_garbage g rest :
  find_at jpeg_start g = None ->
  find_at jpeg_start (g ++ jpeg_start ++ rest) = Some (length g).
Proof.
  intros Hn. pose proof (find_at_None_app xff xd8 g (jpeg_start ++ rest) Hn) as H.
  change [xff; xd8] with jpeg_start in H. rewrite H.
  destruct (last_byte_cases g) as [[-> ->]|(x & -> & Hlen)]; [done|].
  assert (find_at jpeg_start ([x] ++ jpeg_start ++ rest) = Some 1%nat) as ->.
  { unfold jpeg_start. simpl. by rewrite andb_false_r. }
  simpl. f_equal. lia.
Qed.

Lemma find_at_cons sub x buf :
  find_at sub (x :: buf) =
  if starts_with sub (x :: buf) then Some 0%nat else S <$> find_at sub buf.
Proof. reflexivity. Qed.

Lemma find_end_in_frame body rest :
  find_at jpeg_end (body ++ [xff]) = None ->
  find_at jpeg_end (body ++ jpeg_end ++ rest) = Some (length body).
Proof.
  induction body as [|x body IH]; intros Hn; [done|].
  change ((x :: body) ++ [xff]) with (x :: (body ++ [xff])) in Hn.
  rewrite find_at_cons in Hn.
  destruct (starts_with jpeg_end (x :: body ++ [xff])) eqn:Hs0; [done|].
  assert (find_at jpeg_end (body ++ [xff]) = None) as Hn'
    by (by destruct (find_at jpeg_end (body ++ [xff]))).
  assert (starts_with jpeg_end (x :: body ++ jpeg_end ++ rest) = false) as Hs.
  { unfold jpeg_end in *.
    destruct body as [|y body]; simpl in *; [|exact Hs0].
    by rewrite andb_false_r. }
  change ((x :: body) ++ jpeg_end ++ rest)
    with (x :: (body ++ jpeg_end ++ rest)).
  rewrite find_at_cons, Hs, (IH Hn'). done.
Qed.

Lemma scan_frame g body rest :
  find_at jpeg_start g = None ->
  find_at jpeg_end (body ++ [xff]) = None ->
  scan_once (g ++ (jpeg_start ++ body ++ jpeg_end) ++ rest) =
  Found (jpeg_start ++ body ++ jpeg_end) rest.
Proof.
  intros Hg Hb. rewrite scan_once_eq.
  assert (g ++ (jpeg_start ++ body ++ jpeg_end) ++ rest =
          g ++ jpeg_start ++ (body ++ jpeg_end ++ rest)) as Hd
    by (by rewrite <- !app_assoc).
  rewrite Hd, (find_start_after_garbage g _ Hg).
  rewrite drop_app_length.
  change (drop 2 (jpeg_start ++ body ++ jpeg_end ++ rest))
    with (body ++ jpeg_end ++ rest).
  rewrite (find_end_in_frame body rest Hb).
  assert (jpeg_start ++ body ++ jpeg_end ++ rest =
          (jpeg_start ++ body ++ jpeg_end) ++ rest) as ->
    by (by rewrite <- !app_assoc).
  assert (length (jpeg_start ++ body ++ jpeg_end) = (length body + 4)%nat) as Hl
    by (rewrite !length_app; simpl; lia).
  rewrite take_app_length' by (by rewrite Hl).
  rewrite drop_app_length' by (by rewrite Hl). done.
Qed.

Lemma scan_partial tail :
  find_at jpeg_end tail = None ->
  scan_once (jpeg_start ++ tail) = NoEnd (jpeg_start ++ tail).
Proof.
  intros Ht. rewrite scan_once_eq.
  assert (find_at jpeg_start (jpeg_start ++ tail) = Some 0%nat) as -> by done.
  rewrite drop_0. change (drop 2 (jpeg_start ++ tail)) with tail.
  by rewrite Ht.
Qed.

(** The whole stream at once. *)
Lemma extract_stream garbage body1 body2 tail :
  find_at jpeg_start garbage = None ->
  find_at jpeg_end (body1 ++ [xff]) = None ->
  find_at jpeg_end (body2 ++ [xff]) = None ->
  find_at jpeg_end tail = None ->
  extract (garbage ++ (jpeg_start ++ body1 ++ jpeg_end) ++
           (jpeg_start ++ body2 ++ jpeg_end) ++ (jpeg_start ++ tail)) =
  ([jpeg_start ++ body1 ++ jpeg_end; jpeg_start ++ body2 ++ jpeg_end],
   jpeg_start ++ tail).
Proof.
  intros Hg H1 H2 Ht.
  rewrite extract_eq, (scan_frame garbage body1 _ Hg H1).
  pose proof (scan_frame [] body2 (jpeg_start ++ tail) eq_refl H2) as Hf2.
  rewrite app_nil_l in Hf2.
  rewrite extract_eq, Hf2.
  rewrite extract_eq, (scan_partial tail Ht). done.
Qed.

Lemma concat_singletons (data : list byte) :
  concat (map (fun b => [b]) data) = data.
Proof. induction data as [|x data IH]; [done|]. simpl. by rewrite IH. Qed.

Lemma py_find_none buf sub :
  py_find buf sub 0 = -1 -> find_at sub buf = None.
Proof.
  unfold py_find. rewrite drop_0. destruct (find_at sub buf); [lia|done].
Qed.

(** C4. Fed the bytes of garbage without a start marker, two frames
    [FF D8 ... FF D9] (each ending at the first end marker after its
    start marker) and a partial frame [FF D8 ...] without an end marker,
    cut into non-empty chunks in any way, one byte at a time included,
    the parser yields exactly the two frames, byte for byte and in
    order, and keeps the partial frame as its buffer.  A buffer without
    a start marker is cut down to its last byte; the end marker is
    searched from two bytes after the start marker. *)
Theorem mjpeg_extraction :
  (forall raw garbage body1 body2 tail chunks,
     find_at jpeg_start garbage = None ->
     find_at jpeg_end (body1 ++ [xff]) = None ->
     find_at jpeg_end (body2 ++ [xff]) = None ->
     find_at jpeg_end tail = None ->
     Forall (fun c => c <> []) chunks ->
     concat chunks =
       garbage ++ (jpeg_start ++ body1 ++ jpeg_end) ++
       (jpeg_start ++ body2 ++ jpeg_end) ++ (jpeg_start ++ tail) ->
     feed raw chunks [] =
       ([emit raw (jpeg_start ++ body1 ++ jpeg_end);
         emit raw (jpeg_start ++ body2 ++ jpeg_end)],
        jpeg_start ++ tail)) /\
  (forall raw garbage body1 body2 tail,
     find_at jpeg_start garbage = None ->
     find_at jpeg_end (body1 ++ [xff]) = None ->
     find_at jpeg_end (body2 ++ [xff]) = None ->
     find_at jpeg_end tail = None ->
     feed raw
       (map (fun b => [b])
          (garbage ++ (jpeg_start ++ body1 ++ jpeg_end) ++
           (jpeg_start ++ body2 ++ jpeg_end) ++ (jpeg_start ++ tail))) [] =
       ([emit raw (jpeg_start ++ body1 ++ jpeg_end);
         emit raw (jpeg_start ++ body2 ++ jpeg_end)],
        jpeg_start ++ tail)) /\
  (forall buffer,
     py_find buffer jpeg_start 0 = -1 ->
     scan_once buffer = NoStart (drop (length buffer - 1) buffer) /\
     extract buffer = ([], drop (length buffer - 1) buffer) /\
     (length (drop (length buffer - 1) buffer) <= 1)%nat) /\
  (forall rest,
     py_find (jpeg_start ++ rest) jpeg_end 2 =
       match find_at jpeg_end rest with
       | Some j => Z.of_nat (2 + j)
       | None => -1
       end /\
     scan_once (jpeg_start ++ rest) =
       match find_at jpeg_end rest with
       | Some j => Found (jpeg_start ++ take (j + 2) rest) (drop (j + 2) rest)
       | None => NoEnd (jpeg_start ++ rest)
       end).
Proof.
  assert (forall raw garbage body1 body2 tail chunks,
     find_at jpeg_start garbage = None ->
     find_at jpeg_end (body1 ++ [xff]) = None ->
     find_at jpeg_end (body2 ++ [xff]) = None ->
     find_at jpeg_end tail = None ->
     Forall (fun c => c <> []) chunks ->
     concat chunks =
       garbage ++ (jpeg_start ++ body1 ++ jpeg_end) ++
       (jpeg_start ++ body2 ++ jpeg_end) ++ (jpeg_start ++ tail) ->
     feed raw chunks [] =
       ([emit raw (jpeg_start ++ body1 ++ jpeg_end);
         emit raw (jpeg_start ++ body2 ++ jpeg_end)],
        jpeg_start ++ tail)) as Hmain.
  { intros raw garbage body1 body2 tail chunks Hg H1 H2 Ht Hne Hc.
    destruct chunks as [|c cs].
    - exfalso. simpl in Hc. symmetry in Hc.
      apply app_eq_nil in Hc as [_ Hc]. discriminate Hc.
    - rewrite (feed_spec raw cs c [] Hne), app_nil_l, Hc.
      by rewrite (extract_stream garbage body1 body2 tail Hg H1 H2 Ht). }
  split; [exact Hmain|]. split.
  { intros raw garbage body1 body2 tail Hg H1 H2 Ht.
    apply (Hmain raw garbage body1 body2 tail); try done.
    - apply Forall_forall. intros c Hin.
      apply list_elem_of_In, in_map_iff in Hin as [b [<- _]]. done.
    - apply concat_singletons. }
  split.
  { intros buffer Hf. apply py_find_none in Hf.
    assert (scan_once buffer = NoStart (drop (length buffer - 1) buffer)) as Hs
      by (by rewrite scan_once_eq, Hf).
    split; [exact Hs|]. split; [by rewrite extract_eq, Hs|].
    rewrite length_drop. lia. }
  intros rest. split.
  - unfold py_find. change (drop 2 (jpeg_start ++ rest)) with rest. done.
  - rewrite scan_once_eq.
    assert (find_at jpeg_start (jpeg_start ++ rest) = Some 0%nat) as -> by done.
    rewrite drop_0. change (drop 2 (jpeg_start ++ rest)) with rest.
    destruct (find_at jpeg_end rest) as [j|]; [|done].
    replace (j + 4)%nat with (S (S (j + 2))) by lia. done.
Qed.

Lemma mjpeg_extraction_witness :
  feed true
    [[x00]; [xff; xff]; [xd8; x01; xff]; [xd9; xff; xd8; xff; xd9; xff];
     [xd8; x02; xff]] [] =
  ([[xff; xd8; x01; xff; xd9]; [xff; xd8; xff; xd9]],
   [xff; xd8; x02; xff]) /\
  extract [x00; x01; xff] = ([], [xff]).
Proof.
  destruct mjpeg_extraction as (H1 & _ & H3 & _). split.
  - apply (H1 true [x00; xff] [x01] [] [x02; xff]); try reflexivity.
    repeat (constructor; [discriminate|]). constructor.
  - exact (proj1 (proj2 (H3 [x00; x01; xff] eq_refl))).
Defined.

(** * Further properties of the hub *)

(** ** stop *)

Lemma alter_as_insert {A} (f : A -> A) (l : nat) (xs : list A) (x : A) :
  xs !! l = Some x -> alter f l xs = <[l := f x]> xs.
Proof.
  intros Hx. apply list_eq. intros i. destruct (decide (l = i)) as [<-|Hne].
  - rewrite list_lookup_alter_eq, Hx. simpl.
    symmetry. apply list_lookup_insert_eq. by eapply lookup_lt_Some.
  - by rewrite list_lookup_alter_ne, list_lookup_insert_ne.
Qed.

Lemma stop_absent h pid : get_entry h pid = None -> stop pid h = (false, h, []).
Proof. intros G. unfold stop. by rewrite G. Qed.

Lemma get_entry_None_streams h pid :
  _streams h !! pid = None -> get_entry h pid = None.
Proof. intros G. unfold get_entry. by rewrite G. Qed.

Lemma stop_present h pid l e :
  hub_wf h -> get_entry h pid = Some (l, e) ->
  exists h' es k,
    stop pid h = (true, h', es) /\
    _streams h' = delete pid (_streams h) /\
    objs h' = <[l := set_frame None (set_alive false e)]> (objs h) /\
    tasks h !! l = Some k /\
    (t_pc k = Finished ->
     es = [MarkDead l; ClearFrame l] /\ tasks h' = tasks h) /\
    (t_pc k <> Finished ->
     es = [MarkDead l; ClearFrame l; CancelTask l] /\
     tasks h' = <[l := set_cancel true k]> (tasks h)).
Proof.
  intros W G. pose proof G as [Gb Ge]%get_entry_Some.
  pose proof (wf_task h W l e Ge) as T.
  destruct (wf_task_of_obj h l e W Ge) as [k Hk].
  unfold stop. rewrite G, T.
  set (h2 := mark_dead l (set_streams (delete pid (_streams h)) h)).
  assert (objs h2 = <[l := set_frame None (set_alive false e)]> (objs h)) as Ho.
  { subst h2. unfold mark_dead, update_obj, set_streams; simpl.
    by apply (alter_as_insert (fun e => set_frame None (set_alive false e))). }
  assert (tasks h2 = tasks h) as Ht by done.
  assert (_streams h2 = delete pid (_streams h)) as Hs by done.
  unfold task_done. rewrite Ht, Hk.
  destruct (decide (t_pc k = Finished)) as [Hf|Hf].
  - rewrite bool_decide_eq_true_2 by done.
    exists h2, [MarkDead l; ClearFrame l], k. repeat split; try done.
  - rewrite bool_decide_eq_false_2 by done.
    exists (cancel_task l h2), [MarkDead l; ClearFrame l; CancelTask l], k.
    split; [done|]. split; [by rewrite streams_cancel_task|].
    split; [by rewrite objs_cancel_task|]. split; [done|].
    split; [done|]. intros _. split; [done|].
    unfold cancel_task, update_task; simpl. rewrite ?Ht.
    rewrite (alter_as_insert _ l (tasks h) k Hk).
    by destruct (t_pc k).
Qed.



(** ** A dead stream *)

Lemma producer_step_dead t ev h h' es l e :
  producer_step t ev h = Some (h', es) ->
  objs h !! l = Some e -> alive e = false ->
  published l es = 0%nat /\
  forall e', objs h' !! l = Some e' -> frame e' = frame e \/ frame e' = None.
Proof.
  intros E He A.
  destruct (tasks h !! t) as [k|] eqn:Hk;
    [|unfold producer_step in E; by rewrite Hk in E].
  destruct (decide (l = t_entry k)) as [->|Hne].
  - unfold producer_step in E. rewrite Hk in E.
    assert (forall h0 e', objs h0 !! t_entry k = Some e ->
              objs (mark_dead (t_entry k) h0) !! t_entry k = Some e' ->
              frame e' = frame e \/ frame e' = None) as Hmd.
    { intros h0 e' _ [_ F]%mark_dead_lookup. by right. }
    destruct (t_pc k), ev; try done.
    + injection E as <- <-. split; [done|].
      intros e'. rewrite objs_update_task, objs_update_task, He.
      intros [= <-]. by left.
    + pose proof (objs_deregister (t_printer k) (t_entry k)
        (mark_dead (t_entry k) (update_obj (t_entry k) (set_error (Some m))
           (update_task t (set_cancel false) h)))) as Ho.
      pose proof (deregister_silent (t_printer k) (t_entry k)
        (mark_dead (t_entry k) (update_obj (t_entry k) (set_error (Some m))
           (update_task t (set_cancel false) h)))) as Hs.
      destruct (deregister _ _ _) as [h3 es3]. cbn [fst snd] in Ho, Hs.
      injection E as <- <-. split.
      * unfold published. simpl. by apply silent_published.
      * intros e'. rewrite objs_update_task, Ho.
        intros [_ F]%mark_dead_lookup. by right.
    + destruct (t_cancel k); [|done]. injection E as <- <-. split; [done|].
      intros e'. rewrite objs_update_task, objs_update_task, He.
      intros [= <-]. by left.
    + rewrite objs_update_task, He, A in E. simpl in E.
      injection E as <- <-. split; [done|].
      intros e'. unfold enter_finally; cbn [fst].
      rewrite objs_update_task. intros [_ F]%mark_dead_lookup. by right.
    + injection E as <- <-. split; [done|].
      intros e'. unfold enter_finally; cbn [fst].
      rewrite objs_update_task. intros [_ F]%mark_dead_lookup. by right.
    + injection E as <- <-. split; [done|].
      intros e'. unfold enter_finally; cbn [fst].
      rewrite objs_update_task. intros [_ F]%mark_dead_lookup. by right.
    + destruct (t_cancel k); [|done]. injection E as <- <-. split; [done|].
      intros e'. unfold enter_finally; cbn [fst].
      rewrite objs_update_task. intros [_ F]%mark_dead_lookup. by right.
    + destruct (t_cancel k); [|done]. injection E as <- <-. split; [done|].
      intros e'. rewrite objs_update_task, objs_update_task, He.
      intros [= <-]. by left.
    + pose proof (objs_deregister (t_printer k) (t_entry k)
        (update_task t (set_cancel false) h)) as Ho.
      pose proof (deregister_silent (t_printer k) (t_entry k)
        (update_task t (set_cancel false) h)) as Hs.
      destruct (deregister _ _ _) as [h3 es3]. cbn [fst snd] in Ho, Hs.
      injection E as <- <-. split.
      * unfold published. simpl. by apply silent_published.
      * intros e'. rewrite objs_update_task, Ho, objs_update_task, He.
        intros [= <-]. by left.
  - split.
    + destruct (producer_step_seq t ev h h' es l e E He) as (e' & He' & Hq & _).
      rewrite (producer_step_other t ev h h' es k l Hk E Hne), He in He'.
      injection He' as <-. lia.
    + intros e'. rewrite (producer_step_other t ev h h' es k l Hk E Hne), He.
      intros [= <-]. by left.
Qed.

Lemma exec_dead a h h' es l e :
  exec a h = Some (h', es) -> objs h !! l = Some e -> alive e = false ->
  exists e', objs h' !! l = Some e' /\ alive e' = false /\
             frame_seq e' = frame_seq e /\
             (frame e' = frame e \/ frame e' = None) /\
             published l es = 0%nat.
Proof.
  intros E He A.
  destruct (exec_extends a h h' es E l e He) as (e' & He' & Hev).
  destruct (exec_seq a h h' es l e E He) as (e2 & He2 & Hq & _).
  assert (e2 = e') as -> by congruence.
  exists e'. split; [done|]. split.
  { destruct (alive e') eqn:X; [|done]. destruct Hev as (_ & Hal & _).
    rewrite Hal in A; done. }
  destruct (is_producer_label a) eqn:P.
  - destruct a; try done. simpl in E.
    destruct (producer_step_dead t ev h h' es l e E He A) as [Hp Hf].
    rewrite Hp in Hq. split; [simpl in Hq; lia|]. split; [auto|done].
  - pose proof (api_silent a h h' es E P) as Hs.
    destruct (api_writes a h h' es l e e' E P He He') as [Hq' Hf].
    split; [done|]. split; [|by apply silent_published].
    destruct Hf as [?|[_ ?]]; auto.
Qed.

(** X2. A stream that is dead is never written again: whatever the hub
    and the producers do afterwards, no frame is published on it, its
    [frame_seq] stays as it is, its [frame] is left alone or cleared, and
    it stays dead. *)
Theorem dead_stream_never_written :
  forall tr h h' es l e,
    objs h !! l = Some e -> alive e = false ->
    run tr h = Some (h', es) ->
    exists e', objs h' !! l = Some e' /\ alive e' = false /\
               frame_seq e' = frame_seq e /\
               (frame e' = frame e \/ frame e' = None) /\
               published l es = 0%nat.
Proof.
  induction tr as [|a tr IH]; simpl; intros h h' es l e He A.
  - intros [= <- <-]. exists e. repeat split; auto.
  - destruct (exec a h) as [[h1 es1]|] eqn:E1; [|done].
    destruct (run tr h1) as [[h2 es2]|] eqn:E2; [|done].
    intros [= <- <-].
    destruct (exec_dead a h h1 es1 l e E1 He A)
      as (e1 & He1 & A1 & Hq1 & Hf1 & Hp1).
    destruct (IH h1 h2 es2 l e1 He1 A1 E2)
      as (e2 & He2 & A2 & Hq2 & Hf2 & Hp2).
    exists e2. rewrite published_app, Hp1, Hp2.
    split; [done|]. split; [done|]. split; [congruence|]. split; [|done].
    destruct Hf2 as [F2|F2]; [|by right].
    destruct Hf1 as [F1|F1]; [left|right]; congruence.
Qed.

Lemma dead_stream_never_written_witness :
  exists e', objs hub_reopened !! 0%nat = Some e' /\ alive e' = false /\
             frame_seq e' = 1 /\
             (frame e' = None \/ frame e' = None) /\
             published 0%nat
               [MarkDead 0%nat; ClearFrame 0%nat; CreateTask 1%nat 1 1%nat;
                WriteFrame 1%nat [xff; xd8; x02; xff; xd9]; IncrSeq 1%nat]
             = 0%nat.
Proof.
  exact (dead_stream_never_written after_stop hub_stopped hub_reopened _
           0%nat _ eq_refl eq_refl eq_refl).
Defined.

(** ** One live stream per printer *)

(** X3. In every state the hub can reach, a live stream is the stream
    registered for the printer of its producer task, that task is the
    one the stream refers to, it has not begun to exit (it is about to
    start or reading frames) and no cancellation of it is pending; hence
    no two live streams have producers for the same printer. *)
Theorem one_live_stream_per_printer :
  forall h, reachable h ->
    (forall l e,
       objs h !! l = Some e -> alive e = true ->
       exists t k,
         task e = Some t /\ tasks h !! t = Some k /\ t_entry k = l /\
         (t_pc k = Created \/ t_pc k = Reading) /\ t_cancel k = false /\
         get_entry h (t_printer k) = Some (l, e) /\
         is_active (t_printer k) h = true) /\
    (forall l1 l2 e1 e2 t1 t2 k1 k2,
       objs h !! l1 = Some e1 -> alive e1 = true ->
       objs h !! l2 = Some e2 -> alive e2 = true ->
       task e1 = Some t1 -> tasks h !! t1 = Some k1 ->
       task e2 = Some t2 -> tasks h !! t2 = Some k2 ->
       t_printer k1 = t_printer k2 -> l1 = l2).
Proof.
  intros h R. pose proof (reachable_wf h R) as W.
  assert (forall l e,
            objs h !! l = Some e -> alive e = true ->
            exists k, task e = Some l /\ tasks h !! l = Some k /\
                      t_entry k = l /\
                      (t_pc k = Created \/ t_pc k = Reading) /\
                      t_cancel k = false /\
                      _streams h !! t_printer k = Some l) as Hlive.
  { intros l e He A.
    destruct (live_task_running h l e W He A)
      as (T & k & Hk & Hent & Hcn & Hpc).
    exists k. repeat split; try done.
    exact (wf_live h W l e k He Hk A). }
  split.
  - intros l e He A.
    destruct (Hlive l e He A) as (k & T & Hk & Hent & Hpc & Hcn & Hreg).
    exists l, k. repeat split; try done.
    + by apply get_entry_Some.
    + unfold is_active.
      by rewrite (proj2 (get_entry_Some h (t_printer k) l e) (conj Hreg He)).
  - intros l1 l2 e1 e2 t1 t2 k1 k2 He1 A1 He2 A2 T1 Hk1 T2 Hk2 Hp.
    destruct (Hlive l1 e1 He1 A1) as (k1' & T1' & Hk1' & _ & _ & _ & Hr1).
    destruct (Hlive l2 e2 He2 A2) as (k2' & T2' & Hk2' & _ & _ & _ & Hr2).
    assert (t1 = l1) as -> by congruence.
    assert (t2 = l2) as -> by congruence.
    assert (k1' = k1) as -> by congruence.
    assert (k2' = k2) as -> by congruence.
    rewrite Hp in Hr1. congruence.
Qed.

Lemma one_live_stream_per_printer_witness :
  (exists t k,
     Some 1%nat = Some t /\ tasks hub_replaced !! t = Some k /\
     t_entry k = 1%nat /\
     (t_pc k = Created \/ t_pc k = Reading) /\ t_cancel k = false /\
     is_active (t_printer k) hub_replaced = true).
Proof.
  assert (reachable hub_replaced) as R.
  { eapply (reachable_run
              [Restart 1 "30-5-1.0" 2; Producer 1%nat StartOk;
               Producer 1%nat (Frame [xff; xd8; x00; xff; xd9] 3)]
              hub_published);
      [exact hub_published_reachable | reflexivity]. }
  destruct (one_live_stream_per_printer hub_replaced R) as [H _].
  destruct (H 1%nat _ eq_refl eq_refl) as (t & k & T & Hk & He & Hpc & Hc & _ & A).
  exists t, k. repeat split; assumption.
Defined.

(** ** The viewer loop *)

Lemma viewer_poll_dead now now' v h e :
  objs h !! v_entry v = Some e -> alive e = false ->
  viewer_poll now now' v h = (ViewerStop, v, h).
Proof. intros He A. unfold viewer_poll. by rewrite He, A. Qed.

Lemma run_stays_dead tr h h' es l e :
  objs h !! l = Some e -> alive e = false -> run tr h = Some (h', es) ->
  exists e', objs h' !! l = Some e' /\ alive e' = false.
Proof.
  intros He A R. destruct (run_extends tr h h' es R l e He) as (e' & He' & Hev).
  exists e'. split; [done|]. destruct (alive e') eqn:X; [|done].
  destruct Hev as (_ & Hal & _). rewrite Hal in A; done.
Qed.

(** X4. A viewer ends with its stream.  Once the stream it polls is
    dead, whatever the hub does afterwards, the next iteration of the
    viewer loop ends the generator: it sends nothing and does not touch
    the stream.  So after [stop] for the printer, and after a [restart]
    that replaced the stream. *)
Theorem viewer_ends_with_stream :
  (forall v h e tr h' es sched,
     objs h !! v_entry v = Some e -> alive e = false ->
     run tr h = Some (h', es) -> sched <> [] ->
     viewer_run sched v h' = Some ([], v, h', true)) /\
  (forall v h pid e tr h' es sched,
     get_entry h pid = Some (v_entry v, e) ->
     run (Stop pid :: tr) h = Some (h', es) -> sched <> [] ->
     viewer_run sched v h' = Some ([], v, h', true)) /\
  (forall v h pid e pk now tr h' es sched,
     get_entry h pid = Some (v_entry v, e) -> alive e = true ->
     params_key e <> pk ->
     run (Restart pid pk now :: tr) h = Some (h', es) -> sched <> [] ->
     viewer_run sched v h' = Some ([], v, h', true)).
Proof.
  assert (forall v h e tr h' es sched,
            objs h !! v_entry v = Some e -> alive e = false ->
            run tr h = Some (h', es) -> sched <> [] ->
            viewer_run sched v h' = Some ([], v, h', true)) as Hdead.
  { intros v h e tr h' es [|[[now now'] tr'] rest] He A R Hne; [done|].
    destruct (run_stays_dead tr h h' es _ e He A R) as (e' & He' & A').
    simpl. by rewrite (viewer_poll_dead now now' v h' e' He' A'). }
  split; [exact Hdead|]. split.
  - intros v h pid e tr h' es sched G R Hne. simpl in R.
    destruct (stop pid h) as [[b h1] es1] eqn:E.
    destruct (run tr h1) as [[h2 es2]|] eqn:R2; [|done].
    injection R as <- <-.
    pose proof G as [_ Ge]%get_entry_Some.
    assert (exists e1, objs h1 !! v_entry v = Some e1 /\ alive e1 = false)
      as (e1 & He1 & A1).
    { unfold stop in E. rewrite G in E.
      assert (exists e1, objs (mark_dead (v_entry v)
                (set_streams (delete pid (_streams h)) h)) !! v_entry v
                = Some e1 /\ alive e1 = false) as (e1 & He1 & A1).
      { unfold mark_dead. rewrite objs_update_obj, decide_True by done.
        rewrite objs_set_streams, Ge. by eexists. }
      exists e1. split; [|done].
      destruct (task e) as [t|]; [destruct (task_done _ _)|];
        injection E as <- <- <-; by rewrite ?objs_cancel_task. }
    by eapply (Hdead v h1 e1 tr h2 es2).
  - intros v h pid e pk now tr h' es sched G A Hpk R Hne. simpl in R.
    destruct (restart pid pk now h) as [[l1 h1] es1] eqn:E.
    destruct (run tr h1) as [[h2 es2]|] eqn:R2; [|done].
    injection R as <- <-.
    pose proof G as [_ Ge]%get_entry_Some.
    assert (exists e1, objs h1 !! v_entry v = Some e1 /\ alive e1 = false)
      as (e1 & He1 & A1).
    { unfold restart in E. rewrite G, A in E.
      destruct (String.eqb_spec (params_key e) pk) as [|_]; [done|].
      exists (set_alive false e). split; [|done].
      destruct (task e) as [t|];
        unfold start_producer in E; injection E as <- <- <-; simpl;
        apply lookup_app_l_Some; by rewrite list_lookup_alter_eq, Ge. }
    by eapply (Hdead v h1 e1 tr h2 es2).
Qed.

Lemma viewer_ends_with_stream_witness :
  viewer_run [(7, 7, [])]%Q viewer_five hub_reopened =
    Some ([], viewer_five, hub_reopened, true).
Proof.
  destruct viewer_ends_with_stream as [_ [H _]].
  refine (H viewer_five hub_published 1 _ after_stop hub_reopened _
            [(7, 7, [])]%Q eq_refl eq_refl _).
  discriminate.
Defined.





(** ** Polling keeps the producer running *)

Lemma idle_false now e :
  (now - last_accessed e <= IDLE_TIMEOUT)%Q -> idle now e = false.
Proof.
  intros Hle. unfold idle. apply negb_false_iff. by apply Qle_bool_iff.
Qed.

Lemma viewer_poll_touch now now' v h e :
  objs h !! v_entry v = Some e -> alive e = true ->
  (viewer_poll now now' v h).2 =
    update_obj (v_entry v) (set_last_accessed now) h.
Proof.
  intros He A. unfold viewer_poll. rewrite He, A. simpl.
  destruct (frame_seq e <=? seen_seq v); [done|].
  destruct (frame e); [|done].
  by destruct (negb (Qle_bool _ _)).
Qed.

Lemma grid_visit_touch now pid l g h e g' h' out :
  objs h !! l = Some e -> alive e = true ->
  grid_visit now pid l g h = Some (g', h', out) ->
  h' = update_obj l (set_last_accessed now) h.
Proof.
  intros He A. unfold grid_visit. rewrite He, A. simpl.
  destruct (frame_seq e <=? default 0 (seen_seqs g !! pid));
    [by intros [= <- <- <-]|].
  destruct (frame e); [|by intros [= <- <- <-]].
  destruct (struct_pack_II _ _); [|done]. by intros [= <- <- <-].
Qed.

Lemma touched_producer_publishes t k e f now t1 h :
  tasks h !! t = Some k -> t_pc k = Reading ->
  objs h !! t_entry k = Some e -> alive e = true ->
  (t1 - now <= IDLE_TIMEOUT)%Q ->
  exists h' e',
    producer_step t (Frame f t1)
      (update_obj (t_entry k) (set_last_accessed now) h) =
      Some (h', [WriteFrame (t_entry k) f; IncrSeq (t_entry k)]) /\
    objs h' !! t_entry k = Some e' /\ alive e' = true /\
    frame e' = Some f /\ frame_seq e' = frame_seq e + 1.
Proof.
  intros Hk Hpc He A Hle.
  destruct (producer_publishes t k (set_last_accessed now e) f t1
              (update_obj (t_entry k) (set_last_accessed now) h))
    as (h' & E & He').
  - by rewrite tasks_update_obj.
  - done.
  - by apply objs_update_obj_eq.
  - done.
  - by apply idle_false.
  - eexists h', _. split; [exact E|]. split; [exact He'|]. done.
Qed.

(** X6. The idle timeout counts from the last poll.  An iteration of a
    viewer, or a visit of the grid multiplexer, on a live stream sets its
    [last_accessed] to the clock reading of the poll; a frame that
    reaches the producer up to and including 30 seconds later is
    published, and the stream stays alive. *)
Theorem poll_keeps_producer_alive :
  (forall v h e t k f now now' t1,
     objs h !! v_entry v = Some e -> alive e = true ->
     tasks h !! t = Some k -> t_entry k = v_entry v -> t_pc k = Reading ->
     (t1 - now <= IDLE_TIMEOUT)%Q ->
     exists h' e',
       producer_step t (Frame f t1) (viewer_poll now now' v h).2 =
         Some (h', [WriteFrame (v_entry v) f; IncrSeq (v_entry v)]) /\
       objs h' !! v_entry v = Some e' /\ alive e' = true /\
       frame e' = Some f /\ frame_seq e' = frame_seq e + 1) /\
  (forall now pid l g h e g1 h1 out t k f t1,
     objs h !! l = Some e -> alive e = true ->
     grid_visit now pid l g h = Some (g1, h1, out) ->
     tasks h !! t = Some k -> t_entry k = l -> t_pc k = Reading ->
     (t1 - now <= IDLE_TIMEOUT)%Q ->
     exists h' e',
       producer_step t (Frame f t1) h1 =
         Some (h', [WriteFrame l f; IncrSeq l]) /\
       objs h' !! l = Some e' /\ alive e' = true /\
       frame e' = Some f /\ frame_seq e' = frame_seq e + 1).
Proof.
  split.
  - intros v h e t k f now now' t1 He A Hk Hent Hpc Hle.
    rewrite (viewer_poll_touch now now' v h e He A). rewrite <- Hent in *.
    by apply touched_producer_publishes.
  - intros now pid l g h e g1 h1 out t k f t1 He A E Hk Hent Hpc Hle.
    rewrite (grid_visit_touch now pid l g h e g1 h1 out He A E).
    subst l. by apply touched_producer_publishes.
Qed.

Lemma poll_keeps_producer_alive_witness :
  exists h' e',
    producer_step 0%nat (Frame [xff; xd8; x01; xff; xd9] 130)
      (viewer_poll 100 100 viewer_five hub_published).2 =
      Some (h', [WriteFrame 0%nat [xff; xd8; x01; xff; xd9]; IncrSeq 0%nat]) /\
    objs h' !! 0%nat = Some e' /\ alive e' = true /\
    frame e' = Some [xff; xd8; x01; xff; xd9] /\ frame_seq e' = 1 + 1.
Proof.
  destruct poll_keeps_producer_alive as [H _].
  refine (H viewer_five hub_published _ 0%nat _ [xff; xd8; x01; xff; xd9]
            100%Q 100%Q 130%Q eq_refl eq_refl eq_refl eq_refl eq_refl _).
  unfold IDLE_TIMEOUT. lra.
Defined.

(** * Further properties of the MJPEG parser *)

Lemma starts_with_take sub : forall n buf,
  (length sub <= n)%nat -> starts_with sub (take n buf) = starts_with sub buf.
Proof.
  induction sub as [|a sub IH]; intros n buf Hn; [done|].
  destruct n as [|n]; [simpl in Hn; lia|].
  destruct buf as [|b buf]; [done|]. simpl.
  rewrite IH by (simpl in Hn; lia). done.
Qed.

Lemma find_at_take sub buf : forall j,
  find_at sub buf = Some j -> find_at sub (take (j + length sub) buf) = Some j.
Proof.
  induction buf as [|b buf IH]; intros j.
  - simpl. destruct (starts_with sub []) eqn:Hsw; [|done].
    intros [= <-]. rewrite take_nil. simpl. by rewrite Hsw.
  - rewrite find_at_cons.
    destruct (starts_with sub (b :: buf)) eqn:Hsw.
    + intros [= <-]. apply find_at_starts_zero.
      by rewrite starts_with_take.
    + destruct (find_at sub buf) as [j'|] eqn:F; [|done].
      intros [= <-].
      change (take (S j' + length sub) (b :: buf))
        with (b :: take (j' + length sub) buf).
      rewrite find_at_cons.
      assert (starts_with sub (b :: take (j' + length sub) buf) = false) as ->.
      { change (b :: take (j' + length sub) buf)
          with (take (S (j' + length sub)) (b :: buf)).
        rewrite starts_with_take by lia. done. }
      by rewrite (IH j' eq_refl).
Qed.

Lemma py_find_Some buf sub start i :
  find_at sub (drop start buf) = Some i ->
  py_find buf sub start = Z.of_nat (start + i).
Proof. intros F. unfold py_find. by rewrite F. Qed.

Lemma py_find_minus_one buf sub start :
  py_find buf sub start = -1 <-> find_at sub (drop start buf) = None.
Proof. unfold py_find. destruct (find_at _ _); split; try done; lia. Qed.

Lemma scan_found_complete buf f rest :
  scan_once buf = Found f rest ->
  complete_jpeg f = true /\ (length f + length rest <= length buf)%nat.
Proof.
  rewrite scan_once_eq.
  destruct (find_at jpeg_start buf) as [i|] eqn:Fs; [|done].
  destruct (jpeg_start_prefix i buf Fs) as [r Hb].
  pose proof (length_drop buf i) as Hl. rewrite Hb in *.
  change (drop 2 (jpeg_start ++ r)) with r.
  destruct (find_at jpeg_end r) as [j|] eqn:Fe; [|done].
  pose proof (find_at_bound _ _ _ Fe) as Hj. simpl in Hj.
  assert (forall n, take (S (S n)) (jpeg_start ++ r) = jpeg_start ++ take n r)
    as Ht by done.
  assert (forall n, drop (S (S n)) (jpeg_start ++ r) = drop n r) as Hd by done.
  replace (j + 4)%nat with (S (S (j + 2))) by lia. rewrite Ht, Hd.
  intros [= <- <-]. split.
  - unfold complete_jpeg. apply andb_true_iff. split; [reflexivity|].
    rewrite (py_find_Some _ _ 2%nat j).
    + apply Z.eqb_eq. cbn [length]. rewrite length_take. lia.
    + exact (find_at_take jpeg_end r j Fe).
  - cbn [length]. rewrite length_take, length_drop.
    cbn [length app jpeg_start] in Hl. lia.
Qed.

Lemma scan_leftover buf b :
  scan_once buf = NoStart b \/ scan_once buf = NoEnd b ->
  leftover b = true /\ (length b <= length buf)%nat.
Proof.
  rewrite scan_once_eq.
  destruct (find_at jpeg_start buf) as [i|] eqn:Fs.
  - destruct (jpeg_start_prefix i buf Fs) as [r Hb].
    pose proof (length_drop buf i) as Hl. rewrite Hb in *.
    change (drop 2 (jpeg_start ++ r)) with r.
    destruct (find_at jpeg_end r) as [j|] eqn:Fe.
    + intros [?|?]; discriminate.
    + intros [?|[= <-]]; [discriminate|].
      split; [|cbn [length app jpeg_start] in *; lia].
      unfold leftover. apply orb_true_iff. right.
      change (starts_with jpeg_start (jpeg_start ++ r)) with true.
      simpl. apply Z.eqb_eq. by apply py_find_minus_one.
  - intros [[= <-]|?]; [|discriminate]. rewrite length_drop.
    split; [|lia]. unfold leftover. apply orb_true_iff. left.
    rewrite length_drop. apply Nat.leb_le. lia.
Qed.

Lemma leftover_fixed b : leftover b = true -> extract b = ([], b).
Proof.
  intros L. rewrite extract_eq, scan_once_eq.
  unfold leftover in L. apply orb_true_iff in L as [L|L].
  - apply Nat.leb_le in L.
    destruct (find_at jpeg_start b) as [i|] eqn:Fs.
    + apply find_at_bound in Fs. simpl in Fs. lia.
    + destruct b as [|x [|y b]]; [done | done | simpl in L; lia].
  - apply andb_true_iff in L as [Hsw E]. apply Z.eqb_eq in E.
    rewrite (find_at_starts_zero _ _ Hsw), drop_0.
    apply py_find_minus_one in E. by rewrite E.
Qed.

Lemma extract_complete n : forall buf,
  (length buf <= n)%nat ->
  Forall (fun f => complete_jpeg f = true) (extract buf).1 /\
  leftover (extract buf).2 = true /\
  (length (concat (extract buf).1) + length (extract buf).2
   <= length buf)%nat.
Proof.
  induction n as [|n IH]; intros buf Hlen; rewrite extract_eq.
  - destruct buf; [|simpl in Hlen; lia]. by vm_compute.
  - destruct (scan_once buf) as [b|b|f rest] eqn:Hsw.
    + destruct (scan_leftover buf b (or_introl Hsw)) as [L Hl].
      simpl. split; [constructor|]. split; [done | lia].
    + destruct (scan_leftover buf b (or_intror Hsw)) as [L Hl].
      simpl. split; [constructor|]. split; [done | lia].
    + destruct (scan_found_complete buf f rest Hsw) as [C Hl].
      pose proof (scan_once_Found buf f rest Hsw) as Hlt.
      destruct (IH rest ltac:(lia)) as (H1 & H2 & H3).
      destruct (extract rest) as [fs b]. simpl in *.
      split; [by constructor|]. split; [done|].
      rewrite length_app. lia.
Qed.

Lemma feed_complete raw chunks : forall buf,
  leftover buf = true ->
  exists fs,
    (feed raw chunks buf).1 = map (emit raw) fs /\
    Forall (fun f => complete_jpeg f = true) fs /\
    leftover (feed raw chunks buf).2 = true /\
    (length (concat fs) + length (feed raw chunks buf).2
     <= length buf + length (concat chunks))%nat.
Proof.
  induction chunks as [|c chunks IH]; intros buf L.
  - exists []. simpl. repeat split; [constructor | done | lia].
  - destruct c as [|x c].
    + exists []. simpl. repeat split; [constructor | done | lia].
    + simpl.
      destruct (extract_complete _ (buf ++ x :: c) (le_n _)) as (H1 & H2 & H3).
      destruct (extract (buf ++ x :: c)) as [fs1 b1]. simpl in *.
      destruct (IH b1 H2) as (fs2 & E & C & L2 & Hl).
      destruct (feed raw chunks b1) as [out b2]. simpl in *.
      exists (fs1 ++ fs2). rewrite map_app, E.
      split; [done|]. split; [by apply Forall_app|]. split; [done|].
      rewrite concat_app, !length_app in *. simpl in *. lia.
Qed.

(** X7. Whatever bytes arrive and however they are cut into chunks,
    every frame the parser hands on is a complete JPEG: it begins with
    FF D8 and its first FF D9 from index 2 on is its last two bytes, so
    it has the form FF D8, body, FF D9.  What stays in the buffer is at
    most one byte or the beginning of a frame without its end marker, and
    scanning it again yields nothing; frames and buffer together are
    never longer than the input. *)
Theorem extracted_frames_complete :
  (forall buf,
     Forall (fun f => complete_jpeg f = true) (extract buf).1 /\
     leftover (extract buf).2 = true /\
     extract (extract buf).2 = ([], (extract buf).2) /\
     (length (concat (extract buf).1) + length (extract buf).2
      <= length buf)%nat) /\
  (forall raw chunks,
     exists fs,
       (feed raw chunks []).1 = map (emit raw) fs /\
       Forall (fun f => complete_jpeg f = true) fs /\
       leftover (feed raw chunks []).2 = true /\
       (length (concat fs) + length (feed raw chunks []).2
        <= length (concat chunks))%nat) /\
  (forall f,
     complete_jpeg f = true ->
     exists body, f = jpeg_start ++ body ++ jpeg_end).
Proof.
  split; [|split].
  - intros buf.
    destruct (extract_complete _ buf (le_n _)) as (H1 & H2 & H3).
    split; [done|]. split; [done|]. split; [by apply leftover_fixed | done].
  - intros raw chunks.
    destruct (feed_complete raw chunks [] eq_refl) as (fs & E & C & L & Hl).
    exists fs. done.
  - intros f C. unfold complete_jpeg in C.
    apply andb_true_iff in C as [Hsw E]. apply Z.eqb_eq in E.
    destruct f as [|x [|y r]]; simpl in Hsw; try done;
      [by rewrite andb_false_r in Hsw|].
    apply andb_true_iff in Hsw as [Hx Hy]. rewrite andb_true_r in Hy.
    apply Byte.byte_dec_bl in Hx, Hy. subst x y.
    unfold py_find in E. change (drop 2 (xff :: xd8 :: r)) with r in E.
    destruct (find_at jpeg_end r) as [j|] eqn:Fe; [|simpl in E; lia].
    pose proof (find_at_bound _ _ _ Fe) as Hj.
    pose proof (find_at_starts _ _ _ Fe) as Hs.
    simpl in E, Hj.
    pose proof (length_drop r j) as Hd.
    assert (drop j r = jpeg_end) as Hend.
    { unfold jpeg_end in *.
      destruct (drop j r) as [|a [|b [|c t]]]; simpl in Hd, Hs; try lia.
      apply andb_true_iff in Hs as [Ha Hb]. rewrite andb_true_r in Hb.
      apply Byte.byte_dec_bl in Ha, Hb. by subst. }
    exists (take j r). simpl. do 2 f_equal.
    rewrite <- Hend. by rewrite take_drop.
Qed.

Lemma extracted_frames_complete_witness :
  (exists body, [xff; xd8; x00; xff; xd9] = jpeg_start ++ body ++ jpeg_end) /\
  Forall (fun f => complete_jpeg f = true)
    (extract [x00; xff; xd8; x01; xff; xd9; xff; xd8]).1.
Proof.
  destruct extracted_frames_complete as (H1 & _ & H3). split.
  - apply H3. reflexivity.
  - apply H1.
Defined.

(** * Further properties of the routes *)

(** ** camera_stream *)

Lemma clamp_fps_idem hi fps : clamp_fps hi (clamp_fps hi fps) = clamp_fps hi fps.
Proof. unfold clamp_fps. lia. Qed.

Lemma ensure_given_printer E db pid fps quality scale p force now w :
  external_camera_enabled p && truthy (external_camera_url p) = false ->
  exists l h' es,
    _ensure_producer E db pid fps quality scale (Some p) force now w =
      (Some l, {| _hub := h';
                  _stream_start_times := <[pid := now]> (_stream_start_times w) |},
       es) /\
    (if force
     then restart pid
            (make_params_key E
               (if is_chamber_image_model E (model p)
                then clamp_fps 5 fps else clamp_fps 30 fps) quality scale)
            now (_hub w)
     else get_or_start pid
            (make_params_key E
               (if is_chamber_image_model E (model p)
                then clamp_fps 5 fps else clamp_fps 30 fps) quality scale)
            now (_hub w)) = (l, h', es).
Proof.
  intros X. unfold _ensure_producer. rewrite X.
  destruct force.
  - destruct (restart _ _ _ _) as [[l h'] es]. by exists l, h', es.
  - destruct (get_or_start _ _ _ _) as [[l h'] es]. by exists l, h', es.
Qed.

Lemma get_or_start_live h pid pk now :
  exists e, get_entry (get_or_start pid pk now h).1.2 pid =
              Some ((get_or_start pid pk now h).1.1, e) /\
            alive e = true.
Proof.
  destruct (is_active pid h) eqn:Act.
  - apply is_active_true in Act as (l & e & G & A).
    rewrite (get_or_start_reuse h pid pk now l e G A). simpl.
    exists (set_last_accessed now e). split; [|done].
    by apply get_entry_touch.
  - rewrite (get_or_start_fresh h pid pk now Act).
    pose proof (get_entry_start_producer h pid pk now) as G.
    eexists. split; [exact G | done].
Qed.

(** X8. The answers of the single-camera route.  An unknown printer gets
    404 and nothing changes.  A printer with an external camera is
    streamed from there at a rate clamped to [1, 15]; the hub is not
    touched, only the start time of the stream is recorded.  Any other
    printer gets a viewer, starting at sequence number 0, of the stream
    that is registered for the printer and alive after the call, and at
    most one producer task was created for it.  The route never answers
    503: its "Failed to start camera stream" branch cannot be taken. *)
Theorem camera_stream_answers :
  forall E db pid fps quality scale now w,
    (db !! pid = None ->
     camera_stream E db pid fps quality scale now w =
       (Some (HTTPException 404 "Printer not found"), w, [])) /\
    (forall p,
       db !! pid = Some p ->
       external_camera_enabled p && truthy (external_camera_url p) = true ->
       camera_stream E db pid fps quality scale now w =
         (Some (Ok (ExternalStream (clamp_fps 15 fps)
                      (1 / inject_Z (clamp_fps 15 fps)))),
          {| _hub := _hub w;
             _stream_start_times :=
               <[pid := now]> (_stream_start_times w) |}, []) /\
       1 <= clamp_fps 15 fps <= 15) /\
    (forall p,
       db !! pid = Some p ->
       external_camera_enabled p && truthy (external_camera_url p) = false ->
       exists v w' es e,
         camera_stream E db pid fps quality scale now w =
           (Some (Ok (HubStream v)), w', es) /\
         get_entry (_hub w') pid = Some (v_entry v, e) /\ alive e = true /\
         seen_seq v = 0 /\
         (v_frame_interval v ==
          1 / inject_Z (if is_chamber_image_model E (model p)
                        then clamp_fps 5 fps else clamp_fps 30 fps))%Q /\
         _stream_start_times w' = <[pid := now]> (_stream_start_times w) /\
         count_creates es = (if is_active pid (_hub w) then 0 else 1)%nat) /\
    (forall status detail,
       (camera_stream E db pid fps quality scale now w).1.1 =
         Some (HTTPException status detail) ->
       status = 404 /\ db !! pid = None).
Proof.
  intros E db pid fps quality scale now w.
  assert (forall p,
            db !! pid = Some p ->
            external_camera_enabled p && truthy (external_camera_url p) = false ->
            exists v w' es e,
              camera_stream E db pid fps quality scale now w =
                (Some (Ok (HubStream v)), w', es) /\
              get_entry (_hub w') pid = Some (v_entry v, e) /\ alive e = true /\
              seen_seq v = 0 /\
              (v_frame_interval v ==
               1 / inject_Z (if is_chamber_image_model E (model p)
                             then clamp_fps 5 fps else clamp_fps 30 fps))%Q /\
              _stream_start_times w' = <[pid := now]> (_stream_start_times w) /\
              count_creates es = (if is_active pid (_hub w) then 0 else 1)%nat)
    as Hhub.
  { intros p Hp X. unfold camera_stream. rewrite Hp, X.
    set (f := if is_chamber_image_model E (model p)
              then clamp_fps 5 fps else clamp_fps 30 fps).
    assert (1 <= f) as Hf.
    { subst f. destruct (is_chamber_image_model E (model p)).
      - pose proof (clamp_fps_range 5 fps). lia.
      - pose proof (clamp_fps_range 30 fps). lia. }
    destruct (ensure_given_printer E db pid f quality scale p false now w X)
      as (l & h' & es & -> & G).
    assert ((if is_chamber_image_model E (model p)
             then clamp_fps 5 f else clamp_fps 30 f) = f) as Hff.
    { subst f. destruct (is_chamber_image_model E (model p));
        apply clamp_fps_idem. }
    rewrite Hff in G.
    destruct (get_or_start_live (_hub w) pid
                (make_params_key E f quality scale) now) as (e & Ge & A).
    rewrite G in Ge. simpl in Ge.
    unfold make_viewer. rewrite viewer_frame_interval_Some.
    destruct (Z.ltb_spec 0 f); [|lia].
    eexists _, _, es, e. split; [reflexivity|]. simpl.
    repeat split; try done.
    destruct (is_active pid (_hub w)) eqn:Act.
    - apply is_active_true in Act as (l0 & e0 & G0 & A0).
      rewrite (get_or_start_reuse _ pid _ now l0 e0 G0 A0) in G.
      by injection G as <- <- <-.
    - rewrite (get_or_start_fresh _ pid _ now Act) in G.
      unfold start_producer in G. by injection G as <- <- <-. }
  split; [|split; [|split]].
  - intros Hp. unfold camera_stream. by rewrite Hp.
  - intros p Hp X. pose proof (clamp_fps_range 15 fps) as Hr.
    split; [|lia]. unfold camera_stream. rewrite Hp, X.
    rewrite truediv_nonzero by lia. done.
  - exact Hhub.
  - intros status detail.
    destruct (db !! pid) as [p|] eqn:Hp.
    + destruct (external_camera_enabled p && truthy (external_camera_url p))
        eqn:X.
      * unfold camera_stream. rewrite Hp, X. simpl.
        pose proof (clamp_fps_range 15 fps).
        rewrite truediv_nonzero by lia. done.
      * destruct (Hhub p eq_refl X) as (v & w' & es & e & -> & _). done.
    + unfold camera_stream. rewrite Hp. simpl. by intros [= <- <-].
Qed.

Lemma camera_stream_answers_witness :
  camera_stream env_example db_example 2 10 5 1 3 world_one =
    (Some (HTTPException 404 "Printer not found"), world_one, []) /\
  (exists v w' es e,
     camera_stream env_example db_example 1 10 5 1 3 world_one =
       (Some (Ok (HubStream v)), w', es) /\
     get_entry (_hub w') 1 = Some (v_entry v, e) /\ alive e = true /\
     count_creates es = 0%nat).
Proof.
  destruct (camera_stream_answers env_example db_example 2 10 5 1 3 world_one)
    as (H1 & _).
  destruct (camera_stream_answers env_example db_example 1 10 5 1 3 world_one)
    as (_ & _ & H3 & _).
  split; [exact (H1 eq_refl)|].
  destruct (H3 _ eq_refl eq_refl)
    as (v & w' & es & e & E & G & A & _ & _ & _ & C).
  exists v, w', es, e. repeat split; assumption.
Defined.

(** ** camera_grid_stream: the producers it starts *)

Lemma wf_distinct h p1 p2 l1 l2 :
  hub_wf h -> _streams h !! p1 = Some l1 -> _streams h !! p2 = Some l2 ->
  p1 <> p2 -> l1 <> l2.
Proof.
  intros W H1 H2 Hne ->.
  destruct (wf_reg h W p1 l2 H1) as (k1 & Hk1 & Hp1).
  destruct (wf_reg h W p2 l2 H2) as (k2 & Hk2 & Hp2).
  congruence.
Qed.























(** ** Parsing the list of printer ids *)

Lemma digit_of_pretty_N_char (d : N) :
  (d < 10)%N -> digit_of (pretty_N_char d) = Some (Z.of_N d).
Proof.
  intros Hd.
  assert (d = 0 \/ d = 1 \/ d = 2 \/ d = 3 \/ d = 4 \/ d = 5 \/ d = 6 \/
          d = 7 \/ d = 8 \/ d = 9)%N as H by lia.
  repeat (destruct H as [->|H]; [reflexivity|]). by subst.
Qed.


Lemma int_digits_digit c d acc b s :
  digit_of c = Some d ->
  int_digits acc b (String c s) = int_digits (10 * acc + d) true s.
Proof. intros D. simpl. by rewrite D. Qed.

Lemma pretty_N_go_digits (x : N) :
  (0 < x)%N ->
  forall s acc b,
    exists k, int_digits acc b (pretty_N_go x s) =
              int_digits (acc * k + Z.of_N x) true s.
Proof.
  induction (N.lt_wf_0 x) as [x _ IH]. intros Hx s acc b.
  rewrite pretty_N_go_step by done.
  assert (x `mod` 10 < 10)%N as Hm by (apply N.mod_lt; lia).
  pose proof (digit_of_pretty_N_char _ Hm) as D.
  pose proof (N.div_mod x 10 ltac:(lia)) as Hdm.
  destruct (decide (x `div` 10 = 0)%N) as [Hz|Hz].
  - rewrite Hz, pretty_N_go_0, (int_digits_digit _ _ _ _ _ D).
    exists 10. f_equal. lia.
  - destruct (IH (x `div` 10)%N) with
      (s := String (pretty_N_char (x `mod` 10)) s) (acc := acc) (b := b)
      as [k Hk].
    + apply N.div_lt; lia.
    + by apply N.neq_0_lt_0.
    + rewrite Hk, (int_digits_digit _ _ _ _ _ D).
      exists (10 * k). f_equal. lia.
Qed.


Lemma pretty_N_go_head (x : N) :
  (0 < x)%N ->
  forall s, exists c d s', pretty_N_go x s = String c s' /\
                           digit_of c = Some d.
Proof.
  induction (N.lt_wf_0 x) as [x _ IH]. intros Hx s.
  rewrite pretty_N_go_step by done.
  assert (x `mod` 10 < 10)%N as Hm by (apply N.mod_lt; lia).
  destruct (decide (x `div` 10 = 0)%N) as [Hz|Hz].
  - rewrite Hz, pretty_N_go_0. eexists _, _, _. split; [reflexivity|].
    by apply digit_of_pretty_N_char.
  - apply IH; [apply N.div_lt; lia | by apply N.neq_0_lt_0].
Qed.

Lemma py_int_unsigned c d s :
  digit_of c = Some d ->
  py_int (String c s) = int_digits 0 false (String c s).
Proof.
  intros D. unfold py_int.
  destruct (Ascii.eqb_spec c "-"%char) as [->|H1]; [done|].
  destruct (Ascii.eqb_spec c "+"%char) as [->|H2]; [done|].
  destruct c as [[] [] [] [] [] [] [] []]; try reflexivity; done.
Qed.

Lemma py_int_pretty_pos (p : positive) :
  py_int (pretty (N.pos p)) = Some (Z.pos p) /\
  int_digits 0 false (pretty (N.pos p)) = Some (Z.pos p).
Proof.
  unfold pretty, pretty_N. rewrite decide_False by done.
  destruct (pretty_N_go_head (N.pos p) ltac:(lia) "") as (c & d & s' & E & D).
  destruct (pretty_N_go_digits (N.pos p) ltac:(lia) "" 0 false) as [k Hk].
  assert (int_digits 0 false (pretty_N_go (N.pos p) "") = Some (Z.pos p)) as H.
  { rewrite Hk. simpl. done. }
  split; [|exact H]. rewrite E in *. by rewrite (py_int_unsigned c d s' D).
Qed.

Lemma py_int_pretty (z : Z) : py_int (pretty z) = Some z.
Proof.
  destruct z as [|p|p].
  - reflexivity.
  - apply py_int_pretty_pos.
  - change (pretty (Z.neg p)) with (String "-" (pretty (N.pos p))).
    unfold py_int. destruct (py_int_pretty_pos p) as [_ ->]. done.
Qed.


Lemma pretty_Z_nonempty (z : Z) : nonempty (pretty z) = true.
Proof.
  pose proof (py_int_pretty z) as H. by destruct (pretty z).
Qed.








(** ** Pollers only touch *)

Lemma viewer_poll_is_touch now now' v h :
  (viewer_poll now now' v h).2 = touch (v_entry v) now h.
Proof.
  unfold viewer_poll, touch. destruct (objs h !! v_entry v) as [e|]; [|done].
  destruct (alive e); [|done]. simpl.
  destruct (frame_seq e <=? seen_seq v); [done|].
  destruct (frame e); [|done].
  by destruct (negb (Qle_bool _ _)).
Qed.

Lemma grid_visit_is_touch now pid l g h g' h' out :
  grid_visit now pid l g h = Some (g', h', out) -> h' = touch l now h.
Proof.
  unfold grid_visit, touch. destruct (objs h !! l) as [e|];
    [|by intros [= <- <- <-]].
  destruct (alive e); simpl; [|by intros [= <- <- <-]].
  destruct (frame_seq e <=? default 0 (seen_seqs g !! pid));
    [by intros [= <- <- <-]|].
  destruct (frame e); [|by intros [= <- <- <-]].
  destruct (struct_pack_II _ _); [|done]. by intros [= <- <- <-].
Qed.

Lemma touch_lookup l now h l' :
  objs (touch l now h) !! l' =
  (fun e => if decide (l' = l)
            then if alive e then set_last_accessed now e else e
            else e) <$> objs h !! l'.
Proof.
  unfold touch. destruct (decide (l' = l)) as [->|Hne].
  - destruct (objs h !! l) as [e|] eqn:He; [|by rewrite He].
    destruct (alive e) eqn:A.
    + rewrite objs_update_obj, decide_True, He by done. simpl. by rewrite A.
    + rewrite He. simpl. by rewrite A.
  - assert (objs (match objs h !! l with
                  | Some e =>
                      if alive e
                      then update_obj l (set_last_accessed now) h else h
                  | None => h
                  end) !! l' = objs h !! l') as ->.
    { destruct (objs h !! l) as [e|]; [destruct (alive e)|]; try done.
      by rewrite objs_update_obj_ne. }
    by destruct (objs h !! l').
Qed.

Lemma touch_frames l now h l' e' :
  objs (touch l now h) !! l' = Some e' ->
  exists e, objs h !! l' = Some e /\ frame e' = frame e /\
            frame_seq e' = frame_seq e /\ alive e' = alive e.
Proof.
  rewrite touch_lookup. destruct (objs h !! l') as [e|]; [|done]. simpl.
  intros [= <-]. exists e. split; [done|].
  destruct (decide (l' = l)); [destruct (alive e) eqn:A|]; by rewrite ?A.
Qed.

Lemma touch_registry l now h :
  _streams (touch l now h) = _streams h /\ tasks (touch l now h) = tasks h.
Proof.
  unfold touch. destruct (objs h !! l) as [e|]; [destruct (alive e)|]; done.
Qed.

Lemma reachable_touch l now h : reachable h -> reachable (touch l now h).
Proof.
  intros R. by eapply (reach_step (Touch l now) h (touch l now h) []).
Qed.

Lemma grid_for_reachable now items : forall g h g' h' out,
  reachable h -> grid_for now items g h = Some (g', h', out) ->
  reachable h' /\ _streams h' = _streams h /\ tasks h' = tasks h /\
  forall l e', objs h' !! l = Some e' ->
    exists e, objs h !! l = Some e /\ frame e' = frame e /\
              frame_seq e' = frame_seq e /\ alive e' = alive e /\
              task e' = task e /\ error e' = error e /\
              params_key e' = params_key e /\
              (alive e = false -> e' = e).
Proof.
  induction items as [|[pid l] items IH]; intros g h g' h' out R; simpl.
  - intros [= <- <- <-]. repeat split; try done.
    intros l e' He'. exists e'. repeat split; done.
  - destruct (grid_visit now pid l g h) as [[[g1 h1] out1]|] eqn:V; [|done].
    destruct (grid_for now items g1 h1) as [[[g2 h2] out2]|] eqn:F; [|done].
    intros [= <- <- <-].
    pose proof (grid_visit_is_touch _ _ _ _ _ _ _ _ V) as ->.
    destruct (IH g1 _ g2 h2 out2 (reachable_touch l now h R) F)
      as (R2 & Hs & Ht & Ho).
    destruct (touch_registry l now h) as [Hs1 Ht1].
    split; [done|]. split; [congruence|]. split; [congruence|].
    intros l' e2 He2. destruct (Ho l' e2 He2)
      as (e1 & He1 & F1 & Q1 & A1 & T1 & E1 & K1 & D1).
    rewrite touch_lookup in He1.
    destruct (objs h !! l') as [e|] eqn:He; [|done]. simpl in He1.
    injection He1 as <-. exists e. split; [done|].
    destruct (decide (l' = l)) as [->|Hne]; [destruct (alive e) eqn:A|];
      simpl in *; rewrite ?A in *; repeat split; auto; try congruence.
Qed.

(** X11. The two pollers change nothing in the hub but [last_accessed]:
    the effect on the hub of one iteration of a viewer, and of one visit
    of the grid multiplexer, is setting [last_accessed] of the polled
    stream if that stream is alive, and nothing otherwise.  A whole pass
    of the grid leaves the registry and the tasks as they are, and of
    every stream the frame, the sequence number, the task, the error,
    the parameters and whether it is alive; a dead stream is not written
    at all.  The state stays one the hub can reach. *)
Theorem pollers_only_touch :
  (forall now now' v h,
     (viewer_poll now now' v h).2 = touch (v_entry v) now h) /\
  (forall now pid l g h g' h' out,
     grid_visit now pid l g h = Some (g', h', out) -> h' = touch l now h) /\
  (forall l now h,
     _streams (touch l now h) = _streams h /\
     tasks (touch l now h) = tasks h /\
     forall l',
       objs (touch l now h) !! l' =
       (fun e => if decide (l' = l)
                 then if alive e then set_last_accessed now e else e
                 else e) <$> objs h !! l') /\
  (forall now g h g' h' out,
     reachable h -> grid_cycle now g h = Some (g', h', out) ->
     reachable h' /\ _streams h' = _streams h /\ tasks h' = tasks h /\
     forall l e', objs h' !! l = Some e' ->
       exists e, objs h !! l = Some e /\ frame e' = frame e /\
                 frame_seq e' = frame_seq e /\ alive e' = alive e /\
                 task e' = task e /\ error e' = error e /\
                 params_key e' = params_key e /\
                 (alive e = false -> e' = e)).
Proof.
  split; [exact viewer_poll_is_touch|].
  split; [exact grid_visit_is_touch|].
  split.
  - intros l now h. destruct (touch_registry l now h) as [H1 H2].
    split; [done|]. split; [done|]. intros l'. apply touch_lookup.
  - intros now g h g' h' out R C. by eapply grid_for_reachable.
Qed.

Lemma pollers_only_touch_witness :
  exists g' h' out,
    grid_cycle 5 grid_seen hub_replaced = Some (g', h', out) /\
    reachable h' /\ _streams h' = _streams hub_replaced /\
    tasks h' = tasks hub_replaced.
Proof.
  assert (reachable hub_replaced) as R.
  { eapply (reachable_run
              [Restart 1 "30-5-1.0" 2; Producer 1%nat StartOk;
               Producer 1%nat (Frame [xff; xd8; x00; xff; xd9] 3)]
              hub_published);
      [exact hub_published_reachable | reflexivity]. }
  destruct pollers_only_touch as (_ & _ & _ & H).
  eexists _, _, _. split; [reflexivity|].
  destruct (H 5%Q grid_seen hub_replaced _ _ _ R eq_refl) as (R' & Hs & Ht & _).
  auto.
Defined.

(** ** The grid sends each frame once *)

Lemma caught_up_touch g h pid l l0 now :
  caught_up g h pid l -> caught_up g (touch l0 now h) pid l.
Proof.
  intros C e' He' A'.
  destruct (touch_frames l0 now h l e' He') as (e & He & F & Q & A).
  rewrite F, Q. apply (C e He). congruence.
Qed.

Lemma caught_up_frames g g2 h h1 p l' :
  (forall l e', objs h1 !! l = Some e' ->
     exists e, objs h !! l = Some e /\ frame e' = frame e /\
               frame_seq e' = frame_seq e /\ alive e' = alive e) ->
  default 0 (seen_seqs g !! p) <= default 0 (seen_seqs g2 !! p) ->
  caught_up g h p l' -> caught_up g2 h1 p l'.
Proof.
  intros Hfr Hs C e' He' A'.
  destruct (Hfr l' e' He') as (e & He & F & Q & A).
  rewrite F, Q. destruct (C e He) as [?|?]; [congruence | by left | right; lia].
Qed.

Lemma grid_visit_caught_up now pid l g h g1 h1 out1 :
  grid_visit now pid l g h = Some (g1, h1, out1) ->
  caught_up g1 h1 pid l /\
  (forall p l', p <> pid -> caught_up g h p l' -> caught_up g1 h1 p l') /\
  (forall kv, In kv (entries g1) -> In kv (entries g)) /\
  (length out1 <= 1)%nat.
Proof.
  intros V.
  assert (forall l e', objs h1 !! l = Some e' ->
            exists e, objs h !! l = Some e /\ frame e' = frame e /\
                      frame_seq e' = frame_seq e /\ alive e' = alive e) as Hfr.
  { rewrite (grid_visit_is_touch _ _ _ _ _ _ _ _ V).
    intros l0 e'. apply touch_frames. }
  assert (forall e', objs h1 !! l = Some e' -> alive e' = true ->
            exists e, objs h !! l = Some e /\ alive e = true /\
                      frame e' = frame e /\ frame_seq e' = frame_seq e) as Hl.
  { intros e' He' A'. destruct (Hfr l e' He') as (e & He & F & Q & A).
    exists e. repeat split; congruence. }
  unfold grid_visit in V. destruct (objs h !! l) as [e|] eqn:He.
  - destruct (alive e) eqn:A; simpl in V.
    + destruct (Z.leb_spec (frame_seq e) (default 0 (seen_seqs g !! pid)))
        as [Hle|Hgt].
      * injection V as <- <- <-. split.
        { intros e' He' A'. destruct (Hl e' He' A') as (e0 & [= <-] & _ & F & Q).
          right. lia. }
        split; [|split; [done | simpl; lia]].
        intros p l' _. by apply caught_up_frames.
      * destruct (frame e) as [f|] eqn:F.
        -- destruct (struct_pack_II pid (Z.of_nat (length f))) as [hd|];
             [|done].
           injection V as <- <- <-. split.
           { intros e' He' A'.
             destruct (Hl e' He' A') as (e0 & [= <-] & _ & F' & Q).
             right. simpl. rewrite lookup_insert_eq. simpl. lia. }
           split; [|split; [done | simpl; lia]].
           intros p l' Hne. apply caught_up_frames; [done|].
           simpl. by rewrite lookup_insert_ne.
        -- injection V as <- <- <-. split.
           { intros e' He' A'.
             destruct (Hl e' He' A') as (e0 & [= <-] & _ & F' & Q).
             left. congruence. }
           split; [|split; [done | simpl; lia]].
           intros p l' _. by apply caught_up_frames.
    + injection V as <- <- <-. split.
      { intros e' He' A'. congruence. }
      split; [|split; [intros kv; apply dict_pop_In | simpl; lia]].
      intros p l' _. by apply caught_up_frames.
  - injection V as <- <- <-. split.
    { intros e' He'. congruence. }
    split; [|split; [done | simpl; lia]].
    intros p l' _. by apply caught_up_frames.
Qed.

Lemma grid_for_keeps_caught_up now pid l items : forall g h g' h' out,
  (forall l0, ~ In (pid, l0) items) ->
  grid_for now items g h = Some (g', h', out) ->
  caught_up g h pid l -> caught_up g' h' pid l.
Proof.
  induction items as [|[p l1] items IH]; intros g h g' h' out Hno; simpl.
  - by intros [= <- <- <-].
  - destruct (grid_visit now p l1 g h) as [[[g1 h1] out1]|] eqn:V; [|done].
    destruct (grid_for now items g1 h1) as [[[g2 h2] out2]|] eqn:F; [|done].
    intros [= <- <- <-] C.
    destruct (grid_visit_caught_up _ _ _ _ _ _ _ _ V) as (_ & Ho & _ & _).
    eapply (IH g1 h1); [|exact F|].
    + intros l0 Hin. apply (Hno l0). by right.
    + apply Ho; [|done]. intros ->. apply (Hno l1). by left.
Qed.

Lemma grid_for_caught_up now items : forall g h g' h' out,
  NoDup (map fst items) ->
  grid_for now items g h = Some (g', h', out) ->
  (forall p l, In (p, l) items -> caught_up g' h' p l) /\
  (forall kv, In kv (entries g') -> In kv (entries g)) /\
  (length out <= length items)%nat.
Proof.
  induction items as [|[pid l] items IH]; intros g h g' h' out Hnd; simpl.
  - intros [= <- <- <-]. repeat split; [by intros ? ? [] | done | done].
  - apply NoDup_cons in Hnd as [Hk Hnd].
    destruct (grid_visit now pid l g h) as [[[g1 h1] out1]|] eqn:V; [|done].
    destruct (grid_for now items g1 h1) as [[[g2 h2] out2]|] eqn:F; [|done].
    intros [= <- <- <-].
    destruct (grid_visit_caught_up _ _ _ _ _ _ _ _ V) as (Hc & _ & Hsub & Hl).
    destruct (IH g1 h1 g2 h2 out2 Hnd F) as (Hall & Hsub2 & Hl2).
    split.
    + intros p l0 [[= <- <-]|Hin]; [|by apply Hall].
      eapply (grid_for_keeps_caught_up now pid l items g1 h1); [|exact F|done].
      intros l0 Hin. apply Hk.
      apply list_elem_of_In, in_map_iff. by exists (pid, l0).
    + split; [intros kv Hin; by apply Hsub, Hsub2|].
      rewrite length_app. lia.
Qed.

Lemma grid_visit_quiet now pid l g h :
  caught_up g h pid l ->
  exists g1,
    grid_visit now pid l g h = Some (g1, touch l now h, []) /\
    seen_seqs g1 = seen_seqs g /\
    (forall kv, In kv (entries g1) -> In kv (entries g)).
Proof.
  intros C. unfold grid_visit, touch, caught_up in *.
  destruct (objs h !! l) as [e|] eqn:He; [|by exists g].
  destruct (alive e) eqn:A; simpl.
  - destruct (C e eq_refl A) as [F|Hle].
    + destruct (frame_seq e <=? default 0 (seen_seqs g !! pid));
        [by exists g|]. rewrite F. by exists g.
    + destruct (Z.leb_spec (frame_seq e) (default 0 (seen_seqs g !! pid)));
        [by exists g | lia].
  - eexists. split; [reflexivity|]. split; [done|].
    intros kv. apply dict_pop_In.
Qed.

Lemma grid_for_quiet now items : forall g h,
  (forall p l, In (p, l) items -> caught_up g h p l) ->
  exists g' h',
    grid_for now items g h = Some (g', h', []) /\
    seen_seqs g' = seen_seqs g.
Proof.
  induction items as [|[pid l] items IH]; intros g h Hall; simpl.
  - by exists g, h.
  - destruct (grid_visit_quiet now pid l g h) as (g1 & -> & Hs & _).
    { apply Hall. by left. }
    destruct (IH g1 (touch l now h)) as (g2 & h2 & -> & Hs2).
    { intros p l0 Hin. apply caught_up_touch.
      intros e He A. rewrite Hs. apply (Hall p l0); [by right | done | done]. }
    exists g2, h2. split; [done | congruence].
Qed.

Lemma grid_for_all_dead now items : forall g h,
  (forall p l, In (p, l) items ->
               exists e, objs h !! l = Some e /\ alive e = false) ->
  exists g',
    grid_for now items g h = Some (g', h, []) /\
    seen_seqs g' = seen_seqs g /\
    forall p l, In (p, l) (entries g') ->
                In (p, l) (entries g) /\ forall l0, ~ In (p, l0) items.
Proof.
  induction items as [|[pid l] items IH]; intros g h Hall; simpl.
  - exists g. repeat split; try done. by intros l0 [].
  - destruct (Hall pid l (or_introl eq_refl)) as (e & He & A).
    rewrite (grid_visit_dead now pid l g h e He A).
    destruct (IH {| entries := dict_pop pid (entries g);
                    seen_seqs := seen_seqs g |} h) as (g2 & -> & Hs & Hsub).
    { intros p l0 Hin. apply (Hall p l0). by right. }
    exists g2. split; [done|]. split; [done|].
    intros p l0 Hin. destruct (Hsub p l0 Hin) as [Hin1 Hno]. simpl in Hin1.
    split; [by eapply dict_pop_In|].
    intros l1 [[= <- <-]|Hin2]; [|by apply (Hno l1)].
    by apply (dict_pop_absent pid (entries g) l0).
Qed.

(** X12. The grid multiplexer sends each frame once.  After a pass over
    its rotation, a second pass with no step of the system in between
    sends nothing and leaves the last-seen sequence numbers as they are;
    a pass sends at most one chunk per camera of the rotation.  When
    every stream of the rotation is dead, the next pass sends nothing,
    does not touch the hub, empties the rotation, and the generator
    ends. *)
Theorem grid_sends_each_frame_once :
  (forall now now' g h g1 h1 out1,
     NoDup (dict_keys (entries g)) ->
     grid_cycle now g h = Some (g1, h1, out1) ->
     (length out1 <= length (entries g))%nat /\
     exists g2 h2,
       grid_cycle now' g1 h1 = Some (g2, h2, []) /\
       seen_seqs g2 = seen_seqs g1) /\
  (forall now tr sched g h,
     (forall p l, In (p, l) (entries g) ->
                  exists e, objs h !! l = Some e /\ alive e = false) ->
     exists g',
       grid_cycle now g h = Some (g', h, []) /\ entries g' = [] /\
       seen_seqs g' = seen_seqs g /\
       grid_run ((now, tr) :: sched) g h = Some (g', h, [])).
Proof.
  split.
  - intros now now' g h g1 h1 out1 Hnd C. unfold grid_cycle in *.
    destruct (grid_for_caught_up now (entries g) g h g1 h1 out1 Hnd C)
      as (Hall & Hsub & Hl).
    split; [done|].
    destruct (grid_for_quiet now' (entries g1) g1 h1) as (g2 & h2 & E & Hs).
    { intros p l Hin. apply Hall. by apply Hsub. }
    by exists g2, h2.
  - intros now tr sched g h Hall. unfold grid_cycle.
    destruct (grid_for_all_dead now (entries g) g h Hall)
      as (g' & E & Hs & Hsub).
    assert (entries g' = []) as Hnil.
    { destruct (entries g') as [|[p l] rest] eqn:Ee; [done|].
      destruct (Hsub p l) as [Hin Hno]; [by left|]. by destruct (Hno l). }
    exists g'. split; [done|]. split; [done|]. split; [done|].
    simpl. unfold grid_cycle. by rewrite E, Hnil.
Qed.

Lemma grid_sends_each_frame_once_witness :
  (exists chunk g1 h1,
     grid_cycle 5 (grid_init [(1, 0%nat)]) hub_published =
       Some (g1, h1, [chunk]) /\
     exists g2 h2, grid_cycle 6 g1 h1 = Some (g2, h2, []) /\
                   seen_seqs g2 = seen_seqs g1) /\
  (exists g',
     grid_run [(5%Q, [])] (grid_init [(1, 0%nat)]) hub_stopped =
       Some (g', hub_stopped, []) /\ entries g' = []).
Proof.
  destruct grid_sends_each_frame_once as [H1 H2]. split.
  - eexists _, _, _. split; [reflexivity|].
    refine (proj2 (H1 5%Q 6%Q (grid_init [(1, 0%nat)]) hub_published _ _ _
                     _ eq_refl)).
    apply NoDup_singleton.
  - destruct (H2 5%Q [] [] (grid_init [(1, 0%nat)]) hub_stopped)
      as (g' & _ & Hn & _ & E).
    + intros p l [[= <- <-]|[]]. eexists. split; reflexivity.
    + by exists g'.
Defined.

(** * Properties of the module-level tables *)

(** ** Stale frame buffers *)









(** ** The periodic cleanup task *)

(** X14. However [start_frame_buffer_cleanup] and
    [stop_frame_buffer_cleanup] are called, at most one cleanup loop is
    left uncancelled: a task whose cancellation was not requested exists
    exactly when [_cleanup_task] is set, and then it is that task.
    Starting twice creates one task; stopping without a task does
    nothing. *)
Theorem one_cleanup_task :
  forall calls,
    let c := foldl cleanup_step cleanup_init calls in
    (forall t, cleanup_loops c !! t = Some false <-> _cleanup_task c = Some t) /\
    start_frame_buffer_cleanup (start_frame_buffer_cleanup c) =
      start_frame_buffer_cleanup c /\
    stop_frame_buffer_cleanup (stop_frame_buffer_cleanup c) =
      stop_frame_buffer_cleanup c /\
    _cleanup_task (stop_frame_buffer_cleanup c) = None /\
    is_Some (_cleanup_task (start_frame_buffer_cleanup c)).
Proof.
  intros calls.
  assert (forall c,
            (forall t, cleanup_loops c !! t = Some false <->
                       _cleanup_task c = Some t) ->
            forall a t, cleanup_loops (cleanup_step c a) !! t = Some false <->
                        _cleanup_task (cleanup_step c a) = Some t) as Hstep.
  { intros c Inv a t. destruct a; simpl.
    - unfold start_frame_buffer_cleanup.
      destruct (_cleanup_task c) as [t0|] eqn:E; [rewrite E; by apply Inv|].
      simpl.
      split.
      + intros H. destruct (decide (t < length (cleanup_loops c))%nat).
        * rewrite lookup_app_l in H by done. apply Inv in H. congruence.
        * apply lookup_lt_Some in H as Hlt. rewrite length_app in Hlt.
          simpl in Hlt. f_equal. lia.
      + intros [= <-]. by apply list_lookup_middle.
    - unfold stop_frame_buffer_cleanup.
      destruct (_cleanup_task c) as [t0|] eqn:E; [|rewrite E; by apply Inv].
      simpl.
      split; [|done]. intros H. exfalso.
      destruct (decide (t = t0)) as [->|Hne].
      + apply lookup_lt_Some in H as Hlt. rewrite length_insert in Hlt.
        by rewrite list_lookup_insert_eq in H.
      + rewrite list_lookup_insert_ne in H by done.
        apply Inv in H. congruence. }
  assert (forall c,
            (forall t, cleanup_loops c !! t = Some false <->
                       _cleanup_task c = Some t) ->
            forall t, cleanup_loops (foldl cleanup_step c calls) !! t
                        = Some false <->
                      _cleanup_task (foldl cleanup_step c calls) = Some t)
    as Hall.
  { induction calls as [|a calls IH]; intros c Inv; [done|]. simpl.
    apply IH. intros t. by apply Hstep. }
  intros c. split.
  { apply Hall. intros t. simpl. by rewrite lookup_nil. }
  unfold start_frame_buffer_cleanup, stop_frame_buffer_cleanup.
  destruct (_cleanup_task c) as [t|] eqn:E; simpl; rewrite ?E; by eauto.
Qed.

(** ** The chamber image source *)

Lemma chamber_loop_stalled raw pid fi pre post : forall last c s,
  0 <= c ->
  chamber_loop raw pid fi
    (pre ++ ChTimeout :: ChTimeout :: ChTimeout :: post) last c s =
  chamber_loop raw pid fi
    (pre ++ [ChTimeout; ChTimeout; ChTimeout]) last c s /\
  (chamber_loop raw pid fi
     (pre ++ [ChTimeout; ChTimeout; ChTimeout]) last c s).2 = true.
Proof.
  induction pre as [|r pre IH]; intros last c s Hc.
  - cbn [app chamber_loop].
    destruct (Z.leb_spec 3 (c + 1)); [done|].
    destruct (Z.leb_spec 3 (c + 1 + 1)); [done|].
    destruct (Z.leb_spec 3 (c + 1 + 1 + 1)); [done | lia].
  - destruct r as [f t1 t2| | |]; cbn [app chamber_loop]; try done.
    + destruct (negb (Qle_bool fi (t2 - last))).
      * apply IH. lia.
      * destruct (IH t2 0 (store_frame pid f t1 s) ltac:(lia)) as [-> H2].
        split; [done|].
        by destruct (chamber_loop raw pid fi (pre ++ _) t2 0 _) as [[? ?] ?].
    + destruct (Z.leb_spec 3 (c + 1)); [done|]. apply IH. lia.
Qed.

Lemma chamber_loop_tail raw pid fi tail : forall last s,
  forallb is_timeout tail = true -> (length tail <= 2)%nat ->
  chamber_loop raw pid fi tail last 0 s = ([], s, false).
Proof.
  intros last s Ht Hl.
  destruct tail as [|[] [|[] [|? ?]]]; simpl in *; try done; lia.
Qed.

Lemma chamber_loop_steady raw pid fi rs tail :
  steady rs ->
  forallb is_timeout tail = true -> (length tail <= 2)%nat ->
  forall last s, (chamber_loop raw pid fi (rs ++ tail) last 0 s).2 = false.
Proof.
  intros St Ht Hl. induction St as [|f t1 t2 rs St IH|f t1 t2 rs St IH
                                    |f t1 t2 rs St IH]; intros last s.
  - by rewrite chamber_loop_tail.
  - cbn [app chamber_loop]. destruct (negb (Qle_bool fi (t2 - last))).
    + apply IH.
    + specialize (IH t2 (store_frame pid f t1 s)).
      by destruct (chamber_loop raw pid fi (rs ++ tail) t2 0 _) as [[? ?] ?].
  - cbn [app chamber_loop]. change (3 <=? 0 + 1) with false. cbn iota.
    destruct (negb (Qle_bool fi (t2 - last))).
    + apply IH.
    + specialize (IH t2 (store_frame pid f t1 s)).
      by destruct (chamber_loop raw pid fi (rs ++ tail) t2 0 _) as [[? ?] ?].
  - cbn [app chamber_loop]. change (3 <=? 0 + 1) with false.
    change (3 <=? 0 + 1 + 1) with false. cbn iota.
    destruct (negb (Qle_bool fi (t2 - last))).
    + apply IH.
    + specialize (IH t2 (store_frame pid f t1 s)).
      by destruct (chamber_loop raw pid fi (rs ++ tail) t2 0 _) as [[? ?] ?].
Qed.

Lemma chamber_frame_interval_pos fps :
  0 < fps -> chamber_frame_interval fps = Some (1 / inject_Z fps)%Q.
Proof.
  intros H. unfold chamber_frame_interval, truediv.
  destruct (Z.ltb_spec 0 fps); [|lia]. destruct (Z.eqb_spec fps 0); [lia|done].
Qed.

Lemma chamber_frame_interval_Some fps :
  exists fi, chamber_frame_interval fps = Some fi.
Proof.
  unfold chamber_frame_interval, truediv.
  destruct (Z.ltb_spec 0 fps); [|by eexists].
  destruct (Z.eqb_spec fps 0); [lia | by eexists].
Qed.

(** X15. The chamber source gives up at the third timeout in a row and
    not before.  Once three reads in a row have timed out the generator
    has finished, and nothing that comes later is read: the chunks, the
    tables and the calls are those of the reads up to the third timeout.
    As long as every run of timeouts is at most two long and is followed
    by a frame (a frame resets the count), and no connection error or
    exception occurs, the generator keeps running, whatever the number of
    timeouts in total. *)
Theorem chamber_three_timeouts :
  (forall conn fps sid pid raw pre post s,
     generate_chamber_mjpeg_stream (Some conn) fps sid pid raw
       (pre ++ ChTimeout :: ChTimeout :: ChTimeout :: post) s =
     generate_chamber_mjpeg_stream (Some conn) fps sid pid raw
       (pre ++ [ChTimeout; ChTimeout; ChTimeout]) s /\
     (generate_chamber_mjpeg_stream (Some conn) fps sid pid raw
        (pre ++ [ChTimeout; ChTimeout; ChTimeout]) s).1.2 = true) /\
  (forall conn fps sid pid raw rs tail s,
     steady rs ->
     forallb is_timeout tail = true -> (length tail <= 2)%nat ->
     (generate_chamber_mjpeg_stream (Some conn) fps sid pid raw
        (rs ++ tail) s).1.2 = false).
Proof.
  split.
  - intros conn fps sid pid raw pre post s.
    unfold generate_chamber_mjpeg_stream.
    destruct (chamber_frame_interval fps) as [fi|]; [|done].
    set (s0 := register _ _ _ _ _).
    destruct (chamber_loop_stalled raw pid fi pre post 0 0 s0 ltac:(lia))
      as [-> H2].
    split; [done|].
    destruct (chamber_loop raw pid fi _ 0 0 s0) as [[out s'] ended].
    simpl in H2. by rewrite H2.
  - intros conn fps sid pid raw rs tail s St Ht Hl.
    unfold generate_chamber_mjpeg_stream.
    destruct (chamber_frame_interval_Some fps) as [fi ->].
    set (s0 := register _ _ _ _ _).
    pose proof (chamber_loop_steady raw pid fi rs tail St Ht Hl 0 s0) as H.
    destruct (chamber_loop raw pid fi _ 0 0 s0) as [[out s'] ended].
    simpl in H. by rewrite H.
Qed.

Lemma chamber_three_timeouts_witness :
  steady (take 4 chamber_reads) /\
  (generate_chamber_mjpeg_stream (Some 3%nat) 5 (Some "1-00c0ffee"%string)
     (Some 1) true chamber_reads tables_chamber).1.2 = false.
Proof.
  assert (steady (take 4 chamber_reads)) as St.
  { apply steady_frame, steady_two, steady_nil. }
  split; [exact St|].
  destruct chamber_three_timeouts as [_ H].
  exact (H 3%nat 5 (Some "1-00c0ffee"%string) (Some 1) true
           (take 4 chamber_reads) [ChTimeout] tables_chamber St eq_refl
           ltac:(simpl; lia)).
Defined.

(** *** Buffers and cleanup *)

Lemma store_frame_other pid f t s :
  _hub (world (store_frame pid f t s)) = _hub (world s) /\
  _stream_start_times (world (store_frame pid f t s)) =
    _stream_start_times (world s) /\
  _active_streams (store_frame pid f t s) = _active_streams s /\
  _active_chamber_streams (store_frame pid f t s) = _active_chamber_streams s /\
  forall q, pid <> Some q ->
    _last_frames (store_frame pid f t s) !! q = _last_frames s !! q /\
    _last_frame_times (store_frame pid f t s) !! q = _last_frame_times s !! q.
Proof.
  destruct pid as [p|]; simpl; [|done]. repeat split; try done.
  - apply lookup_insert_ne. congruence.
  - apply lookup_insert_ne. congruence.
Qed.

(** What the loop leaves in the tables: only the buffer entries of its
    own printer change, and they hold the last frame read. *)
Lemma chamber_loop_tables raw pid fi reads : forall last c s out s' ended,
  chamber_loop raw pid fi reads last c s = (out, s', ended) ->
  _hub (world s') = _hub (world s) /\
  _stream_start_times (world s') = _stream_start_times (world s) /\
  _active_streams s' = _active_streams s /\
  _active_chamber_streams s' = _active_chamber_streams s /\
  (forall q, pid <> Some q ->
     _last_frames s' !! q = _last_frames s !! q /\
     _last_frame_times s' !! q = _last_frame_times s !! q) /\
  sublist out (map (emit raw) (frames_read reads)).
Proof.
  induction reads as [|r reads IH]; intros last c s out s' ended H.
  - injection H as <- <- <-. repeat split; try done.
  - destruct r as [f t1 t2| | |]; cbn [chamber_loop frames_read map] in H.
    + destruct (store_frame_other pid f t1 s) as (S1 & S2 & S3 & S4 & S5).
      destruct (negb (Qle_bool fi (t2 - last))).
      * destruct (IH _ _ _ _ _ _ H) as (H1 & H2 & H3 & H4 & H5 & H6).
        rewrite H1, H2, H3, H4. repeat split; try done.
        -- destruct (H5 q) as [-> _]; [done|]. by apply S5.
        -- destruct (H5 q) as [_ ->]; [done|]. by apply S5.
        -- by apply sublist_cons.
      * destruct (chamber_loop raw pid fi reads t2 0 _) as [[o1 s1] l1] eqn:E.
        injection H as <- <- <-.
        destruct (IH _ _ _ _ _ _ E) as (H1 & H2 & H3 & H4 & H5 & H6).
        rewrite H1, H2, H3, H4. repeat split; try done.
        -- destruct (H5 q) as [-> _]; [done|]. by apply S5.
        -- destruct (H5 q) as [_ ->]; [done|]. by apply S5.
        -- by apply sublist_skip.
    + destruct (3 <=? c + 1).
      * injection H as <- <- <-. repeat split; try done. apply sublist_nil_l.
      * by apply (IH _ _ _ _ _ _ H).
    + injection H as <- <- <-. repeat split; try done. apply sublist_nil_l.
    + injection H as <- <- <-. repeat split; try done. apply sublist_nil_l.
Qed.

Lemma chamber_loop_buffer raw p fi pre f t1 t2 post : forall last c s out s',
  forallb (fun r => negb (is_frame r)) post = true ->
  chamber_loop raw (Some p) fi (pre ++ ChFrame f t1 t2 :: post) last c s
    = (out, s', false) ->
  _last_frames s' !! p = Some f /\ _last_frame_times s' !! p = Some t1.
Proof.
  intros last c s out s' Hpost.
  assert (forall last c s out s',
            chamber_loop raw (Some p) fi post last c s = (out, s', false) ->
            s' = s) as Hp.
  { clear -Hpost. induction post as [|r post IH]; intros last c s out s' H.
    - by injection H as <- <-.
    - destruct r; simpl in Hpost; try done; cbn [chamber_loop] in H; try done.
      destruct (3 <=? c + 1); [done|]. by apply (IH Hpost _ _ _ _ _ H). }
  revert last c s out s'.
  induction pre as [|r pre IH]; intros last c s out s' H.
  - cbn [app chamber_loop] in H.
    destruct (negb (Qle_bool fi (t2 - last))).
    + apply Hp in H. subst s'. simpl. by rewrite !lookup_insert_eq.
    + destruct (chamber_loop raw (Some p) fi post t2 0 _) as [[o1 s1] l1] eqn:E.
      injection H as <- <- ->. apply Hp in E. subst s1. simpl.
      by rewrite !lookup_insert_eq.
  - destruct r as [f0 u1 u2| | |]; cbn [app chamber_loop] in H; try done.
    + destruct (negb (Qle_bool fi (u2 - last))).
      * by apply (IH _ _ _ _ _ H).
      * destruct (chamber_loop raw (Some p) fi (pre ++ _) u2 0 _)
          as [[o1 s1] l1] eqn:E.
        injection H as <- <- ->. by apply (IH _ _ _ _ _ E).
    + destruct (3 <=? c + 1); [done|]. by apply (IH _ _ _ _ _ H).
Qed.

Lemma sdict_mem_del {V} k (d : list (string * V)) :
  sdict_mem k (sdict_del k d) = false.
Proof.
  unfold sdict_mem, sdict_del. induction d as [|[k' v] d IH]; [done|]. simpl.
  destruct (String.eqb k' k) eqn:E; simpl; [done|]. by rewrite E.
Qed.

Lemma sdict_get_del_ne {V} k k' (d : list (string * V)) :
  k <> k' -> sdict_get k' (sdict_del k d) = sdict_get k' d.
Proof.
  intros Hne. unfold sdict_get, sdict_del.
  induction d as [|[k0 v] d IH]; [done|]. simpl.
  destruct (String.eqb_spec k0 k) as [->|H0]; simpl.
  - destruct (String.eqb_spec k k') as [?|_]; [done|]. exact IH.
  - destruct (String.eqb k0 k'); [done|]. exact IH.
Qed.

Lemma sdict_get_set_ne {V} k k' (v : V) (d : list (string * V)) :
  k <> k' -> sdict_get k' (sdict_set k v d) = sdict_get k' d.
Proof.
  intros Hne. unfold sdict_get.
  induction d as [|[k0 v0] d IH]; simpl.
  - by destruct (String.eqb_spec k k').
  - destruct (String.eqb_spec k0 k) as [->|H0]; simpl.
    + by destruct (String.eqb_spec k k').
    + destruct (String.eqb k0 k'); [done|]. exact IH.
Qed.

Lemma sdict_mem_get {V} k (d : list (string * V)) :
  sdict_mem k d = false <-> sdict_get k d = None.
Proof.
  unfold sdict_mem, sdict_get. induction d as [|[k0 v0] d IH]; [done|]. simpl.
  by destruct (String.eqb k0 k).
Qed.

Lemma pop_buffers_spec p s :
  _hub (world (pop_buffers p s)) = _hub (world s) /\
  _active_streams (pop_buffers p s) = _active_streams s /\
  _active_chamber_streams (pop_buffers p s) = _active_chamber_streams s /\
  _last_frames (pop_buffers p s) = delete p (_last_frames s) /\
  _last_frame_times (pop_buffers p s) = delete p (_last_frame_times s) /\
  _stream_start_times (world (pop_buffers p s)) =
    delete p (_stream_start_times (world s)).
Proof. done. Qed.

(** X16. Buffers and cleanup of the chamber source, for a stream of
    printer [p] registered under a non-empty stream id.  While the
    generator runs, the buffered frame of [p] is the last frame read, with
    its time, whether or not the rate limit let it through, and what is
    yielded are frames that were read, in their order.  Once the generator
    has finished, for whatever reason, [p] has no buffered frame, no frame
    time and no start time, the stream id is not registered, and the
    writer was closed.  At no point does it change the hub, the table of
    ffmpeg processes, another stream id's connection or another printer's
    buffers.  If no connection could be opened, it yields the one error
    part and leaves all tables as they are: nothing is registered and
    nothing is cleaned, so a start time recorded for [p] stays. *)
Theorem chamber_buffers_and_cleanup :
  forall conn fps sid p raw reads s out s' fin es,
    nonempty sid = true ->
    generate_chamber_mjpeg_stream (Some conn) fps (Some sid) (Some p) raw
      reads s = (out, s', fin, es) ->
    sublist out (map (emit raw) (frames_read reads)) /\
    _hub (world s') = _hub (world s) /\
    _active_streams s' = _active_streams s /\
    (forall sid', sid' <> sid ->
       sdict_get sid' (_active_chamber_streams s') =
       sdict_get sid' (_active_chamber_streams s)) /\
    (forall q, q <> p ->
       get_buffered_frame q s' = get_buffered_frame q s /\
       _last_frame_times s' !! q = _last_frame_times s !! q /\
       _stream_start_times (world s') !! q =
         _stream_start_times (world s) !! q) /\
    (fin = false ->
       sdict_get sid (_active_chamber_streams s') = Some conn /\
       es = [] /\
       _stream_start_times (world s') = _stream_start_times (world s) /\
       forall pre f t1 t2 post,
         reads = pre ++ ChFrame f t1 t2 :: post ->
         forallb (fun r => negb (is_frame r)) post = true ->
         get_buffered_frame p s' = Some f /\
         _last_frame_times s' !! p = Some t1) /\
    (fin = true ->
       get_buffered_frame p s' = None /\
       _last_frame_times s' !! p = None /\
       _stream_start_times (world s') !! p = None /\
       sdict_get sid (_active_chamber_streams s') = None /\
       es = [CloseWriter conn]) /\
    generate_chamber_mjpeg_stream None fps (Some sid) (Some p) raw reads s =
      ([connection_failed_part], s, true, []).
Proof.
  intros conn fps sid p raw reads s out s' fin es Hsid H.
  unfold generate_chamber_mjpeg_stream in H. cbn [register] in H.
  rewrite Hsid in H.
  destruct (chamber_frame_interval_Some fps) as [fi Hfi]. rewrite Hfi in H.
  set (s0 := set_active_chamber_streams _ s) in H.
  assert (sdict_get sid (_active_chamber_streams s0) = Some conn) as Hreg.
  { subst s0. simpl. unfold sdict_get. clear.
    induction (_active_chamber_streams s) as [|[k v] d IH]; simpl.
    - by rewrite String.eqb_refl.
    - destruct (String.eqb_spec k sid) as [->|Hne]; simpl.
      + by rewrite String.eqb_refl.
      + destruct (String.eqb_spec k sid); [done | exact IH]. }
  assert (forall sid', sid' <> sid ->
            sdict_get sid' (_active_chamber_streams s0) =
            sdict_get sid' (_active_chamber_streams s)) as Hoth.
  { intros sid' Hne. subst s0. simpl. by apply sdict_get_set_ne. }
  destruct (chamber_loop raw (Some p) fi reads 0 0 s0) as [[o1 s1] l1] eqn:E.
  destruct (chamber_loop_tables _ _ _ _ _ _ _ _ _ _ E)
    as (H1 & H2 & H3 & H4 & H5 & H6).
  split; [by destruct l1; injection H as <- <- <- <-|].
  destruct l1; injection H as <- <- <- <-.
  - (* finished: the finally block has run *)
    unfold finally_tables. rewrite Hsid. cbn [andb].
    assert (sdict_mem sid (_active_chamber_streams s1) = true) as Hm.
    { rewrite H4. destruct (sdict_mem sid _) eqn:M; [done|].
      apply sdict_mem_get in M. congruence. }
    rewrite Hm.
    set (s2 := set_active_chamber_streams _ s1).
    destruct (pop_buffers_spec p s2) as (P1 & P2 & P3 & P4 & P5 & P6).
    unfold get_buffered_frame. rewrite P1, P2, P3, P4, P5, P6.
    subst s2. simpl. rewrite H1, H2, H3, H4.
    split; [done|]. split; [done|]. split.
    { intros sid' Hne. rewrite sdict_get_del_ne by done. by apply Hoth. }
    split.
    { intros q Hq. rewrite !lookup_delete_ne by done.
      destruct (H5 q) as [-> ->]; [congruence | done]. }
    split; [done|]. split; [|done]. intros _.
    rewrite !lookup_delete_eq. repeat split; try done.
    apply sdict_mem_get, sdict_mem_del.
  - (* still running *)
    unfold get_buffered_frame. rewrite H1, H2, H3, H4.
    split; [done|]. split; [done|]. split; [exact Hoth|]. split.
    { intros q Hq. destruct (H5 q) as [-> ->]; [congruence | done]. }
    split; [|done]. intros _.
    split; [exact Hreg|]. split; [done|]. split; [done|].
    intros pre f t1 t2 post -> Hpost.
    exact (chamber_loop_buffer _ _ _ _ _ _ _ _ _ _ _ _ _ Hpost E).
Qed.

Lemma chamber_buffers_and_cleanup_witness :
  nonempty "1-00c0ffee" = true /\
  get_buffered_frame 1
    (generate_chamber_mjpeg_stream (Some 3%nat) 5 (Some "1-00c0ffee"%string)
       (Some 1) true chamber_reads tables_chamber).1.1.2
    = Some [xff; xd8; x00; xff; xd9] /\
  get_buffered_frame 1
    (generate_chamber_mjpeg_stream (Some 3%nat) 5 (Some "1-00c0ffee"%string)
       (Some 1) true (chamber_reads ++ [ChTimeout; ChTimeout]) tables_chamber).1.1.2
    = None.
Proof.
  split; [reflexivity|].
  destruct (generate_chamber_mjpeg_stream (Some 3%nat) 5
              (Some "1-00c0ffee"%string) (Some 1) true chamber_reads
              tables_chamber) as [[[out s'] fin] es] eqn:E.
  destruct (generate_chamber_mjpeg_stream (Some 3%nat) 5
              (Some "1-00c0ffee"%string) (Some 1) true
              (chamber_reads ++ [ChTimeout; ChTimeout])
              tables_chamber) as [[[out2 s2] fin2] es2] eqn:E2.
  pose proof (chamber_buffers_and_cleanup 3%nat 5 "1-00c0ffee" 1 true _ _
                _ _ _ _ eq_refl E)
    as (_ & _ & _ & _ & _ & Hrun & _ & _).
  pose proof (chamber_buffers_and_cleanup 3%nat 5 "1-00c0ffee" 1 true _ _
                _ _ _ _ eq_refl E2)
    as (_ & _ & _ & _ & _ & _ & Hfin & _).
  assert (fin = false) as Hf by (by vm_compute in E; injection E as _ _ <- _).
  assert (fin2 = true) as Hf2 by (by vm_compute in E2; injection E2 as _ _ <- _).
  destruct (Hrun Hf) as (_ & _ & _ & Hbuf).
  destruct (Hbuf (take 3 chamber_reads) [xff; xd8; x00; xff; xd9] 161%Q 161%Q
              [ChTimeout] eq_refl eq_refl) as [B _].
  destruct (Hfin Hf2) as (B2 & _).
  simpl. split; [exact B | exact B2].
Defined.

(** ** The RTSP source *)

Lemma store_frames_spec pid clock fs : forall n s,
  _hub (world (store_frames pid clock n fs s)) = _hub (world s) /\
  _stream_start_times (world (store_frames pid clock n fs s)) =
    _stream_start_times (world s) /\
  _active_streams (store_frames pid clock n fs s) = _active_streams s /\
  _active_chamber_streams (store_frames pid clock n fs s) =
    _active_chamber_streams s /\
  (forall q, pid <> Some q ->
     _last_frames (store_frames pid clock n fs s) !! q = _last_frames s !! q /\
     _last_frame_times (store_frames pid clock n fs s) !! q =
       _last_frame_times s !! q) /\
  (forall p, pid = Some p ->
     _last_frames (store_frames pid clock n fs s) !! p =
       match last fs with
       | Some f => Some f
       | None => _last_frames s !! p
       end /\
     _last_frame_times (store_frames pid clock n fs s) !! p =
       match last fs with
       | Some _ => Some (clock (n + length fs - 1)%nat)
       | None => _last_frame_times s !! p
       end).
Proof.
  induction fs as [|f fs IH]; intros n s; [done|]. cbn [store_frames].
  destruct (IH (S n) (store_frame pid f (clock n) s))
    as (H1 & H2 & H3 & H4 & H5 & H6).
  destruct (store_frame_other pid f (clock n) s) as (S1 & S2 & S3 & S4 & S5).
  rewrite H1, H2, H3, H4.
  split; [done|]. split; [done|]. split; [done|]. split; [done|]. split.
  - intros q Hq. destruct (H5 q Hq) as [-> ->]. by apply S5.
  - intros p Hp. destruct (H6 p Hp) as [-> ->]. subst pid.
    destruct fs as [|g fs].
    + simpl. rewrite !lookup_insert_eq. split; [done|]. do 2 f_equal. lia.
    + change (last (f :: g :: fs)) with (last (g :: fs)).
      destruct (last (g :: fs)) eqn:L; [|by apply last_None in L].
      split; [done|]. do 2 f_equal. simpl. lia.
Qed.

Lemma cut_frames_spec closed_at fs fs' closed :
  cut_frames closed_at fs = (fs', closed) ->
  exists k, fs' = take k fs /\ (closed = true -> fs' <> []).
Proof.
  unfold cut_frames. destruct closed_at as [k|].
  - destruct (Nat.ltb_spec k (length fs)).
    + intros [= <- <-]. exists (S k). split; [done|]. intros _.
      destruct fs; [simpl in *; lia | done].
    + intros [= <- <-]. exists (length fs). by rewrite firstn_all.
  - intros [= <- <-]. exists (length fs). by rewrite firstn_all.
Qed.

(** What the loop yields and what it leaves in the tables. *)
Lemma rtsp_loop_spec raw pid clock reads : forall buf n s out s' ended,
  rtsp_loop raw pid clock reads buf n s = (out, s', ended) ->
  exists fs,
    out = map (emit raw) fs /\
    Forall (fun f => complete_jpeg f = true) fs /\
    _hub (world s') = _hub (world s) /\
    _stream_start_times (world s') = _stream_start_times (world s) /\
    _active_streams s' = _active_streams s /\
    _active_chamber_streams s' = _active_chamber_streams s /\
    (forall q, pid <> Some q ->
       _last_frames s' !! q = _last_frames s !! q /\
       _last_frame_times s' !! q = _last_frame_times s !! q) /\
    (forall p, pid = Some p ->
       _last_frames s' !! p =
         match last fs with
         | Some f => Some f
         | None => _last_frames s !! p
         end /\
       _last_frame_times s' !! p =
         match last fs with
         | Some _ => Some (clock (n + length fs - 1)%nat)
         | None => _last_frame_times s !! p
         end).
Proof.
  induction reads as [|r reads IH]; intros buf n s out s' ended H.
  - injection H as <- <- <-. exists []. repeat split; try done.
  - destruct r as [chunk closed_at| |]; cbn [rtsp_loop] in H.
    + destruct chunk as [|x chunk].
      { injection H as <- <- <-. exists []. repeat split; try done. }
      destruct (extract_complete _ (buf ++ x :: chunk) (le_n _)) as (C & _).
      destruct (extract (buf ++ x :: chunk)) as [fs0 buf'].
      destruct (cut_frames closed_at fs0) as [fs1 closed] eqn:Cut.
      destruct (cut_frames_spec _ _ _ _ Cut) as (k & -> & _).
      simpl in C. apply (Forall_take _ k) in C.
      set (fs1 := take k fs0) in *.
      destruct (store_frames_spec pid clock fs1 n s)
        as (S1 & S2 & S3 & S4 & S5 & S6).
      destruct closed.
      * injection H as <- <- <-. exists fs1.
        split; [done|]. split; [done|]. split; [done|]. split; [done|].
        split; [done|]. split; [done|]. split; [exact S5 | exact S6].
      * destruct (rtsp_loop raw pid clock reads buf' (n + length fs1) _)
          as [[o2 s2] e2] eqn:E.
        injection H as <- <- <-.
        destruct (IH _ _ _ _ _ _ E)
          as (fs2 & -> & C2 & H1 & H2 & H3 & H4 & H5 & H6).
        exists (fs1 ++ fs2). rewrite map_app, H1, H2, H3, H4.
        split; [done|]. split; [by apply Forall_app|].
        split; [done|]. split; [done|]. split; [done|]. split; [done|].
        split.
        -- intros q Hq. destruct (H5 q Hq) as [-> ->]. by apply S5.
        -- intros p Hp. destruct (H6 p Hp) as [-> ->].
           destruct (S6 p Hp) as [-> ->]. rewrite last_app.
           destruct (last fs2) as [f2|] eqn:L2.
           ++ split; [done|]. do 2 f_equal. rewrite length_app. lia.
           ++ apply last_None in L2. subst fs2.
              rewrite length_app. simpl.
              destruct (last fs1); [|done]. split; [done|].
              do 2 f_equal. lia.
    + injection H as <- <- <-. exists []. repeat split; try done.
    + injection H as <- <- <-. exists []. repeat split; try done.
Qed.

Lemma rtsp_loop_feed raw pid clock chunks : forall buf n s,
  (rtsp_loop raw pid clock (map (fun c => RChunk c None) chunks) buf n s).1.1 =
  (feed raw chunks buf).1.
Proof.
  induction chunks as [|c chunks IH]; intros buf n s; [done|].
  cbn [map rtsp_loop feed]. destruct c as [|x c]; [done|].
  destruct (extract (buf ++ x :: c)) as [fs buf']. cbn [cut_frames].
  specialize (IH buf' (n + length fs)%nat (store_frames pid clock n fs s)).
  destruct (rtsp_loop raw pid clock _ buf' _ _) as [[o2 s2] e2].
  destruct (feed raw chunks buf') as [o3 b3]. simpl in *. by rewrite IH.
Qed.

(** X17. What the RTSP source yields and buffers.  Whatever is read from
    ffmpeg and however the stream ends, every chunk yielded is a complete
    JPEG frame (as a multipart part unless [raw]), and the buffered frame
    of the stream's printer is the last frame yielded, unwrapped, with the
    clock reading taken for it; before the first frame the buffer is as it
    was.  Nothing is dropped on the way: if the reads are chunks and the
    generator is not closed, the chunks yielded are exactly those the
    parser makes of the byte stream. *)
Theorem rtsp_yields_and_buffers :
  (forall raw p clock reads s out s' ended,
     rtsp_loop raw (Some p) clock reads [] 0 s = (out, s', ended) ->
     exists fs,
       out = map (emit raw) fs /\
       Forall (fun f => complete_jpeg f = true) fs /\
       get_buffered_frame p s' =
         match last fs with
         | Some f => Some f
         | None => get_buffered_frame p s
         end /\
       _last_frame_times s' !! p =
         match last fs with
         | Some _ => Some (clock (length fs - 1)%nat)
         | None => _last_frame_times s !! p
         end) /\
  (forall raw pid clock chunks s,
     (rtsp_loop raw pid clock (map (fun c => RChunk c None) chunks) [] 0 s).1.1
     = (feed raw chunks []).1).
Proof.
  split.
  - intros raw p clock reads s out s' ended H.
    destruct (rtsp_loop_spec _ _ _ _ _ _ _ _ _ _ H)
      as (fs & E & C & _ & _ & _ & _ & _ & H6).
    exists fs. destruct (H6 p eq_refl) as [B T].
    split; [done|]. split; [done|]. split; [exact B | exact T].
  - intros. apply rtsp_loop_feed.
Qed.

Lemma rtsp_yields_and_buffers_witness :
  exists s',
    rtsp_loop true (Some 1) (fun n => inject_Z (Z.of_nat n)) rtsp_reads [] 0
      tables_chamber
    = ([[xff; xd8; x01; xff; xd9]; [xff; xd8; x02; xff; xd9]], s', false) /\
    get_buffered_frame 1 s' = Some [xff; xd8; x02; xff; xd9] /\
    _last_frame_times s' !! 1 = Some 1%Q.
Proof.
  destruct (rtsp_loop true (Some 1) (fun n => inject_Z (Z.of_nat n))
              rtsp_reads [] 0 tables_chamber) as [[out s'] ended] eqn:E.
  destruct rtsp_yields_and_buffers as [H _].
  destruct (H _ _ _ _ _ _ _ _ E) as (fs & Eo & _ & B & T).
  assert (out = [[xff; xd8; x01; xff; xd9]; [xff; xd8; x02; xff; xd9]]
          /\ ended = false) as [-> ->].
  { vm_compute in E. by injection E as <- _ <-. }
  exists s'. split; [done|].
  assert (fs = [[xff; xd8; x01; xff; xd9]; [xff; xd8; x02; xff; xd9]]) as ->.
  { simpl in Eo. by rewrite map_id in Eo. }
  split; [exact B | exact T].
Defined.

(** *** Start-up and cleanup *)

Lemma sdict_get_set {V} k (v : V) (d : list (string * V)) :
  sdict_get k (sdict_set k v d) = Some v.
Proof.
  unfold sdict_get. induction d as [|[k0 v0] d IH]; simpl.
  - by rewrite String.eqb_refl.
  - destruct (String.eqb_spec k0 k) as [->|Hne]; simpl.
    + by rewrite String.eqb_refl.
    + destruct (String.eqb_spec k0 k); [done | exact IH].
Qed.

Lemma finally_tables_streams sid p s :
  nonempty sid = true ->
  let s' := finally_tables _active_streams set_active_streams
              (Some sid) (Some p) s in
  _hub (world s') = _hub (world s) /\
  _active_chamber_streams s' = _active_chamber_streams s /\
  sdict_get sid (_active_streams s') = None /\
  (forall sid', sid' <> sid ->
     sdict_get sid' (_active_streams s') = sdict_get sid' (_active_streams s)) /\
  _last_frames s' = delete p (_last_frames s) /\
  _last_frame_times s' = delete p (_last_frame_times s) /\
  _stream_start_times (world s') = delete p (_stream_start_times (world s)).
Proof.
  intros Hsid. unfold finally_tables. rewrite Hsid. cbn [andb].
  destruct (sdict_mem sid (_active_streams s)) eqn:M.
  - set (s2 := set_active_streams _ s).
    destruct (pop_buffers_spec p s2) as (P1 & P2 & P3 & P4 & P5 & P6).
    cbn zeta. rewrite P1, P2, P3, P4, P5, P6. subst s2. simpl.
    repeat split; try done.
    + apply sdict_mem_get, sdict_mem_del.
    + intros sid' Hne. by apply sdict_get_del_ne.
  - destruct (pop_buffers_spec p s) as (P1 & P2 & P3 & P4 & P5 & P6).
    cbn zeta. rewrite P1, P2, P3, P4, P5, P6.
    repeat split; try done. by apply sdict_mem_get.
Qed.

(** X18. Start-up and cleanup of the RTSP source, for a stream of printer
    [p] under a non-empty stream id, when ffmpeg is installed.  While the
    generator runs, the stream id is registered with its process and no
    call was made on the process.  Once the generator has finished, for
    whatever reason, [p] has no buffered frame, no frame time and no start
    time, and the stream id is not registered; the process is terminated
    exactly if one was started, it had not exited in the first half second
    and it is still running, and it is killed only after that, when it
    does not end in time.  If ffmpeg cannot be started because the file is
    missing, the one chunk is the error part; if it exits at once, the one
    chunk is the connection error part.  At no point are the hub, the
    table of chamber connections, another stream id's process or another
    printer's buffers changed.  Without an ffmpeg path the generator
    yields the error part and leaves every table as it is. *)
Theorem rtsp_start_and_cleanup :
  forall ffmpeg start sid p raw clock reads running t s out s' fin es,
    nonempty ffmpeg = true -> nonempty sid = true ->
    generate_rtsp_mjpeg_stream (Some ffmpeg) start (Some sid) (Some p) raw
      clock reads running t s = (out, s', fin, es) ->
    _hub (world s') = _hub (world s) /\
    _active_chamber_streams s' = _active_chamber_streams s /\
    (forall sid', sid' <> sid ->
       sdict_get sid' (_active_streams s') =
       sdict_get sid' (_active_streams s)) /\
    (forall q, q <> p ->
       get_buffered_frame q s' = get_buffered_frame q s /\
       _last_frame_times s' !! q = _last_frame_times s !! q /\
       _stream_start_times (world s') !! q =
         _stream_start_times (world s) !! q) /\
    (fin = false ->
       exists proc, start = Started proc /\
         sdict_get sid (_active_streams s') = Some proc /\ es = [] /\
         _stream_start_times (world s') = _stream_start_times (world s)) /\
    (fin = true ->
       get_buffered_frame p s' = None /\
       _last_frame_times s' !! p = None /\
       _stream_start_times (world s') !! p = None /\
       sdict_get sid (_active_streams s') = None /\
       (forall proc, Terminate proc ∈ es <->
          (start = SleepRaise proc \/ start = Started proc) /\
          running = true) /\
       (forall proc, Kill proc ∈ es <->
          Terminate proc ∈ es /\ t = WaitTimeout) /\
       (forall conn, CloseWriter conn ∉ es) /\
       (start = SpawnNotFound -> out = [ffmpeg_missing_part]) /\
       (start = SpawnRaise -> out = []) /\
       (forall proc, start = SleepRaise proc -> out = []) /\
       (forall proc, start = ExitedEarly proc ->
          out = [connection_failed_part])) /\
    (forall ffmpeg', truthy ffmpeg' = false ->
       generate_rtsp_mjpeg_stream ffmpeg' start (Some sid) (Some p) raw
         clock reads running t s = ([ffmpeg_missing_part], s, true, [])).
Proof.
  intros ffmpeg start sid p raw clock reads running t s out s' fin es
    Hff Hsid H.
  unfold generate_rtsp_mjpeg_stream in H. cbn [truthy register] in H.
  rewrite Hff, Hsid in H. cbn [negb] in H.
  pose (reg := fun proc : nat =>
                 set_active_streams (sdict_set sid proc (_active_streams s)) s).
  assert (forall s0 : Tables,
            _hub (world s0) = _hub (world s) ->
            _active_chamber_streams s0 = _active_chamber_streams s ->
            (forall sid', sid' <> sid ->
               sdict_get sid' (_active_streams s0) =
               sdict_get sid' (_active_streams s)) ->
            (forall q, q <> p ->
               _last_frames s0 !! q = _last_frames s !! q /\
               _last_frame_times s0 !! q = _last_frame_times s !! q /\
               _stream_start_times (world s0) !! q =
                 _stream_start_times (world s) !! q) ->
            let s1 := finally_tables _active_streams set_active_streams
                        (Some sid) (Some p) s0 in
            _hub (world s1) = _hub (world s) /\
            _active_chamber_streams s1 = _active_chamber_streams s /\
            (forall sid', sid' <> sid ->
               sdict_get sid' (_active_streams s1) =
               sdict_get sid' (_active_streams s)) /\
            (forall q, q <> p ->
               get_buffered_frame q s1 = get_buffered_frame q s /\
               _last_frame_times s1 !! q = _last_frame_times s !! q /\
               _stream_start_times (world s1) !! q =
                 _stream_start_times (world s) !! q) /\
            get_buffered_frame p s1 = None /\
            _last_frame_times s1 !! p = None /\
            _stream_start_times (world s1) !! p = None /\
            sdict_get sid (_active_streams s1) = None) as Hfin.
  { intros s0 A1 A2 A3 A4.
    destruct (finally_tables_streams sid p s0 Hsid)
      as (F1 & F2 & F3 & F4 & F5 & F6 & F7).
    cbn zeta. unfold get_buffered_frame. rewrite F1, F2, F5, F6, F7.
    split; [done|]. split; [done|]. split.
    { intros sid' Hne. rewrite F4 by done. by apply A3. }
    split.
    { intros q Hq. rewrite !lookup_delete_ne by done. by apply A4. }
    by rewrite !lookup_delete_eq. }
  assert (forall proc,
            _hub (world (reg proc)) = _hub (world s) /\
            _active_chamber_streams (reg proc) = _active_chamber_streams s /\
            (forall sid', sid' <> sid ->
               sdict_get sid' (_active_streams (reg proc)) =
               sdict_get sid' (_active_streams s)) /\
            (forall q, q <> p ->
               _last_frames (reg proc) !! q = _last_frames s !! q /\
               _last_frame_times (reg proc) !! q
                 = _last_frame_times s !! q /\
               _stream_start_times (world (reg proc)) !! q =
                 _stream_start_times (world s) !! q)) as Hreg.
  { intros proc. subst reg. simpl. repeat split; try done.
    intros sid' Hne. by apply sdict_get_set_ne. }
  assert (forall ffmpeg', truthy ffmpeg' = false ->
            generate_rtsp_mjpeg_stream ffmpeg' start (Some sid) (Some p) raw
              clock reads running t s = ([ffmpeg_missing_part], s, true, []))
    as Hnone.
  { intros ffmpeg' Hf. unfold generate_rtsp_mjpeg_stream. by rewrite Hf. }
  assert (forall proc : nat,
            (forall proc', Terminate proc' ∈
                             finally_process (Some proc) running t <->
                           proc' = proc /\ running = true) /\
            (forall proc', Kill proc' ∈
                             finally_process (Some proc) running t <->
                           Terminate proc' ∈
                             finally_process (Some proc) running t /\
                           t = WaitTimeout) /\
            (forall conn, CloseWriter conn ∉
                            finally_process (Some proc) running t)) as Hproc.
  { intros proc. unfold finally_process.
    destruct running, t; simpl; (split; [|split]); intros x;
      rewrite ?elem_of_cons, ?elem_of_nil; intuition congruence. }
  destruct start as [| |proc|proc|proc].
  - (* ffmpeg binary not found when spawning *)
    injection H as <- <- <- <-.
    destruct (Hfin s) as (G1 & G2 & G3 & G4 & G5 & G6 & G7 & G8); try done.
    split; [done|]. split; [done|]. split; [done|]. split; [done|].
    split; [done|]. split; [|done]. intros _.
    split; [done|]. split; [done|]. split; [done|]. split; [done|].
    split; [intros proc; rewrite elem_of_nil; intuition congruence|].
    split; [intros proc; rewrite !elem_of_nil; intuition congruence|].
    split; [intros conn; apply not_elem_of_nil|]. done.
  - injection H as <- <- <- <-.
    destruct (Hfin s) as (G1 & G2 & G3 & G4 & G5 & G6 & G7 & G8); try done.
    split; [done|]. split; [done|]. split; [done|]. split; [done|].
    split; [done|]. split; [|done]. intros _.
    split; [done|]. split; [done|]. split; [done|]. split; [done|].
    split; [intros proc; rewrite elem_of_nil; intuition congruence|].
    split; [intros proc; rewrite !elem_of_nil; intuition congruence|].
    split; [intros conn; apply not_elem_of_nil|]. done.
  - injection H as <- <- <- <-.
    destruct (Hreg proc) as (R1 & R2 & R3 & R4).
    destruct (Hfin (reg proc) R1 R2 R3 R4)
      as (G1 & G2 & G3 & G4 & G5 & G6 & G7 & G8).
    destruct (Hproc proc) as (T1 & T2 & T3).
    split; [done|]. split; [done|]. split; [done|]. split; [done|].
    split; [done|]. split; [|done]. intros _.
    split; [done|]. split; [done|]. split; [done|]. split; [done|].
    split; [intros proc'; rewrite T1; intuition congruence|].
    split; [exact T2|]. split; [exact T3|]. done.
  - injection H as <- <- <- <-.
    destruct (Hreg proc) as (R1 & R2 & R3 & R4).
    destruct (Hfin (reg proc) R1 R2 R3 R4)
      as (G1 & G2 & G3 & G4 & G5 & G6 & G7 & G8).
    split; [done|]. split; [done|]. split; [done|]. split; [done|].
    split; [done|]. split; [|done]. intros _.
    split; [done|]. split; [done|]. split; [done|]. split; [done|].
    split; [intros proc'; rewrite elem_of_nil; intuition congruence|].
    split; [intros proc'; rewrite !elem_of_nil; intuition congruence|].
    split; [intros conn; apply not_elem_of_nil|]. done.
  - destruct (Hreg proc) as (R1 & R2 & R3 & R4).
    change (set_active_streams (sdict_set sid proc (_active_streams s)) s)
      with (reg proc) in H.
    destruct (rtsp_loop raw (Some p) clock reads [] 0 (reg proc))
      as [[o1 s1] e1] eqn:E.
    destruct (rtsp_loop_spec _ _ _ _ _ _ _ _ _ _ E)
      as (fs & _ & _ & L1 & L2 & L3 & L4 & L5 & _).
    assert (forall q, q <> p ->
              _last_frames s1 !! q = _last_frames s !! q /\
              _last_frame_times s1 !! q = _last_frame_times s !! q /\
              _stream_start_times (world s1) !! q =
                _stream_start_times (world s) !! q) as A4.
    { intros q Hq. destruct (L5 q) as [-> ->]; [congruence|].
      rewrite L2. by apply R4. }
    destruct e1; injection H as <- <- <- <-.
    + destruct (Hfin s1) as (G1 & G2 & G3 & G4 & G5 & G6 & G7 & G8).
      { by rewrite L1. } { by rewrite L4. }
      { intros sid' Hne. rewrite L3. by apply R3. } { exact A4. }
      destruct (Hproc proc) as (T1 & T2 & T3).
      split; [done|]. split; [done|]. split; [done|]. split; [done|].
      split; [done|]. split; [|done]. intros _.
      split; [done|]. split; [done|]. split; [done|]. split; [done|].
      split; [intros proc'; rewrite T1; intuition congruence|].
      split; [exact T2|]. split; [exact T3|]. done.
    + split; [by rewrite L1|]. split; [by rewrite L4|].
      split; [intros sid' Hne; rewrite L3; by apply R3|].
      split; [exact A4|]. split; [|done]. intros _. exists proc.
      split; [done|]. split.
      { rewrite L3. subst reg. simpl. apply sdict_get_set. }
      split; [done|]. by rewrite L2.
Qed.

Lemma rtsp_start_and_cleanup_witness :
  nonempty "/usr/bin/ffmpeg" = true /\ nonempty "1-00c0ffee" = true /\
  get_buffered_frame 1
    (generate_rtsp_mjpeg_stream (Some "/usr/bin/ffmpeg"%string)
       (Started 4%nat) (Some "1-00c0ffee"%string) (Some 1) true
       (fun n => inject_Z (Z.of_nat n)) (rtsp_reads ++ [RTimeout]) true Exits
       tables_chamber).1.1.2 = None.
Proof.
  split; [reflexivity|]. split; [reflexivity|].
  destruct (generate_rtsp_mjpeg_stream (Some "/usr/bin/ffmpeg"%string)
              (Started 4%nat) (Some "1-00c0ffee"%string) (Some 1) true
              (fun n => inject_Z (Z.of_nat n)) (rtsp_reads ++ [RTimeout])
              true Exits tables_chamber) as [[[out s'] fin] es] eqn:E.
  pose proof (rtsp_start_and_cleanup "/usr/bin/ffmpeg" (Started 4%nat)
                "1-00c0ffee" 1 true _ _ true Exits _ _ _ _ _
                eq_refl eq_refl E) as (_ & _ & _ & _ & _ & Hfin & _).
  assert (fin = true) as Hf by (by vm_compute in E; injection E as _ _ <- _).
  destruct (Hfin Hf) as (B & _). exact B.
Defined.

(** ** The stop route *)

Lemma filter_twice {A} (f g : A -> bool) (l : list A) :
  List.filter f (List.filter g l) = List.filter (fun x => g x && f x) l.
Proof.
  induction l as [|x l IH]; [done|]. simpl.
  destruct (g x); simpl; [destruct (f x)|]; by rewrite IH.
Qed.

(** Popping a list of keys removes the entries with one of these keys. *)
Lemma pop_all_filter {V} ks : forall d : list (string * V),
  pop_all ks d =
  List.filter (fun kv => negb (existsb (String.eqb (fst kv)) ks)) d.
Proof.
  unfold pop_all. induction ks as [|k ks IH]; intros d.
  - simpl. induction d as [|x d IHd]; [done|]. simpl. by rewrite <- IHd.
  - cbn [foldl]. rewrite IH. unfold sdict_del. rewrite filter_twice.
    apply filter_ext. intros kv. simpl. by rewrite negb_orb.
Qed.

(** Popping the collected keys removes exactly the entries with the
    prefix. *)
Lemma pop_all_prefix {V} (P : string -> bool) (d : list (string * V)) :
  pop_all (map fst (List.filter (fun kv => P (fst kv)) d)) d =
  List.filter (fun kv => negb (P (fst kv))) d.
Proof.
  rewrite pop_all_filter. apply filter_ext_in. intros kv Hin. f_equal.
  destruct (P kv.1) eqn:E.
  - apply existsb_exists. exists kv.1. split; [|apply String.eqb_refl].
    apply in_map, filter_In. by split.
  - destruct (existsb _ _) eqn:X; [|done].
    apply existsb_exists in X as (k & Hk & Heq).
    apply String.eqb_eq in Heq.
    apply in_map_iff in Hk as (kv' & <- & [_ HP]%filter_In). congruence.
Qed.

Lemma stop_processes_spec os prefix d :
  let r := stop_processes os prefix d in
  r.1.1 = map fst (List.filter (fun kv => startswith (fst kv) prefix) d) /\
  r.1.2 = succeeded os r.2 /\
  (forall e, In e r.2 <->
     exists sid p, e = Terminate p /\ In (sid, p) d /\
                   startswith sid prefix = true /\ returncode os p = None).
Proof.
  induction d as [|[sid p] d IH]; simpl.
  - split; [done|]. split; [done|]. intros e. split; [done|].
    by intros (? & ? & _ & [] & _).
  - destruct (stop_processes os prefix d) as [[tr n] es]. simpl in IH.
    destruct IH as (I1 & I2 & I3).
    assert (forall e,
              (exists sid0 p0, e = Terminate p0 /\ In (sid0, p0) d /\
                 startswith sid0 prefix = true /\ returncode os p0 = None) ->
              exists sid0 p0, e = Terminate p0 /\
                 ((sid, p) = (sid0, p0) \/ In (sid0, p0) d) /\
                 startswith sid0 prefix = true /\ returncode os p0 = None)
      as Hweak.
    { intros e (s0 & p0 & ? & ? & ? & ?). exists s0, p0. tauto. }
    destruct (startswith sid prefix) eqn:E; simpl.
    + destruct (returncode os p) eqn:R; simpl.
      * split; [by rewrite I1|]. split; [done|]. intros e. rewrite I3.
        split; [apply Hweak|].
        intros (s0 & p0 & -> & [[= <- <-]|Hin] & Hs & Hr); [congruence|].
        by exists s0, p0.
      * split; [by rewrite I1|]. split.
        { unfold succeeded in *. simpl.
          destruct (terminate_raises os p); simpl; lia. }
        intros e. split.
        -- intros [<-|Hin]; [by exists sid, p; auto|].
           apply Hweak. by apply I3.
        -- intros (s0 & p0 & -> & [[= <- <-]|Hin] & Hs & Hr); [by left|].
           right. apply I3. by exists s0, p0.
    + split; [done|]. split; [done|]. intros e. rewrite I3.
      split; [apply Hweak|].
      intros (s0 & p0 & -> & [[= <- <-]|Hin] & Hs & Hr); [congruence|].
      by exists s0, p0.
Qed.

Lemma stop_connections_spec os prefix d :
  let r := stop_connections os prefix d in
  r.1.1 = map fst (List.filter (fun kv => startswith (fst kv) prefix) d) /\
  r.1.2 = succeeded os r.2 /\
  (forall e, In e r.2 <->
     exists sid c, e = CloseWriter c /\ In (sid, c) d /\
                   startswith sid prefix = true).
Proof.
  induction d as [|[sid c] d IH]; simpl.
  - split; [done|]. split; [done|]. intros e. split; [done|].
    by intros (? & ? & _ & [] & _).
  - destruct (stop_connections os prefix d) as [[tr n] es]. simpl in IH.
    destruct IH as (I1 & I2 & I3).
    assert (forall e,
              (exists sid0 c0, e = CloseWriter c0 /\ In (sid0, c0) d /\
                 startswith sid0 prefix = true) ->
              exists sid0 c0, e = CloseWriter c0 /\
                 ((sid, c) = (sid0, c0) \/ In (sid0, c0) d) /\
                 startswith sid0 prefix = true) as Hweak.
    { intros e (s0 & c0 & ? & ? & ?). exists s0, c0. tauto. }
    destruct (startswith sid prefix) eqn:E; simpl.
    + split; [by rewrite I1|]. split.
      { unfold succeeded in *. simpl.
        destruct (close_raises os c); simpl; lia. }
      intros e. split.
      * intros [<-|Hin]; [by exists sid, c; auto|].
        apply Hweak. by apply I3.
      * intros (s0 & c0 & -> & [[= <- <-]|Hin] & Hs); [by left|].
        right. apply I3. by exists s0, c0.
    + split; [done|]. split; [done|]. intros e. rewrite I3.
      split; [apply Hweak|].
      intros (s0 & c0 & -> & [[= <- <-]|Hin] & Hs); [congruence|].
      by exists s0, c0.
Qed.

Lemma succeeded_app os es1 es2 :
  succeeded os (es1 ++ es2) = succeeded os es1 + succeeded os es2.
Proof. unfold succeeded. rewrite List.filter_app, length_app. lia. Qed.

(** What the route does to the tables, in one equation. *)
Lemma stop_camera_stream_eq os p s :
  stop_camera_stream os p s =
  (succeeded os ((stop_processes os (stream_prefix p) (_active_streams s)).2 ++
                 (stop_connections os (stream_prefix p)
                    (_active_chamber_streams s)).2)
   + (if (stop p (_hub (world s))).1.1 then 1 else 0),
   {| world := set_hub (stop p (_hub (world s))).1.2 (world s);
      _last_frames := _last_frames s;
      _last_frame_times := _last_frame_times s;
      _active_streams := not_of_printer p (_active_streams s);
      _active_chamber_streams := not_of_printer p (_active_chamber_streams s) |},
   (stop_processes os (stream_prefix p) (_active_streams s)).2 ++
   (stop_connections os (stream_prefix p) (_active_chamber_streams s)).2,
   (stop p (_hub (world s))).2).
Proof.
  unfold stop_camera_stream.
  destruct (stop_processes_spec os (stream_prefix p) (_active_streams s))
    as (A1 & A2 & _).
  destruct (stop_processes os (stream_prefix p) (_active_streams s))
    as [[tr1 n1] es1]. simpl in A1, A2. cbn [_active_chamber_streams
    set_active_streams].
  destruct (stop_connections_spec os (stream_prefix p)
              (_active_chamber_streams s)) as (B1 & B2 & _).
  destruct (stop_connections os (stream_prefix p) (_active_chamber_streams s))
    as [[tr2 n2] es2]. simpl in B1, B2.
  cbn [world set_active_chamber_streams set_active_streams _hub].
  destruct (stop p (_hub (world s))) as [[b h] hes]. simpl.
  rewrite succeeded_app, A1, A2, B1, B2.
  rewrite !(pop_all_prefix (fun k => startswith k (stream_prefix p))).
  done.
Qed.

(** X19. The stop route for printer [p] removes from the two tables of
    active streams exactly the entries whose stream id starts with
    [p]'s prefix, keeping the others in their order; it calls
    [terminate()] on exactly the processes registered under such an id
    that have not exited, and [close()] on exactly the connections
    registered under such an id; the number it answers with is the number
    of these calls that did not raise, plus one if the hub had a stream
    for [p].  The frame buffers, frame times and start times are left
    to the generators.  On a reachable hub the printer is inactive
    afterwards, and a second call finds nothing: it answers 0, makes no
    call and changes nothing. *)
Theorem stop_route_outcome :
  forall os p s stopped s' es hes,
    reachable (_hub (world s)) ->
    stop_camera_stream os p s = (stopped, s', es, hes) ->
    _active_streams s' = not_of_printer p (_active_streams s) /\
    _active_chamber_streams s' = not_of_printer p (_active_chamber_streams s) /\
    _last_frames s' = _last_frames s /\
    _last_frame_times s' = _last_frame_times s /\
    _stream_start_times (world s') = _stream_start_times (world s) /\
    (forall proc, In (Terminate proc) es <->
       exists sid, In (sid, proc) (of_printer p (_active_streams s)) /\
                   returncode os proc = None) /\
    (forall conn, In (CloseWriter conn) es <->
       exists sid, In (sid, conn) (of_printer p (_active_chamber_streams s))) /\
    (forall proc, ~ In (Kill proc) es) /\
    stopped = succeeded os es +
              (if bool_decide (is_Some (_streams (_hub (world s)) !! p))
               then 1 else 0) /\
    is_active p (_hub (world s')) = false /\
    (forall q, q <> p ->
       get_entry (_hub (world s')) q = get_entry (_hub (world s)) q) /\
    (forall os', stop_camera_stream os' p s' = (0, s', [], [])).
Proof.
  intros os p s stopped s' es hes R H.
  rewrite stop_camera_stream_eq in H.
  destruct (stop_processes_spec os (stream_prefix p) (_active_streams s))
    as (_ & _ & A3).
  destruct (stop_connections_spec os (stream_prefix p)
              (_active_chamber_streams s)) as (_ & _ & B3).
  set (es1 := (stop_processes os (stream_prefix p) (_active_streams s)).2) in *.
  set (es2 := (stop_connections os (stream_prefix p)
                 (_active_chamber_streams s)).2) in *.
  pose proof (reachable_wf _ R) as W.
  assert (exists b h1 hes1,
            stop p (_hub (world s)) = (b, h1, hes1) /\
            b = bool_decide (is_Some (_streams (_hub (world s)) !! p)) /\
            is_active p h1 = false /\
            (forall q, q <> p -> get_entry h1 q = get_entry (_hub (world s)) q) /\
            stop p h1 = (false, h1, [])) as (b & h1 & hes1 & Hst & Hb & Hi & Ho & H2).
  { destruct (get_entry (_hub (world s)) p) as [[l e]|] eqn:G.
    - destruct (stop_present _ p l e W G)
        as (h' & hes' & k & E & Hs & Hobj & Hk & _).
      exists true, h', hes'. split; [done|].
      pose proof G as [Gb Ge]%get_entry_Some.
      assert (get_entry h' p = None) as G'.
      { apply get_entry_None_streams. rewrite Hs. apply lookup_delete_eq. }
      split; [by rewrite bool_decide_eq_true_2 by (by rewrite Gb)|].
      split; [unfold is_active; by rewrite G'|]. split.
      + intros q Hq. unfold get_entry. rewrite Hs, lookup_delete_ne by done.
        destruct (_streams (_hub (world s)) !! q) as [l'|] eqn:Gq; [|done].
        simpl. rewrite Hobj.
        destruct (decide (l' = l)) as [->|Hne].
        * exfalso. by apply (wf_distinct _ q p l l W Gq Gb Hq).
        * by rewrite list_lookup_insert_ne.
      + by apply stop_absent.
    - exists false, (_hub (world s)), []. rewrite (stop_absent _ _ G).
      split; [done|]. split.
      { symmetry. apply bool_decide_eq_false_2. intros [l Hl].
        unfold get_entry in G. rewrite Hl in G. simpl in G.
        destruct (wf_reg _ W p l Hl) as (k & Hk & _).
        destruct (wf_obj_of_task _ l k W Hk) as [e He].
        by rewrite He in G. }
      split; [unfold is_active; by rewrite G|]. by split. }
  rewrite Hst in H. simpl in H. injection H as <- <- <- <-. simpl.
  split; [done|]. split; [done|]. split; [done|]. split; [done|].
  split; [done|]. split.
  { intros proc. rewrite in_app_iff, A3, B3. unfold of_printer. split.
    - intros [(sid & p0 & [= <-] & Hin & Hs & Hr)|(sid & c & ? & _)]; [|done].
      exists sid. split; [|done]. apply filter_In. by split.
    - intros (sid & [Hin Hs]%filter_In & Hr). left. by exists sid, proc. }
  split.
  { intros conn. rewrite in_app_iff, A3, B3. unfold of_printer. split.
    - intros [(sid & p0 & ? & _)|(sid & c & [= <-] & Hin & Hs)]; [done|].
      exists sid. apply filter_In. by split.
    - intros (sid & [Hin Hs]%filter_In). right. by exists sid, conn. }
  split.
  { intros proc. rewrite in_app_iff, A3, B3.
    by intros [(? & ? & ? & _)|(? & ? & ? & _)]. }
  split; [by rewrite Hb|]. split; [done|]. split; [done|].
  intros os'. rewrite stop_camera_stream_eq. simpl. rewrite H2. simpl.
  assert (forall d, not_of_printer p (not_of_printer p d) = not_of_printer p d)
    as Hidem.
  { intros d. unfold not_of_printer. induction d as [|[k v] d IH]; [done|].
    simpl. destruct (startswith k (stream_prefix p)) eqn:E; simpl; [done|].
    by rewrite E, IH. }
  assert (forall d,
            stop_processes os' (stream_prefix p) (not_of_printer p d)
              = ([], 0, []) /\
            stop_connections os' (stream_prefix p) (not_of_printer p d)
              = ([], 0, [])) as Hnone.
  { intros d. unfold not_of_printer. induction d as [|[k v] d [IH1 IH2]];
      [done|]. simpl.
    destruct (startswith k (stream_prefix p)) eqn:E; simpl; [done|].
    by rewrite IH1, IH2, E. }
  destruct (Hnone (_active_streams s)) as [-> _].
  destruct (Hnone (_active_chamber_streams s)) as [_ ->].
  rewrite !Hidem. done.
Qed.

Lemma stop_route_outcome_witness :
  reachable (_hub (world tables_streaming)) /\
  exists s',
    stop_camera_stream os_running 1 tables_streaming
      = (2, s', [Terminate 4%nat],
         [MarkDead 0%nat; ClearFrame 0%nat; CancelTask 0%nat]) /\
    _active_streams s' = [(make_stream_id 12 "0a1b2c3d", 5%nat)] /\
    is_active 1 (_hub (world s')) = false.
Proof.
  split; [exact hub_published_reachable|].
  destruct (stop_camera_stream os_running 1 tables_streaming)
    as [[[stopped s'] es] hes] eqn:E.
  destruct (stop_route_outcome os_running 1 tables_streaming stopped s' es hes
              hub_published_reachable E)
    as (A & _ & _ & _ & _ & _ & _ & _ & _ & I & _).
  exists s'. split; [|split; [exact A | exact I]].
  assert ((stopped, es, hes) =
          (2, [Terminate 4%nat],
           [MarkDead 0%nat; ClearFrame 0%nat; CancelTask 0%nat])) as Hv.
  { vm_compute in E. by injection E as <- _ <- <-. }
  by injection Hv as -> -> ->.
Defined.

(** *** Stream ids of different printers *)

Lemma startswith_app a b : startswith (a +:+ b) a = true.
Proof.
  induction a as [|c a IH]; [done|]. simpl. rewrite Ascii.eqb_refl.
  exact IH.
Qed.

Lemma pretty_N_go_is_digit (x : N) :
  forall s, all_chars is_digit s = true ->
            all_chars is_digit (pretty_N_go x s) = true.
Proof.
  induction (N.lt_wf_0 x) as [x _ IH]. intros s Hs.
  destruct (decide (0 < x)%N) as [Hx|Hx].
  - rewrite pretty_N_go_step by done.
    assert (x `mod` 10 < 10)%N as Hm by (apply N.mod_lt; lia).
    apply IH; [apply N.div_lt; lia|].
    simpl. rewrite Hs, andb_true_r. unfold is_digit.
    by rewrite (digit_of_pretty_N_char _ Hm).
  - assert (x = 0%N) as -> by lia. by rewrite pretty_N_go_0.
Qed.

(** The decimal form of an integer: a first character, then digits. *)
Lemma pretty_Z_shape (z : Z) :
  exists c t, pretty z = String c t /\ all_chars is_digit t = true.
Proof.
  assert (forall p, all_chars is_digit (pretty (N.pos p)) = true) as H.
  { intros p. unfold pretty, pretty_N. rewrite decide_False by done.
    by apply pretty_N_go_is_digit. }
  destruct z as [|p|p].
  - by exists "0"%char, ""%string.
  - specialize (H p). pose proof (pretty_Z_nonempty (Z.pos p)) as Hn.
    change (pretty (Z.pos p)) with (pretty (N.pos p)) in Hn |- *.
    destruct (pretty (N.pos p)) as [|c t]; [done|]. exists c, t.
    split; [done|]. simpl in H. by apply andb_true_iff in H as [_ ?].
  - exists "-"%char, (pretty (N.pos p)). split; [reflexivity | apply H].
Qed.

Lemma startswith_digits a b rest :
  all_chars is_digit a = true -> all_chars is_digit b = true ->
  startswith (b +:+ String "-"%char rest) (a +:+ "-") = true -> a = b.
Proof.
  revert b. induction a as [|c a IH]; intros b Ha Hb H.
  - destruct b as [|d b]; [done|].
    cbn [startswith String.append all_chars] in *.
    apply andb_true_iff in Hb as [Hd _].
    apply andb_true_iff in H as [H _]. apply Ascii.eqb_eq in H. subst d.
    done.
  - cbn [all_chars] in Ha. apply andb_true_iff in Ha as [Hc Ha].
    destruct b as [|d b]; cbn [startswith String.append] in H.
    + apply andb_true_iff in H as [H _]. apply Ascii.eqb_eq in H. subst c.
      done.
    + cbn [all_chars] in Hb. apply andb_true_iff in Hb as [Hd Hb].
      apply andb_true_iff in H as [H1 H2]. apply Ascii.eqb_eq in H1.
      subst d. f_equal. by apply (IH b).
Qed.

Lemma stream_id_printer p q hex :
  startswith (make_stream_id q hex) (stream_prefix p) = bool_decide (p = q).
Proof.
  unfold make_stream_id, stream_prefix.
  destruct (decide (p = q)) as [->|Hne].
  - rewrite bool_decide_eq_true_2 by done.
    assert (forall a b c : string, a +:+ b +:+ c = (a +:+ b) +:+ c) as Hassoc.
    { intros a b c. induction a as [|x a IH]; [done|].
      change (String x (a +:+ b +:+ c) = String x ((a +:+ b) +:+ c)).
      by rewrite IH. }
    rewrite Hassoc. apply startswith_app.
  - rewrite bool_decide_eq_false_2 by done.
    destruct (startswith _ _) eqn:E; [|done]. exfalso. apply Hne.
    destruct (pretty_Z_shape p) as (a & ta & Ep & Ha).
    destruct (pretty_Z_shape q) as (b & tb & Eq & Hb).
    rewrite Ep, Eq in E. simpl in E.
    apply andb_true_iff in E as [E1 E2]. apply Ascii.eqb_eq in E1. subst b.
    apply (startswith_digits ta tb hex Ha Hb) in E2. subst tb.
    pose proof (py_int_pretty p) as Pp. pose proof (py_int_pretty q) as Pq.
    rewrite Ep in Pp. rewrite Eq in Pq. congruence.
Qed.

(** X20. A stream id made for printer [q] starts with the prefix of
    printer [p] exactly when [p = q]: the decimal form of one id is never
    a proper beginning of another's followed by the dash.  So, when the
    stream ids of the tables were made by [_ensure_producer], the stop
    route for [p] leaves every stream of another printer registered,
    with its process or connection, and calls [terminate()] or
    [close()] only on what is registered for [p] itself. *)
Theorem stop_only_own_streams :
  (forall p q hex,
     startswith (make_stream_id q hex) (stream_prefix p) = bool_decide (p = q)) /\
  (forall os p s,
     made_ids (_active_streams s) ->
     made_ids (_active_chamber_streams s) ->
     let r := stop_camera_stream os p s in
     (forall q hex proc,
        q <> p ->
        (In (make_stream_id q hex, proc) (_active_streams r.1.1.2) <->
         In (make_stream_id q hex, proc) (_active_streams s)) /\
        (In (make_stream_id q hex, proc) (_active_chamber_streams r.1.1.2) <->
         In (make_stream_id q hex, proc) (_active_chamber_streams s))) /\
     (forall hex proc,
        ~ In (make_stream_id p hex, proc) (_active_streams r.1.1.2) /\
        ~ In (make_stream_id p hex, proc) (_active_chamber_streams r.1.1.2)) /\
     (forall proc,
        In (Terminate proc) r.1.2 ->
        exists hex, In (make_stream_id p hex, proc) (_active_streams s)) /\
     (forall conn,
        In (CloseWriter conn) r.1.2 ->
        exists hex, In (make_stream_id p hex, conn) (_active_chamber_streams s))).
Proof.
  split; [exact stream_id_printer|].
  intros os p s M1 M2 r. subst r. rewrite stop_camera_stream_eq. simpl.
  destruct (stop_processes_spec os (stream_prefix p) (_active_streams s))
    as (_ & _ & A3).
  destruct (stop_connections_spec os (stream_prefix p)
              (_active_chamber_streams s)) as (_ & _ & B3).
  unfold not_of_printer. split; [|split; [|split]].
  - intros q hex proc Hq. rewrite !filter_In. simpl.
    rewrite stream_id_printer, bool_decide_eq_false_2 by done. simpl. tauto.
  - intros hex proc. rewrite !filter_In. simpl.
    rewrite stream_id_printer, bool_decide_eq_true_2 by done. simpl.
    split; by intros [_ ?].
  - intros proc [Hin|Hin]%in_app_iff.
    + apply A3 in Hin as (sid & p0 & [= <-] & Hin & Hs & _).
      destruct (M1 sid proc Hin) as (q & hex & ->).
      rewrite stream_id_printer in Hs. apply bool_decide_eq_true in Hs.
      subst q. by exists hex.
    + by apply B3 in Hin as (sid & c & ? & _).
  - intros conn [Hin|Hin]%in_app_iff.
    + by apply A3 in Hin as (sid & p0 & ? & _).
    + apply B3 in Hin as (sid & c & [= <-] & Hin & Hs).
      destruct (M2 sid conn Hin) as (q & hex & ->).
      rewrite stream_id_printer in Hs. apply bool_decide_eq_true in Hs.
      subst q. by exists hex.
Qed.

Lemma stop_only_own_streams_witness :
  made_ids (_active_streams tables_streaming) /\
  made_ids (_active_chamber_streams tables_streaming) /\
  In (make_stream_id 12 "0a1b2c3d", 5%nat)
     (_active_streams
        (stop_camera_stream os_running 1 tables_streaming).1.1.2).
Proof.
  assert (made_ids (_active_streams tables_streaming)) as M1.
  { intros sid proc [[= <- <-]|[[= <- <-]|[]]].
    - by exists 1, "00c0ffee"%string.
    - by exists 12, "0a1b2c3d"%string. }
  assert (made_ids (_active_chamber_streams tables_streaming)) as M2.
  { intros sid proc [[= <- <-]|[]]. by exists 2, "deadbeef"%string. }
  split; [exact M1|]. split; [exact M2|].
  destruct stop_only_own_streams as [_ H].
  destruct (H os_running 1 tables_streaming M1 M2) as (Hkeep & _).
  destruct (Hkeep 12 "0a1b2c3d"%string 5%nat ltac:(lia)) as [Hk _].
  apply Hk. right. by left.
Defined.
